(** * pydiag: block ensembles and their containers

    A shallow embedding of [pydiag/ensemble/*.py]: the [Ensemble] partition,
    the array, scalar and tridiagonal containers built over it, and the
    block-wise algebra.  Python exceptions are values of [exn], a call that
    may raise returns a [result], an [OrderedDict] is an association list
    kept in insertion order, and an object whose class defines no [__eq__]
    carries the identity Python compares. *)

From Stdlib Require Import String Ascii ZArith Lia Bool Arith List.
From Stdlib Require Import Sorting.Sorted Sorting.Permutation.
Import ListNotations.
Open Scope string_scope.
Open Scope list_scope.
Open Scope nat_scope.

(** ** Exceptions and fallible calls *)

Inductive exn : Type :=
| TypeError (msg : string)
| ValueError (msg : string)
| KeyError (msg : string)
| IndexError (msg : string)
| NameError (msg : string)
| LinAlgError (msg : string).

Inductive result (A : Type) : Type :=
| OK (a : A)
| Raise (e : exn).

Arguments OK {A} a.
Arguments Raise {A} e.

Definition bind {A B : Type} (m : result A) (k : A -> result B) : result B :=
  match m with
  | OK a => k a
  | Raise e => Raise e
  end.

Notation "x <- m ;; k" := (bind m (fun x => k))
  (at level 61, m at next level, right associativity).

(** [for x in xs: acc = body(x, acc)], stopping at the first exception. *)
Fixpoint for_each {X S : Type} (body : X -> S -> result S) (xs : list X) (acc : S)
  : result S :=
  match xs with
  | [] => OK acc
  | x :: xs' => acc' <- body x acc ;; for_each body xs' acc'
  end.

(** [[f(x) for x in xs]], stopping at the first exception. *)
Fixpoint map_result {X Y : Type} (f : X -> result Y) (xs : list X) : result (list Y) :=
  match xs with
  | [] => OK []
  | x :: xs' => y <- f x ;; ys <- map_result f xs' ;; OK (y :: ys)
  end.

(** ** Block keys and ordered dictionaries *)

(** Keys of a dictionary are compared with [==]; for strings and tuples of
    strings that is structural equality. *)
Class EqDec (K : Type) : Type :=
  eq_dec : forall a b : K, {a = b} + {a <> b}.

#[export] Instance string_EqDec : EqDec string := string_dec.

(** A block key is a tuple of strings. *)
#[warnings="-notation-for-abbreviation"]
Notation block := (list string) (only parsing).

#[export] Instance block_EqDec : EqDec block := list_eq_dec string_dec.

Module OrderedDict.

Section WithKey.
Context {K : Type} `{EqDec K} {V : Type}.

Definition t : Type := list (K * V).

Definition empty : t := [].

Definition keys (d : t) : list K := map fst d.

Definition values (d : t) : list V := map snd d.

Definition items (d : t) : list (K * V) := d.

(** [d[k]], [None] standing for the [KeyError]. *)
Fixpoint get (k : K) (d : t) : option V :=
  match d with
  | [] => None
  | (k', v) :: d' => if eq_dec k k' then Some v else get k d'
  end.

(** [d[k] = v]: an existing key keeps its position, a new key goes last. *)
Fixpoint set (k : K) (v : V) (d : t) : t :=
  match d with
  | [] => [(k, v)]
  | (k', v') :: d' =>
      if eq_dec k k' then (k', v) :: d' else (k', v') :: set k v d'
  end.

(** The keys after [d[k] = v], from the keys before. *)
Definition add_key (acc : list K) (k : K) : list K :=
  if in_dec eq_dec k acc then acc else acc ++ [k].

End WithKey.

Arguments t K V : clear implicits.

End OrderedDict.

Definition odict (V : Type) : Type := OrderedDict.t block V.

Definition key_error (b : block) : exn :=
  KeyError (String.concat "," b).

(** [d[block]] as an expression: the value or a [KeyError]. *)
Definition lookup {V : Type} (d : odict V) (b : block) : result V :=
  match OrderedDict.get b d with
  | Some v => OK v
  | None => Raise (key_error b)
  end.

(** The statement [data[key] = f(key, x)] in a loop over [(key, x)] pairs. *)
Definition store {X V : Type} (f : block * X -> result V) (kx : block * X)
  (data : odict V) : result (odict V) :=
  v <- f kx ;;
  OK (OrderedDict.set (fst kx) v data).

(** The keys of a dictionary filled in the order [l]: every key at its first
    occurrence. *)
Definition first_occurrences (l : list block) : list block :=
  fold_left OrderedDict.add_key l [].

(** ** ensemble.py: the [Ensemble] class *)

(** An object handed to the constructor, as far as the constructor looks at
    it: what [str(obj)] and [int(obj)] return, [None] when the conversion
    raises. *)
Record pyobj : Type := PyObj {
  py_str : option string;
  py_int : option Z
}.

(** An element of an axis: a tuple (of any length) or any other object. *)
Inductive element : Type :=
| Bare (obj : pyobj)
| Tuple (objs : list pyobj).

(** One positional argument: [iter(arg)] either raises or yields elements. *)
Inductive axis_arg : Type :=
| NotIterable
| Iterable (elems : list element).

(** Lines 41-55: one element to its [(str, int)] form. *)
Definition format_element (default_degeneracy : Z) (obj : element)
  : result (string * Z) :=
  match obj with
  | Tuple objs =>
      match objs with
      | [o0; o1] =>
          match py_str o0, py_int o1 with
          | Some s, Some d => OK (s, d)
          | _, _ => Raise (TypeError "Invalid tuple types specifying (block, degeneracy)")
          end
      | _ => Raise (ValueError "Invalid tuple length specifying (block, degeneracy)")
      end
  | Bare o =>
      match py_str o with
      | Some s => OK (s, default_degeneracy)
      | None => Raise (TypeError "Invalid type specifying block")
      end
  end.

(** Lines 32-56: one argument to its list of [(str, int)] pairs. *)
Definition format_arg (default_degeneracy : Z) (arg : axis_arg)
  : result (list (string * Z)) :=
  match arg with
  | NotIterable => Raise (TypeError "block specifier not iterable")
  | Iterable elems => map_result (format_element default_degeneracy) elems
  end.

(** [itertools.product] of the lists: the last list varies fastest, and no list at
    all gives the single empty tuple. *)
Fixpoint product {A : Type} (lists : list (list A)) : list (list A) :=
  match lists with
  | [] => [[]]
  | l :: ls => flat_map (fun x => map (cons x) (product ls)) l
  end.

(** Comparison of tuples of strings: lexicographic, a proper prefix first. *)
Fixpoint block_compare (a b : block) : comparison :=
  match a, b with
  | [], [] => Eq
  | [], _ :: _ => Lt
  | _ :: _, [] => Gt
  | x :: a', y :: b' =>
      match String.compare x y with
      | Eq => block_compare a' b'
      | c => c
      end
  end.

Definition block_ltb (a b : block) : bool :=
  match block_compare a b with Lt => true | _ => false end.

Definition block_leb (a b : block) : bool :=
  match block_compare a b with Gt => false | _ => true end.

(** The orders the comparison induces on strings and on block keys. *)
Definition string_lt (a b : string) : Prop := String.compare a b = Lt.

Definition block_lt (a b : block) : Prop := block_ltb a b = true.

Definition block_le (a b : block) : Prop := block_ltb b a = false.

(** [sorted(blocks)]: a stable sort by [<]. *)
Fixpoint insert_sorted (x : block) (l : list block) : list block :=
  match l with
  | [] => [x]
  | h :: t => if block_ltb h x then h :: insert_sorted x t else x :: h :: t
  end.

Definition sorted (l : list block) : list block :=
  fold_right insert_sorted [] l.

(** The attributes of an [Ensemble] object.  The class defines neither
    [__eq__] nor [__hash__], so [==] and [!=] compare the identity of the
    objects; [ens_id] is that identity. *)
Record Ensemble : Type := MkEnsemble {
  ens_id : nat;
  blocks : list block;
  degeneracy : odict Z
}.

(** Lines 59-64: the key and the degeneracy of one element of the product. *)
Definition block_entry (bd : list (string * Z)) : block * Z :=
  (map fst bd, fold_left Z.mul (map snd bd) 1%Z).

(** Lines 58-67: the body of the loop over [itertools.product]. *)
Definition add_block (blocks_degeneracies : list (string * Z))
  (st : list block * odict Z) : list block * odict Z :=
  let b := map fst blocks_degeneracies in
  let deg := fold_left Z.mul (map snd blocks_degeneracies) 1%Z in
  (fst st ++ [b], OrderedDict.set b deg (snd st)).

(** [Ensemble.__init__] on the object of identity [self]. *)
Definition Ensemble_init (self : nat) (args : list axis_arg) (default_degeneracy : Z)
  : result Ensemble :=
  args_formatted <- map_result (format_arg default_degeneracy) args ;;
  let st := fold_left (fun st bd => add_block bd st) (product args_formatted)
              ([], OrderedDict.empty) in
  OK {| ens_id := self; blocks := sorted (fst st); degeneracy := snd st |}.

(** A call of the class [Ensemble]: a new object is allocated at
    the next free identity and initialised. *)
Definition Ensemble_new (next : nat) (args : list axis_arg) (default_degeneracy : Z)
  : result (Ensemble * nat) :=
  e <- Ensemble_init next args default_degeneracy ;;
  OK (e, S next).

(** [Ensemble.__iter__]: the items of the [degeneracy] dictionary. *)
Definition Ensemble_iter (e : Ensemble) : list (block * Z) :=
  OrderedDict.items (degeneracy e).

(** [a == b] and [a != b] on ensembles: the default, identity. *)
Definition Ensemble_eq (a b : Ensemble) : bool := Nat.eqb (ens_id a) (ens_id b).

Definition Ensemble_ne (a b : Ensemble) : bool := negb (Ensemble_eq a b).

(** The number of elements an axis supplies. *)
Definition axis_size (arg : axis_arg) : nat :=
  match arg with
  | NotIterable => 0
  | Iterable elems => length elems
  end.

(** Helpers to write axis specifications. *)
Definition label (s : string) : element :=
  Bare {| py_str := Some s; py_int := None |}.

Definition label_deg (s : string) (d : Z) : element :=
  Tuple [ {| py_str := Some s; py_int := None |};
          {| py_str := None; py_int := Some d |} ].

(** ** numpy arrays

    An array is its shape and the element found at each multi-index; the
    element type [T] stands for the dtype, with the zero that [np.diag]
    pads with and the addition and negation the containers use. *)

Class Numeric (T : Type) : Type := {
  zero : T;
  add : T -> T -> T;
  neg : T -> T
}.

Record ndarray (T : Type) : Type := MkArray {
  shape : list nat;
  item : list nat -> T
}.

Arguments MkArray {T} shape item.
Arguments shape {T} n.
Arguments item {T} n idx.

(** An index component: an integer, a slice [start:stop] or a string. *)
Inductive basic_index : Type :=
| BInt (i : Z)
| BSlice (start stop : option Z)
| BStr (s : string).

(** The object between the brackets of [arr[k]]: one component or a tuple. *)
Inductive index : Type :=
| Single (b : basic_index)
| Multi (bs : list basic_index).

(** The attributes of an [Array] object ([array.py]) and of an
    [EnsembleArray] object ([ensemble_array.py]). *)
Record Array (T : Type) : Type := MkArrayContainer {
  ensemble : Ensemble;
  array : odict (ndarray T);
  ndim : nat
}.

Arguments MkArrayContainer {T} ensemble array ndim.
Arguments ensemble {T} a.
Arguments array {T} a.
Arguments ndim {T} a.

Definition EnsembleArray (T : Type) : Type := Array T.

(** The attributes of a [Scalar] object ([scalar.py]) and of an
    [EnsembleScalar] object ([ensemble_scalar.py]); a value is a number or
    Python's [None]. *)
Record Scalar (T : Type) : Type := MkScalarContainer {
  sc_ensemble : Ensemble;
  scalar : odict (option T)
}.

Arguments MkScalarContainer {T} sc_ensemble scalar.
Arguments sc_ensemble {T} s.
Arguments scalar {T} s.

Definition EnsembleScalar (T : Type) : Type := Scalar T.

(** The attributes of an [EnsembleTriDiag] object. *)
Record EnsembleTriDiag (T : Type) : Type := MkTriDiag {
  td_ensemble : Ensemble;
  diag : odict (ndarray T);
  offdiag : odict (ndarray T)
}.

Arguments MkTriDiag {T} td_ensemble diag offdiag.
Arguments td_ensemble {T} e.
Arguments diag {T} e.
Arguments offdiag {T} e.

(** The Python values an operator of a container can be handed. *)
Inductive pyvalue (T : Type) : Type :=
| PyNone
| PyNum (x : T)
| PyNdarray (a : ndarray T)
| PyDict (m : odict (ndarray T))
| PyArray (c : Array T)
| PyEnsembleArray (c : EnsembleArray T)
| PyScalar (s : Scalar T).

Arguments PyNone {T}.
Arguments PyNum {T} x.
Arguments PyNdarray {T} a.
Arguments PyDict {T} m.
Arguments PyArray {T} c.
Arguments PyEnsembleArray {T} c.
Arguments PyScalar {T} s.

(** The [select] and [select_range] arguments of scipy's tridiagonal
    eigenvalue routines. *)
Inductive eig_select : Type :=
| SelectAll
| SelectIndex (lo hi : nat).

(** The numerical library the containers dispatch to, block by block:
    [numpy.dot], numpy's [*] on an array and any Python operand, and
    [scipy.linalg.eigvalsh_tridiagonal], which returns the selected
    eigenvalues as a one-dimensional array. *)
Class External (T : Type) : Type := {
  np_dot : ndarray T -> ndarray T -> result (ndarray T);
  np_mul : ndarray T -> pyvalue T -> result (ndarray T);
  eigvalsh_tridiagonal : ndarray T -> ndarray T -> eig_select -> result (list T)
}.

Section Numpy.
Context {T : Type} `{Numeric T}.

(** [arr.ndim] *)
Definition np_ndim (a : ndarray T) : nat := length (shape a).

(** The number of elements of an array of shape [s]. *)
Definition size (s : list nat) : nat := fold_right Nat.mul 1 s.

(** [len(arr)]: the first dimension; a 0-d array has no length. *)
Definition np_len (a : ndarray T) : result nat :=
  match shape a with
  | [] => Raise (TypeError "len() of unsized object")
  | n :: _ => OK n
  end.

(** The multi-index of the [i]-th element in row-major order. *)
Fixpoint unravel (s : list nat) (i : nat) : list nat :=
  match s with
  | [] => []
  | _ :: s' => (i / size s') :: unravel s' (i mod size s')
  end.

(** [len(arr.flatten())] *)
Definition flat_len (a : ndarray T) : nat := size (shape a).

(** [arr.flatten()]: one dimension, row-major order. *)
Definition flatten (a : ndarray T) : ndarray T :=
  MkArray [size (shape a)] (fun idx => item a (unravel (shape a) (hd 0 idx))).

(** [np.array(arr, dtype=dtype)] on an array: a copy, cast when a dtype is
    given. *)
Definition np_array (dtype : option (T -> T)) (a : ndarray T) : ndarray T :=
  match dtype with
  | None => a
  | Some cast => MkArray (shape a) (fun idx => cast (item a idx))
  end.

(** [np.empty(n)] for an integer [n]: one dimension of length [n]; the
    elements of an uninitialised array are arbitrary, [zero] here. *)
Definition np_empty (n : nat) : ndarray T :=
  MkArray [n] (fun _ => zero).

(** [np.diag(v, k)]: a 1-d [v] is laid on the [k]-th diagonal of a square
    matrix of side [len(v) + |k|], a 2-d [v] gives its [k]-th diagonal. *)
Definition np_diag (v : ndarray T) (k : Z) : result (ndarray T) :=
  match shape v with
  | [n] =>
      let m := n + Z.abs_nat k in
      OK (MkArray [m; m]
            (fun idx =>
               match idx with
               | [i; j] =>
                   if (Z.of_nat j =? Z.of_nat i + k)%Z
                   then item v [if (0 <=? k)%Z then i else j]
                   else zero
               | _ => zero
               end))
  | [r; c] =>
      let len :=
        if (0 <=? k)%Z then Nat.min r (c - Z.to_nat k)
        else Nat.min (r - Z.abs_nat k) c in
      OK (MkArray [len]
            (fun idx =>
               let i := hd 0 idx in
               if (0 <=? k)%Z then item v [i; i + Z.to_nat k]
               else item v [i + Z.abs_nat k; i]))
  | _ => Raise (ValueError "Input must be 1- or 2-d.")
  end.

(** Broadcasting of two shapes, written on the reversed shapes: trailing
    dimensions are aligned and a dimension of size 1 stretches. *)
Fixpoint broadcast_rev (ra rb : list nat) : option (list nat) :=
  match ra, rb with
  | [], _ => Some rb
  | _, [] => Some ra
  | x :: ra', y :: rb' =>
      match broadcast_rev ra' rb' with
      | None => None
      | Some r =>
          if x =? y then Some (x :: r)
          else if x =? 1 then Some (y :: r)
          else if y =? 1 then Some (x :: r)
          else None
      end
  end.

Definition broadcast_shapes (sa sb : list nat) : option (list nat) :=
  option_map (@rev nat) (broadcast_rev (rev sa) (rev sb)).

(** The index read in an operand of shape [s] for the index [idx] of the
    broadcast result. *)
Definition project (s : list nat) (idx : list nat) : list nat :=
  map (fun ni => if fst ni =? 1 then 0 else snd ni)
      (combine s (skipn (length idx - length s) idx)).

(** [a + b] on arrays. *)
Definition np_add (a b : ndarray T) : result (ndarray T) :=
  match broadcast_shapes (shape a) (shape b) with
  | None => Raise (ValueError "operands could not be broadcast together")
  | Some s =>
      OK (MkArray s
            (fun idx => add (item a (project (shape a) idx))
                            (item b (project (shape b) idx))))
  end.

(** Bounds of a slice along an axis of length [n], as Python clamps them. *)
Definition clamp_bound (n : nat) (b : Z) : nat :=
  if (b <? 0)%Z then Z.to_nat (Z.max 0 (b + Z.of_nat n))
  else Nat.min (Z.to_nat b) n.

(** First index and length of [start:stop] along an axis of length [n]. *)
Definition slice_range (n : nat) (start stop : option Z) : nat * nat :=
  let lo := match start with None => 0 | Some s => clamp_bound n s end in
  let hi := match stop with None => n | Some e => clamp_bound n e end in
  (lo, hi - lo).

Definition wrap_index (n : nat) (i : Z) : Z :=
  if (i <? 0)%Z then (i + Z.of_nat n)%Z else i.

Definition in_bounds (n : nat) (i : Z) : bool :=
  ((0 <=? wrap_index n i)%Z && (wrap_index n i <? Z.of_nat n)%Z)%bool.

Definition is_str (c : basic_index) : bool :=
  match c with BStr _ => true | _ => false end.

(** Shape of [arr[comps]] for an array of shape [s], or the [IndexError]. *)
Fixpoint index_shape (comps : list basic_index) (s : list nat) : result (list nat) :=
  match comps with
  | [] => OK s
  | c :: cs =>
      match s with
      | [] => Raise (IndexError "too many indices for array")
      | n :: s' =>
          match c with
          | BInt i =>
              if in_bounds n i then index_shape cs s'
              else Raise (IndexError "index is out of bounds for axis")
          | BSlice start stop =>
              r <- index_shape cs s' ;;
              OK (snd (slice_range n start stop) :: r)
          | BStr _ =>
              Raise (IndexError "only integers, slices (`:`), ellipsis (`...`), numpy.newaxis (`None`) and integer or boolean arrays are valid indices")
          end
      end
  end.

(** The index read in [arr] for the index [idx] of [arr[comps]]. *)
Fixpoint index_map (comps : list basic_index) (s : list nat) (idx : list nat)
  : list nat :=
  match comps, s with
  | c :: cs, n :: s' =>
      match c with
      | BInt i => Z.to_nat (wrap_index n i) :: index_map cs s' idx
      | BSlice start stop =>
          match idx with
          | j :: idx' => (fst (slice_range n start stop) + j) :: index_map cs s' idx'
          | [] => []
          end
      | BStr _ => idx
      end
  | _, _ => idx
  end.

Definition components (k : index) : list basic_index :=
  match k with
  | Single b => [b]
  | Multi bs => bs
  end.

(** [arr[k]] with basic indexing.  A string is no valid index of an array
    without named fields, and that is reported before the number of indices
    and their bounds are looked at. *)
Definition np_getitem (a : ndarray T) (k : index) : result (ndarray T) :=
  let comps := components k in
  if existsb is_str comps
  then Raise (IndexError "only integers, slices (`:`), ellipsis (`...`), numpy.newaxis (`None`) and integer or boolean arrays are valid indices")
  else
    s <- index_shape comps (shape a) ;;
    OK (MkArray s (fun idx => item a (index_map comps (shape a) idx))).

(** A one-dimensional array from a list. *)
Definition vector (l : list T) : ndarray T :=
  MkArray [length l] (fun idx => nth (hd 0 idx) l zero).

(** The elements of an array in row-major order. *)
Definition tolist (a : ndarray T) : list T :=
  map (fun i => item a (unravel (shape a) i)) (seq 0 (size (shape a))).

End Numpy.

(** ** array.py and ensemble_array.py: the array containers *)

(** The [data] and [tag] arguments of a container constructor, as its
    docstring has them: without a tag [data[block]] is an array, with a tag
    [data[block]] is a dictionary and [data[block][tag]] an array. *)
Inductive block_data (T : Type) : Type :=
| Arrays (data : odict (ndarray T))
| TaggedArrays (data : odict (OrderedDict.t string (ndarray T))) (tag : string).

Arguments Arrays {T} data.
Arguments TaggedArrays {T} data tag.

(** [np.isscalar(other)] *)
Definition np_isscalar {T : Type} (other : pyvalue T) : bool :=
  match other with
  | PyNum _ => true
  | _ => false
  end.

(** [np.unique] of a list of dimension counts, up to the order of the
    result, which the constructors do not look at. *)
Definition np_unique (l : list nat) : list nat := nodup Nat.eq_dec l.

(** A run that records the blocks whose data it has read so far. *)
Definition traced (A : Type) : Type := list block * result A.

Definition traced_bind {A B : Type} (m : traced A) (k : A -> traced B) : traced B :=
  match m with
  | (log, OK a) => let (log', r) := k a in (log ++ log', r)
  | (log, Raise e) => (log, Raise e)
  end.

Definition lift {A : Type} (m : result A) : traced A := ([], m).

Definition touch (b : block) : traced unit := ([b], OK tt).

Notation "x <-- m ;; k" := (traced_bind m (fun x => k))
  (at level 61, m at next level, right associativity).

Fixpoint for_each_traced {X S : Type} (body : X -> S -> traced S) (xs : list X) (acc : S)
  : traced S :=
  match xs with
  | [] => lift (OK acc)
  | x :: xs' => acc' <-- body x acc ;; for_each_traced body xs' acc'
  end.

Section Containers.
Context {T : Type} `{Numeric T} `{External T}.

(** [data[block][tag]] on the nested dictionary. *)
Definition lookup_tag (m : OrderedDict.t string (ndarray T)) (tag : string)
  : result (ndarray T) :=
  match OrderedDict.get tag m with
  | Some a => OK a
  | None => Raise (KeyError tag)
  end.

(** [data[block]] without a tag, [data[block][tag]] with one. *)
Definition read_source (src : block_data T) (b : block) : result (ndarray T) :=
  match src with
  | Arrays data => lookup data b
  | TaggedArrays data tag => m <- lookup data b ;; lookup_tag m tag
  end.

(** [Array.__init__], array.py lines 26-50; [isinstance] checks hold by
    typing. *)
Definition Array_init (ens : Ensemble) (src : block_data T) (dtype : option (T -> T))
  : result (Array T) :=
  arr <- match src with
         | Arrays data =>
             for_each (store (fun bd : block * Z =>
                                x <- lookup data (fst bd) ;;
                                OK (np_array dtype x)))
                      (Ensemble_iter ens) OrderedDict.empty
         | TaggedArrays data tag =>
             for_each (store (fun bd : block * Z =>
                                m <- lookup data (fst bd) ;;
                                x <- lookup_tag m tag ;;
                                OK (np_array dtype x)))
                      (Ensemble_iter ens) OrderedDict.empty
         end ;;
  match np_unique (map np_ndim (OrderedDict.values arr)) with
  | [n] => OK {| ensemble := ens; array := arr; ndim := n |}
  | _ => Raise (ValueError "not all arrays have same number of dimensions")
  end.

(** [EnsembleArray.__init__], ensemble_array.py lines 27-51: the same
    statements. *)
Definition EnsembleArray_init (ens : Ensemble) (src : block_data T)
  (dtype : option (T -> T)) : result (EnsembleArray T) :=
  Array_init ens src dtype.

(** [Array.__getitem__], array.py lines 110-117.  [self.ndim * (0)] is the
    product of two integers. *)
Definition Array_getitem (self : Array T) (k : index) : result (Array T) :=
  data <- for_each (store (fun ba : block * ndarray T =>
                             n <- np_len (snd ba) ;;
                             if 0 <? n then np_getitem (snd ba) k
                             else OK (np_empty (ndim self * 0))))
                   (OrderedDict.items (array self)) OrderedDict.empty ;;
  Array_init (ensemble self) (Arrays data) None.

(** [EnsembleArray.__getitem__], ensemble_array.py lines 109-119: the same
    statements and a [print] of the tuple [self.ndim * (0,)], whose output is
    not part of the model. *)
Definition EnsembleArray_getitem (self : EnsembleArray T) (k : index)
  : result (EnsembleArray T) :=
  data <- for_each (store (fun ba : block * ndarray T =>
                             n <- np_len (snd ba) ;;
                             if 0 <? n then np_getitem (snd ba) k
                             else OK (np_empty (ndim self * 0))))
                   (OrderedDict.items (array self)) OrderedDict.empty ;;
  EnsembleArray_init (ensemble self) (Arrays data) None.

(** A block key used as an index: a tuple of strings. *)
Definition block_index (b : block) : index := Multi (map BStr b).

(** [other[block]], dispatched on the class of [other]. *)
Definition py_getitem (other : pyvalue T) (b : block) : result (pyvalue T) :=
  match other with
  | PyNone => Raise (TypeError "'NoneType' object is not subscriptable")
  | PyNum _ => Raise (TypeError "object is not subscriptable")
  | PyNdarray a => x <- np_getitem a (block_index b) ;; OK (PyNdarray x)
  | PyDict m => x <- lookup m b ;; OK (PyNdarray x)
  | PyArray c => r <- Array_getitem c (block_index b) ;; OK (PyArray r)
  | PyEnsembleArray c => r <- EnsembleArray_getitem c (block_index b) ;; OK (PyEnsembleArray r)
  | PyScalar s =>
      v <- lookup (scalar s) b ;;
      OK (match v with None => PyNone | Some x => PyNum x end)
  end.

(** [Array.__mul__], array.py lines 87-95. *)
Definition Array_mul (self : Array T) (other : pyvalue T) : result (Array T) :=
  data <- (if np_isscalar other
           then for_each (store (fun ba : block * ndarray T => np_mul (snd ba) other))
                         (OrderedDict.items (array self)) OrderedDict.empty
           else for_each (store (fun ba : block * ndarray T =>
                                   v <- py_getitem other (fst ba) ;;
                                   np_mul (snd ba) v))
                         (OrderedDict.items (array self)) OrderedDict.empty) ;;
  Array_init (ensemble self) (Arrays data) None.

(** [EnsembleArray.__mul__], ensemble_array.py lines 88-95. *)
Definition EnsembleArray_mul (self : EnsembleArray T) (other : pyvalue T)
  : result (EnsembleArray T) :=
  if np_isscalar other
  then data <- for_each (store (fun ba : block * ndarray T => np_mul (snd ba) other))
                        (OrderedDict.items (array self)) OrderedDict.empty ;;
       EnsembleArray_init (ensemble self) (Arrays data) None
  else Raise (TypeError "only multiplications with scalars are allowed").

(** ** algebra.py: [dot] *)

(** Lines 75-76: one turn of the loop, reading both operands' block. *)
Definition dot_block (a b : Array T) (bd : block * Z) (data : odict (ndarray T))
  : traced (odict (ndarray T)) :=
  _ <-- touch (fst bd) ;;
  x <-- lift (lookup (array a) (fst bd)) ;;
  y <-- lift (lookup (array b) (fst bd)) ;;
  z <-- lift (np_dot x y) ;;
  lift (OK (OrderedDict.set (fst bd) z data)).

(** [dot], algebra.py lines 61-79. *)
Definition dot (a b : pyvalue T) : traced (Array T) :=
  match a, b with
  | PyArray a, PyArray b =>
      if Ensemble_ne (ensemble a) (ensemble b)
      then lift (Raise (ValueError "a and b do not share the same ensemble"))
      else
        data <-- for_each_traced (dot_block a b) (Ensemble_iter (ensemble a))
                   OrderedDict.empty ;;
        lift (Array_init (ensemble a) (Arrays data) None)
  | _, _ => lift (Raise (TypeError "inputs need to be ensemble.Array"))
  end.

End Containers.

(** ** scalar.py and ensemble_scalar.py: the scalar containers *)

Section Scalars.
Context {T : Type} `{Numeric T}.

(** [EnsembleScalar.__init__], ensemble_scalar.py lines 25-51.  Both branches
    of the test on [tag] read [data[block]]; a dtype is called on the value
    and cannot convert [None]. *)
Definition EnsembleScalar_init (ens : Ensemble) (data : odict (option T))
  (tag : option string) (dtype : option (T -> T)) : result (EnsembleScalar T) :=
  sc <- for_each (store (fun bd : block * Z =>
                           dt <- lookup data (fst bd) ;;
                           match dtype with
                           | None => OK dt
                           | Some cast =>
                               match dt with
                               | Some x => OK (Some (cast x))
                               | None => Raise (TypeError "argument must be a string or a number, not 'NoneType'")
                               end
                           end))
                 (Ensemble_iter ens) OrderedDict.empty ;;
  OK {| sc_ensemble := ens; scalar := sc |}.

(** A value of the [data] of a [Scalar]: [None], a number or an array. *)
Inductive scalar_value : Type :=
| SvNone
| SvNum (x : T)
| SvArray (a : ndarray T).

(** [dt.item()]: the element of an array of size one. *)
Definition np_item (a : ndarray T) : result T :=
  if size (shape a) =? 1
  then OK (item a (unravel (shape a) 0))
  else Raise (ValueError "can only convert an array of size 1 to a Python scalar").

(** [Scalar.__init__], scalar.py lines 25-53, for [tag == None]. *)
Definition Scalar_init (ens : Ensemble) (data : odict scalar_value)
  (dtype : option (T -> T)) : result (Scalar T) :=
  sc <- for_each (store (fun bd : block * Z =>
                           dt <- lookup data (fst bd) ;;
                           match dt with
                           | SvNone => OK None
                           | SvNum x =>
                               match dtype with
                               | None => OK (Some x)
                               | Some cast => OK (Some (cast x))
                               end
                           | SvArray a =>
                               x <- np_item a ;;
                               match dtype with
                               | None => OK (Some x)
                               | Some cast => OK (Some (cast x))
                               end
                           end))
                 (Ensemble_iter ens) OrderedDict.empty ;;
  OK {| sc_ensemble := ens; scalar := sc |}.

(** The names bound in the module scalar.py: its three imports and its
    class.  Python's builtins hold no [Array]. *)
Definition scalar_py_globals : list string :=
  ["Ensemble"; "np"; "OrderedDict"; "Scalar"].

(** Evaluation of a global name in scalar.py. *)
Definition global_name (name : string) : result unit :=
  if existsb (String.eqb name) scalar_py_globals then OK tt
  else Raise (NameError (String.append "name '" (String.append name "' is not defined"))).

(** [-arr] on a value of a scalar container. *)
Definition py_neg (v : option T) : result T :=
  match v with
  | Some x => OK (neg x)
  | None => Raise (TypeError "bad operand type for unary -: 'NoneType'")
  end.

(** [np.array(x)] for a number: a 0-d array. *)
Definition np_array0 (x : T) : ndarray T := MkArray [] (fun _ => x).

(** [Scalar.__neg__], scalar.py lines 89-93: the loop, then the evaluation
    of the name [Array] and the call. *)
Definition Scalar_neg (self : Scalar T) : result (Array T) :=
  data <- for_each (store (fun ba : block * option T => py_neg (snd ba)))
                   (OrderedDict.items (scalar self)) OrderedDict.empty ;;
  _ <- global_name "Array" ;;
  Array_init (sc_ensemble self)
    (Arrays (map (fun kv : block * T => (fst kv, np_array0 (snd kv))) data)) None.

End Scalars.

(** ** ensemble_tridiag.py: the tridiagonal container *)

Section TriDiag.
Context {T : Type} `{Numeric T} `{External T}.

(** Lines 45-56: the diagonal and off-diagonal kept for one block. *)
Definition tridiag_entry (ens_diag ens_offdiag : EnsembleArray T) (b : block)
  : result (ndarray T * ndarray T) :=
  x <- lookup (array ens_diag) b ;;
  y <- lookup (array ens_offdiag) b ;;
  let d := flatten x in
  let od := flatten y in
  ld <- np_len d ;;
  lod <- np_len od ;;
  if ld =? lod
  then od' <- np_getitem od (Single (BSlice None (Some (-1)%Z))) ;;
       OK (d, od')
  else if ld =? lod + 1
  then OK (d, od)
  else Raise (ValueError "Incompatible diag/offdiag dimensions in blockm").

(** Lines 44-56: one turn of the constructor's loop. *)
Definition tridiag_block (ens_diag ens_offdiag : EnsembleArray T) (bd : block * Z)
  (st : odict (ndarray T) * odict (ndarray T))
  : result (odict (ndarray T) * odict (ndarray T)) :=
  p <- tridiag_entry ens_diag ens_offdiag (fst bd) ;;
  OK (OrderedDict.set (fst bd) (fst p) (fst st),
      OrderedDict.set (fst bd) (snd p) (snd st)).

(** [EnsembleTriDiag.__init__], lines 30-56. *)
Definition EnsembleTriDiag_init (ens : Ensemble)
  (data : odict (OrderedDict.t string (ndarray T)))
  (diag_tag offdiag_tag : string) (dtype : option (T -> T))
  : result (EnsembleTriDiag T) :=
  ens_diag <- EnsembleArray_init ens (TaggedArrays data diag_tag) dtype ;;
  ens_offdiag <- EnsembleArray_init ens (TaggedArrays data offdiag_tag) dtype ;;
  st <- for_each (tridiag_block ens_diag ens_offdiag) (Ensemble_iter ens)
          (OrderedDict.empty, OrderedDict.empty) ;;
  OK {| td_ensemble := ens; diag := fst st; offdiag := snd st |}.

(** Lines 96-103: the entry of [eig0] for one block. *)
Definition eig0_block (self : EnsembleTriDiag T) (b : block) : result (option T) :=
  d <- lookup (diag self) b ;;
  n <- np_len d ;;
  if n =? 0 then OK None
  else if n =? 1
  then r <- np_getitem d (Single (BInt 0)) ;;
       OK (Some (item r []))
  else od <- lookup (offdiag self) b ;;
       ev <- eigvalsh_tridiagonal d od (SelectIndex 0 0) ;;
       match ev with
       | x :: _ => OK (Some x)
       | [] => Raise (IndexError "index 0 is out of bounds for axis 0 with size 0")
       end.

(** [EnsembleTriDiag.eig0], lines 88-104. *)
Definition eig0 (self : EnsembleTriDiag T) : result (EnsembleScalar T) :=
  data_e0 <- for_each (store (fun bd : block * Z => eig0_block self (fst bd)))
                      (Ensemble_iter (td_ensemble self)) OrderedDict.empty ;;
  EnsembleScalar_init (td_ensemble self) data_e0 None None.

(** Lines 156-162: the matrix of one block.  [self.diag[block]] is an array,
    never [None], so the [else] branch is the one taken. *)
Definition asarray_block (self : EnsembleTriDiag T) (b : block) : result (ndarray T) :=
  d <- lookup (diag self) b ;;
  _ <- np_len d ;;
  m0 <- np_diag d 0 ;;
  od <- lookup (offdiag self) b ;;
  m1 <- np_diag od 1 ;;
  s <- np_add m0 m1 ;;
  m2 <- np_diag od (-1) ;;
  np_add s m2.

(** The entry at row [i] and column [j] of the symmetric tridiagonal matrix
    that [d] and [od] stand for. *)
Definition tridiagonal_entry (d od : ndarray T) (i j : nat) : T :=
  if i =? j then item d [i]
  else if j =? i + 1 then item od [i]
  else if i =? j + 1 then item od [j]
  else zero.

(** [EnsembleTriDiag.asarray], lines 148-163. *)
Definition asarray (self : EnsembleTriDiag T) : result (EnsembleArray T) :=
  data_mats <- for_each (store (fun bd : block * Z => asarray_block self (fst bd)))
                        (Ensemble_iter (td_ensemble self)) OrderedDict.empty ;;
  EnsembleArray_init (td_ensemble self) (Arrays data_mats) None.

End TriDiag.

(** ** Integers as the element type

    With [dtype=int] the elements are Python integers.  The library then
    computes [numpy.dot] of two vectors, the product of an array with a
    number, and the eigenvalues of a tridiagonal matrix that is diagonal. *)

#[export] Instance Z_Numeric : Numeric Z :=
  {| zero := 0%Z; add := Z.add; neg := Z.opp |}.

Definition Z_dot (a b : ndarray Z) : result (ndarray Z) :=
  match shape a, shape b with
  | [n], [m] =>
      if n =? m
      then OK (MkArray []
                 (fun _ => fold_right Z.add 0%Z
                             (map (fun i => (item a [i] * item b [i])%Z) (seq 0 n))))
      else Raise (ValueError "shapes not aligned")
  | _, _ => Raise (ValueError "shapes not aligned")
  end.

Definition Z_mul (a : ndarray Z) (v : pyvalue Z) : result (ndarray Z) :=
  match v with
  | PyNum x => OK (MkArray (shape a) (fun idx => (item a idx * x)%Z))
  | _ => Raise (TypeError "unsupported operand type(s) for *")
  end.

Fixpoint Z_insert (x : Z) (l : list Z) : list Z :=
  match l with
  | [] => [x]
  | h :: t => if (x <=? h)%Z then x :: l else h :: Z_insert x t
  end.

Definition Z_eigvalsh_tridiagonal (d od : ndarray Z) (sel : eig_select)
  : result (list Z) :=
  if forallb (Z.eqb 0) (tolist od)
  then
    let ev := fold_right Z_insert [] (tolist d) in
    match sel with
    | SelectAll => OK ev
    | SelectIndex lo hi => OK (firstn (S hi - lo) (skipn lo ev))
    end
  else Raise (LinAlgError "eigenvalues are not integers").

#[export] Instance Z_External : External Z :=
  {| np_dot := Z_dot; np_mul := Z_mul;
     eigvalsh_tridiagonal := Z_eigvalsh_tridiagonal |}.

(** ** Example inputs *)

(** The axes of two quantum numbers, and the same labels out of order. *)
Definition example_axes : list axis_arg :=
  [ Iterable [label_deg "a" 1; label_deg "b" 2]; Iterable [label "x"; label "y"] ].

Definition example_formatted : list (list (string * Z)) :=
  [ [("a", 1%Z); ("b", 2%Z)]; [("x", 1%Z); ("y", 1%Z)] ].

Definition unsorted_axes : list axis_arg :=
  [ Iterable [label "b"; label "a"] ].

(** An ensemble of one block, as its constructor returns it. *)
Definition one_block_axes : list axis_arg := [ Iterable [label "a"] ].

Definition one_block : Ensemble :=
  {| ens_id := 0; blocks := [["a"]]; degeneracy := [(["a"], 1%Z)] |}.

(** Tridiagonal data for that block: three diagonal entries with three
    off-diagonal entries, and a block of length zero. *)
Definition tridiag_data_3 : odict (OrderedDict.t string (ndarray Z)) :=
  [ (["a"], [ ("diag", vector [1; 2; 3]%Z); ("offdiag", vector [5; 6; 7]%Z) ]) ].

Definition tridiag_data_0 : odict (OrderedDict.t string (ndarray Z)) :=
  [ (["a"], [ ("diag", vector []); ("offdiag", vector []) ]) ].

(** A diagonal matrix as tridiagonal data. *)
Definition tridiag_data_diagonal : odict (OrderedDict.t string (ndarray Z)) :=
  [ (["a"], [ ("diag", vector [3; 1; 2]%Z); ("offdiag", vector [0; 0]%Z) ]) ].

(** An ensemble of two blocks, as its constructor returns it. *)
Definition two_block_axes : list axis_arg := [ Iterable [label "a"; label "b"] ].

Definition two_blocks : Ensemble :=
  {| ens_id := 0;
     blocks := [["a"]; ["b"]];
     degeneracy := [(["a"], 1%Z); (["b"], 1%Z)] |}.

Section ExampleData.
Context {T : Type} `{Numeric T}.

(** [np.zeros(shape)] *)
Definition np_zeros (s : list nat) : ndarray T := MkArray s (fun _ => zero).

(** One block holding a vector of two elements. *)
Definition vector_data : odict (ndarray T) := [ (["a"], np_zeros [2]) ].

(** One block holding an empty matrix. *)
Definition empty_matrix_data : odict (ndarray T) := [ (["a"], np_zeros [0; 0]) ].

(** An empty matrix in one block and a matrix of two rows in the other. *)
Definition matrix_data : odict (ndarray T) :=
  [ (["a"], np_zeros [0; 0]); (["b"], np_zeros [2; 2]) ].

(** A scalar for one block that was not computed. *)
Definition none_data : odict (@scalar_value T) := [ (["a"], SvNone) ].

End ExampleData.

(** Vectors of integers over one block, and the same block of a second
    ensemble object. *)
Definition one_block_again : Ensemble :=
  {| ens_id := 1; blocks := [["a"]]; degeneracy := [(["a"], 1%Z)] |}.

Definition Z_vector_data : odict (ndarray Z) := [ (["a"], vector [1; 2; 3]%Z) ].

(** The array containers the constructor builds from them. *)
Definition Z_vectors : Array Z :=
  {| ensemble := one_block; array := Z_vector_data; ndim := 1 |}.

Definition Z_vectors_again : Array Z :=
  {| ensemble := one_block_again; array := Z_vector_data; ndim := 1 |}.

(** ** Further operations of the containers *)

(** The order of the element type, Python's [<] on the values. *)
Class Ordered (T : Type) : Type := {
  ltb : T -> T -> bool
}.

(** [numpy.einsum], called with the subscripts, the operands' arrays of one
    block and the [optimize] flag. *)
Class ExternalEinsum (T : Type) : Type := {
  np_einsum : string -> list (ndarray T) -> bool -> result (ndarray T)
}.

Section FurtherOperations.
Context {T : Type} `{Numeric T} `{External T} `{Ordered T} `{ExternalEinsum T}.

(** [np.transpose(arr)]: the axes reversed. *)
Definition np_transpose (a : ndarray T) : ndarray T :=
  MkArray (rev (shape a)) (fun idx => item a (rev idx)).

(** [Array.flatten], array.py lines 128-138. *)
Definition Array_flatten (self : Array T) : result (Array T) :=
  data <- for_each (store (fun ba : block * ndarray T => OK (flatten (snd ba))))
                   (OrderedDict.items (array self)) OrderedDict.empty ;;
  Array_init (ensemble self) (Arrays data) None.

(** [transpose], algebra.py lines 27-41. *)
Definition transpose (A : pyvalue T) : result (Array T) :=
  match A with
  | PyArray A =>
      data <- for_each (store (fun ba : block * ndarray T => OK (np_transpose (snd ba))))
                       (OrderedDict.items (array A)) OrderedDict.empty ;;
      Array_init (ensemble A) (Arrays data) None
  | _ => Raise (TypeError "input needs to be an ensemble.Array")
  end.

(** [isinstance(o, Array)] in the loop of [einsum], lines 157-159. *)
Definition check_Array (o : pyvalue T) : result (Array T) :=
  match o with
  | PyArray a => OK a
  | _ => Raise (TypeError "operands need to be ensemble.Array")
  end.

(** [len(set(ensembles))]: ensembles hash by identity. *)
Definition distinct_ensembles (ensembles : list Ensemble) : nat :=
  length (nodup Nat.eq_dec (map ens_id ensembles)).

(** [einsum], algebra.py lines 143-169. *)
Definition einsum (subscripts : string) (operands : list (pyvalue T)) (optimize : bool)
  : result (Array T) :=
  if length operands =? 0 then Raise (ValueError "need at least one operand")
  else
    arrays <- map_result check_Array operands ;;
    let ensembles := map ensemble arrays in
    if 1 <? distinct_ensembles ensembles
    then Raise (ValueError "operands do not share the same ensemble")
    else
      match ensembles with
      | [] => Raise (IndexError "list index out of range")
      | e0 :: _ =>
          data <- for_each (store (fun bd : block * Z =>
                                     arrs <- map_result (fun o : Array T =>
                                                           lookup (array o) (fst bd)) arrays ;;
                                     np_einsum subscripts arrs optimize))
                           (Ensemble_iter e0) OrderedDict.empty ;;
          Array_init e0 (Arrays data) None
      end.

(** [arr + v] for a value of a scalar container: a number and [None] do not
    add, a number and an array add element by element, and no container
    class defines [__radd__]. *)
Definition py_add (x : option T) (v : pyvalue T) : result (@scalar_value T) :=
  match x, v with
  | Some x, PyNum y => OK (SvNum (add x y))
  | Some x, PyNdarray a => OK (SvArray (MkArray (shape a) (fun idx => add x (item a idx))))
  | _, _ => Raise (TypeError "unsupported operand type(s) for +")
  end.

(** [Scalar.__add__], scalar.py lines 67-76. *)
Definition Scalar_add (self : Scalar T) (other : pyvalue T) : result (Scalar T) :=
  if np_isscalar other
  then data <- for_each (store (fun ba : block * option T => py_add (snd ba) other))
                        (OrderedDict.items (scalar self)) OrderedDict.empty ;;
       Scalar_init (sc_ensemble self) data None
  else data <- for_each (store (fun ba : block * option T =>
                                  v <- py_getitem other (fst ba) ;;
                                  py_add (snd ba) v))
                        (OrderedDict.items (scalar self)) OrderedDict.empty ;;
       Scalar_init (sc_ensemble self) data None.

(** [[s for s in self.scalar.values() if s is not None]] *)
Fixpoint not_None (l : list (option T)) : list T :=
  match l with
  | [] => []
  | Some x :: l' => x :: not_None l'
  | None :: l' => not_None l'
  end.

(** Python's [min] and [max] of a list: the first of the smallest, the first
    of the largest; an empty list raises. *)
Definition py_min (l : list T) : result T :=
  match l with
  | [] => Raise (ValueError "min() arg is an empty sequence")
  | x :: l' => OK (fold_left (fun m y => if ltb y m then y else m) l' x)
  end.

Definition py_max (l : list T) : result T :=
  match l with
  | [] => Raise (ValueError "max() arg is an empty sequence")
  | x :: l' => OK (fold_left (fun m y => if ltb m y then y else m) l' x)
  end.

(** [Scalar.min] and [Scalar.max], scalar.py lines 129-143;
    [EnsembleScalar.min] and [EnsembleScalar.max] are the same statements. *)
Definition Scalar_min (self : Scalar T) : result T :=
  py_min (not_None (OrderedDict.values (scalar self))).

Definition Scalar_max (self : Scalar T) : result T :=
  py_max (not_None (OrderedDict.values (scalar self))).

(** [EnsembleTriDiag.__iter__], ensemble_tridiag.py lines 64-67: the [zip]
    of the keys and values of [diag] with the values of [offdiag]. *)
Definition EnsembleTriDiag_iter (self : EnsembleTriDiag T)
  : list (block * ndarray T * ndarray T) :=
  combine (combine (OrderedDict.keys (diag self)) (OrderedDict.values (diag self)))
          (OrderedDict.values (offdiag self)).

(** Lines 137-144: the eigenvalues of one block. *)
Definition eigvals_block (self : EnsembleTriDiag T) (b : block) : result (ndarray T) :=
  d <- lookup (diag self) b ;;
  n <- np_len d ;;
  if n =? 0 then OK (np_empty 0)
  else if n =? 1 then OK d
  else od <- lookup (offdiag self) b ;;
       ev <- eigvalsh_tridiagonal d od SelectAll ;;
       OK (vector ev).

(** [EnsembleTriDiag.eigvals], lines 129-146. *)
Definition eigvals (self : EnsembleTriDiag T) : result (EnsembleArray T) :=
  data_evals <- for_each (store (fun bd : block * Z => eigvals_block self (fst bd)))
                         (Ensemble_iter (td_ensemble self)) OrderedDict.empty ;;
  EnsembleArray_init (td_ensemble self) (Arrays data_evals) None.

End FurtherOperations.

#[export] Instance Z_Ordered : Ordered Z := {| ltb := Z.ltb |}.

(** ** Further example inputs *)

(** An argument that cannot be iterated after a well-formed one, and an
    axis with a tuple of three components. *)
Definition not_iterable_axes : list axis_arg :=
  [ Iterable [label "a"]; NotIterable ].

Definition bad_tuple_axes : list axis_arg :=
  [ Iterable [label "a";
              Tuple [ {| py_str := Some "b"; py_int := None |};
                      {| py_str := None; py_int := Some 1%Z |};
                      {| py_str := None; py_int := Some 2%Z |} ]] ].

(** An axis that names the label "a" twice, with two degeneracies. *)
Definition repeated_axes : list axis_arg :=
  [ Iterable [label_deg "a" 1; label_deg "b" 5; label_deg "a" 2] ].

Definition repeated_formatted : list (list (string * Z)) :=
  [ [("a", 1%Z); ("b", 5%Z); ("a", 2%Z)] ].

(** An axis without labels beside an axis with one. *)
Definition empty_axes : list axis_arg := [ Iterable [label "a"]; Iterable [] ].

Definition empty_formatted : list (list (string * Z)) := [ [("a", 1%Z)]; [] ].

(** Integer data over two blocks: a vector and a matrix; a matrix and an
    empty vector; two numbers and a missing value. *)
Definition Z_mixed_data : odict (ndarray Z) :=
  [ (["a"], vector [1; 2]%Z); (["b"], MkArray [1; 2] (fun _ => 0%Z)) ].

Definition Z_ragged_data : odict (ndarray Z) :=
  [ (["a"], vector [1; 2; 3]%Z); (["b"], vector []) ].

Definition Z_matrix : ndarray Z :=
  MkArray [2; 3] (fun idx => match idx with
                             | [i; j] => Z.of_nat (3 * i + j)
                             | _ => 0%Z
                             end).

Definition Z_matrix_data : odict (ndarray Z) := [ (["a"], Z_matrix) ].

Definition Z_scalar_data : odict (@scalar_value Z) :=
  [ (["a"], SvNum 4%Z); (["b"], SvNum 1%Z) ].

Definition Z_scalar_data_None : odict (@scalar_value Z) :=
  [ (["a"], SvNum 4%Z); (["b"], SvNone) ].

(** The ensemble the constructor returns for the axes with an empty one,
    and data that holds an entry no ensemble of one block asks for. *)
Definition no_blocks : Ensemble :=
  {| ens_id := 0; blocks := []; degeneracy := [] |}.

Definition Z_vector_data_more : odict (ndarray Z) :=
  [ (["a"], vector [1; 2; 3]%Z); (["z"], vector [7]%Z) ].

(** [numpy.einsum] on integers for the inner product of two vectors. *)
Definition Z_einsum (subscripts : string) (arrs : list (ndarray Z)) (optimize : bool)
  : result (ndarray Z) :=
  match arrs with
  | [a; b] => if String.eqb subscripts "i,i->" then Z_dot a b
              else Raise (ValueError "subscripts not supported")
  | _ => Raise (ValueError "subscripts not supported")
  end.

#[export] Instance Z_ExternalEinsum : ExternalEinsum Z := {| np_einsum := Z_einsum |}.

Section ScalarEntries.
Context {T : Type} `{Numeric T}.

(** A value after the optional call of the dtype. *)
Definition cast_to (dtype : option (T -> T)) (x : T) : T :=
  match dtype with
  | None => x
  | Some cast => cast x
  end.

(** scalar.py lines 41-53: what [Scalar.__init__] stores for a value [dt]. *)
Definition scalar_entry (dtype : option (T -> T)) (dt : @scalar_value T)
  : result (option T) :=
  match dt with
  | SvNone => OK None
  | SvNum x => OK (Some (cast_to dtype x))
  | SvArray a => x <- np_item a ;; OK (Some (cast_to dtype x))
  end.

End ScalarEntries.

(** * Properties *)

(** ** Fallible loops and ordered dictionaries *)

Ltac inv H := inversion H; subst; clear H.

Lemma bind_OK_inv {A B : Type} (m : result A) (k : A -> result B) (b : B) :
  bind m k = OK b -> exists a, m = OK a /\ k a = OK b.
Proof.
  destruct m as [a | e]; simpl; intro Hk; [ exists a; auto | discriminate ].
Qed.

Lemma map_result_length {X Y : Type} (f : X -> result Y) (xs : list X) (ys : list Y) :
  map_result f xs = OK ys -> length ys = length xs.
Proof.
  revert ys; induction xs as [ | x xs IH ]; simpl; intros ys Hm.
  - inv Hm; reflexivity.
  - destruct (f x); simpl in Hm; [ | discriminate ].
    destruct (map_result f xs); simpl in Hm; [ | discriminate ].
    inv Hm; simpl; f_equal; apply IH; reflexivity.
Qed.

Lemma map_result_Forall2 {X Y : Type} (f : X -> result Y) (xs : list X) (ys : list Y) :
  map_result f xs = OK ys -> Forall2 (fun x y => f x = OK y) xs ys.
Proof.
  revert ys; induction xs as [ | x xs IH ]; simpl; intros ys Hm.
  - inv Hm; constructor.
  - destruct (f x) eqn:Ef; simpl in Hm; [ | discriminate ].
    destruct (map_result f xs); simpl in Hm; [ | discriminate ].
    inv Hm; constructor; auto.
Qed.

Module OrderedDictFacts.
Import OrderedDict.

Section WithKey.
Context {K : Type} `{EqDec K} {V : Type}.
Implicit Types (d : OrderedDict.t K V) (k : K) (v : V).

Lemma get_set_same k v d : get k (set k v d) = Some v.
Proof.
  induction d as [ | [k' v'] d IH ]; simpl.
  - destruct (eq_dec k k); congruence.
  - destruct (eq_dec k k') as [-> | Hne]; simpl.
    + destruct (eq_dec k' k'); congruence.
    + destruct (eq_dec k k'); congruence.
Qed.

Lemma get_set_other k k' v d : k <> k' -> get k (set k' v d) = get k d.
Proof.
  intro Hne; induction d as [ | [k0 v0] d IH ]; simpl.
  - destruct (eq_dec k k'); congruence.
  - destruct (eq_dec k' k0) as [-> | Hne']; simpl.
    + destruct (eq_dec k k0); congruence.
    + destruct (eq_dec k k0); congruence.
Qed.

Lemma get_None_keys k d : get k d = None <-> ~ In k (keys d).
Proof.
  induction d as [ | [k0 v0] d IH ]; simpl.
  - tauto.
  - destruct (eq_dec k k0) as [-> | Hne].
    + split; [ discriminate | intro Hn; exfalso; apply Hn; auto ].
    + rewrite IH; split; intro Hn; [ intros [Heq | Hin]; congruence | tauto ].
Qed.

Lemma keys_set k v d : keys (set k v d) = add_key (keys d) k.
Proof.
  unfold add_key; induction d as [ | [k0 v0] d IH ]; simpl.
  - reflexivity.
  - destruct (eq_dec k k0) as [Heq | Hne]; simpl.
    + subst k0; destruct (eq_dec k k); [ | congruence ].
      destruct (in_dec eq_dec k (keys d)); reflexivity.
    + destruct (eq_dec k0 k) as [Heq | Hne']; [ congruence | ].
      rewrite IH; destruct (in_dec eq_dec k (keys d)); reflexivity.
Qed.

Lemma add_key_In acc k k' : In k' (add_key acc k) <-> In k' acc \/ k' = k.
Proof.
  unfold add_key; destruct (in_dec eq_dec k acc) as [Hin | Hn].
  - split; [ auto | intros [Ha | ->]; auto ].
  - rewrite in_app_iff; simpl; intuition (subst; auto).
Qed.

Lemma add_key_NoDup acc k : NoDup acc -> NoDup (add_key acc k).
Proof.
  intro Hnd; unfold add_key; destruct (in_dec eq_dec k acc) as [Hin | Hn]; auto.
  apply NoDup_app; [ auto | constructor; [ simpl; tauto | constructor ] | ].
  intros x Hx [<- | []]; contradiction.
Qed.

Lemma fold_add_key_In l acc k :
  In k (fold_left add_key l acc) <-> In k acc \/ In k l.
Proof.
  revert acc; induction l as [ | x l IH ]; simpl; intro acc.
  - tauto.
  - rewrite IH, add_key_In; intuition.
Qed.

Lemma fold_add_key_NoDup l acc : NoDup acc -> NoDup (fold_left add_key l acc).
Proof.
  revert acc; induction l as [ | x l IH ]; simpl; intros acc Hnd; auto.
  apply IH, add_key_NoDup, Hnd.
Qed.

Lemma fold_add_key_fresh l acc :
  NoDup (acc ++ l) -> fold_left add_key l acc = acc ++ l.
Proof.
  revert acc; induction l as [ | x l IH ]; simpl; intros acc Hnd.
  - symmetry; apply app_nil_r.
  - assert (Hx : ~ In x acc).
    { intro Hin. apply NoDup_remove_2 in Hnd. apply Hnd, in_or_app; auto. }
    unfold add_key at 2; destruct (in_dec eq_dec x acc); [ contradiction | ].
    rewrite IH; rewrite <- app_assoc; simpl; auto.
Qed.

End WithKey.

End OrderedDictFacts.

Import OrderedDictFacts.

Section StoreLoop.
Context {X V : Type}.
Variable f : block * X -> result V.

Lemma store_loop_keys (items : list (block * X)) (acc d : odict V) :
  for_each (store f) items acc = OK d ->
  OrderedDict.keys d = fold_left OrderedDict.add_key (map fst items) (OrderedDict.keys acc).
Proof.
  revert acc; induction items as [ | kx items IH ]; simpl; intros acc Hd.
  - inv Hd; reflexivity.
  - unfold store at 1 in Hd. destruct (f kx) as [v | e]; simpl in Hd; [ | discriminate ].
    rewrite (IH _ Hd), keys_set; reflexivity.
Qed.

Lemma store_loop_get_other (items : list (block * X)) (acc d : odict V) (k : block) :
  for_each (store f) items acc = OK d ->
  ~ In k (map fst items) ->
  OrderedDict.get k d = OrderedDict.get k acc.
Proof.
  revert acc; induction items as [ | kx items IH ]; simpl; intros acc Hd Hn.
  - inv Hd; reflexivity.
  - unfold store at 1 in Hd. destruct (f kx) as [v | e]; simpl in Hd; [ | discriminate ].
    rewrite (IH _ Hd); [ | tauto ].
    apply get_set_other; intro Heq; apply Hn; auto.
Qed.

Lemma store_loop_get (items : list (block * X)) (acc d : odict V) :
  for_each (store f) items acc = OK d ->
  (forall k x x', In (k, x) items -> In (k, x') items -> f (k, x) = f (k, x')) ->
  forall k x, In (k, x) items ->
    exists v, f (k, x) = OK v /\ OrderedDict.get k d = Some v.
Proof.
  revert acc; induction items as [ | [k0 x0] items IH ]; simpl; intros acc Hd Hfun k x Hin.
  - contradiction.
  - unfold store at 1 in Hd. destruct (f (k0, x0)) as [v0 | e] eqn:E0; simpl in Hd;
      [ | discriminate ].
    assert (Hrest : forall x', In (k, x') items ->
              exists v, f (k, x') = OK v /\ OrderedDict.get k d = Some v).
    { intros x' Hin'; apply (IH _ Hd); auto. }
    destruct Hin as [Heq | Hin]; [ | auto ].
    inv Heq.
    destruct (in_dec eq_dec k (map fst items)) as [Hk | Hk].
    + apply in_map_iff in Hk; destruct Hk as [[k' x'] [Hfst Hin']]; simpl in Hfst; subst k'.
      destruct (Hrest x' Hin') as [v [Hv Hg]].
      exists v; split; auto.
      rewrite <- Hv; apply Hfun; auto.
    + exists v0; split; auto.
      rewrite (store_loop_get_other _ _ _ _ Hd Hk); apply get_set_same.
Qed.

Lemma store_loop_total (items : list (block * X)) (acc : odict V) :
  (forall kx, In kx items -> exists v, f kx = OK v) ->
  exists d, for_each (store f) items acc = OK d.
Proof.
  revert acc; induction items as [ | kx items IH ]; simpl; intros acc Hall.
  - eauto.
  - destruct (Hall kx) as [v Hv]; auto.
    unfold store at 1; rewrite Hv; simpl; apply IH; auto.
Qed.

Lemma store_loop_raise (items : list (block * X)) (acc : odict V) (P : exn -> Prop) :
  (forall kx, In kx items -> (exists v, f kx = OK v) \/ (exists e, f kx = Raise e /\ P e)) ->
  (exists kx, In kx items /\ exists e, f kx = Raise e) ->
  exists e, for_each (store f) items acc = Raise e /\ P e.
Proof.
  revert acc; induction items as [ | kx0 items IH ]; simpl; intros acc Hall [kx [Hin [e He]]].
  - contradiction.
  - unfold store at 1.
    destruct (Hall kx0 (or_introl eq_refl)) as [[v Hv] | [e0 [He0 HP]]].
    + rewrite Hv; simpl. apply IH; auto.
      destruct Hin as [<- | Hin]; [ congruence | eauto ].
    + rewrite He0; simpl; eauto.
Qed.

End StoreLoop.

(** ** The Cartesian product *)

Section Product.
Context {A : Type}.

Lemma product_length (ls : list (list A)) :
  length (product ls) = fold_right Nat.mul 1 (map (@length A) ls).
Proof.
  induction ls as [ | l ls IH ]; simpl; [ reflexivity | ].
  rewrite (flat_map_constant_length (c := length (product ls))).
  - rewrite IH; reflexivity.
  - intros x _; apply length_map.
Qed.

Lemma in_product (x : list A) (ls : list (list A)) :
  In x (product ls) <-> Forall2 (fun a l => In a l) x ls.
Proof.
  revert x; induction ls as [ | l ls IH ]; simpl; intro x.
  - split.
    + intros [<- | []]; constructor.
    + intro HF; inversion HF; auto.
  - rewrite in_flat_map; split.
    + intros [a [Ha Hx]]. apply in_map_iff in Hx; destruct Hx as [t [<- Ht]].
      constructor; [ exact Ha | apply IH, Ht ].
    + intro HF; inversion HF as [ | a l0 t ls0 Ha Ht ]; subst.
      exists a; split; [ exact Ha | apply in_map, IH, Ht ].
Qed.

Lemma product_map {B : Type} (f : A -> B) (ls : list (list A)) :
  map (map f) (product ls) = product (map (map f) ls).
Proof.
  induction ls as [ | l ls IH ]; simpl; [ reflexivity | ].
  rewrite <- IH; clear IH.
  induction l as [ | a l IHl ]; simpl; [ reflexivity | ].
  rewrite map_app, IHl; f_equal.
  rewrite !map_map; reflexivity.
Qed.

Lemma product_NoDup (ls : list (list A)) :
  Forall (@NoDup A) ls -> NoDup (product ls).
Proof.
  induction ls as [ | l ls IH ]; simpl; intro HF.
  - constructor; [ simpl; tauto | constructor ].
  - inversion HF as [ | l0 ls0 Hl Hls ]; subst.
    specialize (IH Hls).
    induction l as [ | a l IHl ]; simpl; [ constructor | ].
    inversion Hl as [ | a0 l0 Ha Hl' ]; subst.
    apply NoDup_app.
    + apply Finite.Injective_map_NoDup_in; [ | exact IH ].
      intros x y _ _ Heq; congruence.
    + apply IHl; [ constructor; assumption | assumption ].
    + intros x Hx Hx'.
      apply in_map_iff in Hx; destruct Hx as [t [<- _]].
      apply in_flat_map in Hx'; destruct Hx' as [b [Hb Hx']].
      apply in_map_iff in Hx'; destruct Hx' as [t' [Heq _]].
      inversion Heq; subst; contradiction.
Qed.

End Product.

Lemma product_functional {A B : Type} (ls : list (list (A * B))) (x y : list (A * B)) :
  Forall (fun l => NoDup (map fst l)) ls ->
  In x (product ls) -> In y (product ls) -> map fst x = map fst y -> x = y.
Proof.
  intros HF Hx Hy.
  apply in_product in Hx; apply in_product in Hy.
  revert y Hy; induction Hx as [ | a l x ls Ha Hx IH ]; intros y Hy Heq.
  - inversion Hy; reflexivity.
  - inversion Hy as [ | b l0 y' ls0 Hb Hy' ]; subst.
    inversion HF as [ | l0 ls0 Hl Hls ]; subst.
    simpl in Heq; inversion Heq as [[Hab Hrest]].
    f_equal; [ | apply IH; auto ].
    destruct a as [a1 a2], b as [b1 b2]; simpl in Hab; subst b1.
    f_equal.
    clear - Ha Hb Hl.
    induction l as [ | [c1 c2] l IHl ]; simpl in *; [ contradiction | ].
    inversion Hl as [ | c0 l0 Hc Hl' ]; subst.
    destruct Ha as [Ha | Ha], Hb as [Hb | Hb].
    + congruence.
    + inversion Ha; subst; exfalso; apply Hc.
      change a1 with (fst (a1, b2)); apply in_map, Hb.
    + inversion Hb; subst; exfalso; apply Hc.
      change a1 with (fst (a1, a2)); apply in_map, Ha.
    + auto.
Qed.

Lemma StronglySorted_app {A : Type} (R : A -> A -> Prop) (l1 l2 : list A) :
  StronglySorted R l1 -> StronglySorted R l2 ->
  (forall x y, In x l1 -> In y l2 -> R x y) ->
  StronglySorted R (l1 ++ l2).
Proof.
  induction l1 as [ | a l1 IH ]; simpl; intros H1 H2 Hx; [ exact H2 | ].
  inversion H1 as [ | a0 l0 Hs Hall ]; subst.
  constructor.
  - apply IH; auto.
  - apply Forall_app; split; [ exact Hall | ].
    apply Forall_forall; intros y Hy; apply Hx; auto.
Qed.

Lemma StronglySorted_map {A B : Type} (R : A -> A -> Prop) (S : B -> B -> Prop)
  (f : A -> B) (l : list A) :
  (forall x y, R x y -> S (f x) (f y)) ->
  StronglySorted R l -> StronglySorted S (map f l).
Proof.
  intros Hf Hs; induction Hs as [ | a l Hs IH Hall ]; simpl; constructor; auto.
  apply Forall_map. eapply Forall_impl; [ | exact Hall ]. intros y Hy; apply Hf, Hy.
Qed.

Lemma StronglySorted_NoDup {A : Type} (R : A -> A -> Prop) (l : list A) :
  (forall x, ~ R x x) -> StronglySorted R l -> NoDup l.
Proof.
  intros Hirr Hs; induction Hs as [ | a l Hs IH Hall ]; constructor; auto.
  intro Hin; rewrite Forall_forall in Hall; apply (Hirr a), Hall, Hin.
Qed.

(** ** The order on block keys and [sorted] *)

Lemma string_compare_refl (s : string) : String.compare s s = Eq.
Proof.
  pose proof (String.compare_antisym s s) as Ha.
  destruct (String.compare s s); simpl in Ha; congruence.
Qed.

Lemma block_compare_refl (a : block) : block_compare a a = Eq.
Proof.
  induction a as [ | x a IH ]; simpl; [ reflexivity | ].
  rewrite string_compare_refl; exact IH.
Qed.

Lemma block_compare_antisym (a b : block) :
  block_compare a b = CompOpp (block_compare b a).
Proof.
  revert b; induction a as [ | x a IH ]; intros [ | y b ]; simpl; try reflexivity.
  rewrite (String.compare_antisym x y).
  destruct (String.compare y x); simpl; auto.
Qed.

Lemma block_lt_irrefl (a : block) : ~ block_lt a a.
Proof.
  unfold block_lt, block_ltb; rewrite block_compare_refl; discriminate.
Qed.

Lemma block_lt_le (a b : block) : block_lt a b -> block_le a b.
Proof.
  unfold block_lt, block_le, block_ltb; rewrite (block_compare_antisym b a).
  destruct (block_compare a b); simpl; congruence.
Qed.

Lemma block_lt_cons (x : string) (a b : block) :
  block_lt a b -> block_lt (x :: a) (x :: b).
Proof.
  unfold block_lt, block_ltb; simpl; rewrite string_compare_refl; auto.
Qed.

Lemma block_lt_head (x y : string) (a b : block) :
  string_lt x y -> block_lt (x :: a) (y :: b).
Proof.
  unfold string_lt, block_lt, block_ltb; simpl; intros ->; reflexivity.
Qed.

Lemma insert_sorted_Sorted (x : block) (l : list block) :
  Sorted block_le l -> Sorted block_le (insert_sorted x l).
Proof.
  induction l as [ | h t IH ]; simpl; intro Hs.
  - repeat constructor.
  - inversion Hs as [ | h0 t0 Hst Hhd ]; subst.
    destruct (block_ltb h x) eqn:Ehx.
    + constructor; [ apply IH, Hst | ].
      destruct t as [ | h' t' ]; simpl.
      * constructor; apply block_lt_le, Ehx.
      * inversion Hhd; subst.
        destruct (block_ltb h' x); constructor; [ assumption | apply block_lt_le, Ehx ].
    + constructor; [ exact Hs | constructor; exact Ehx ].
Qed.

Lemma sorted_Sorted (l : list block) : Sorted block_le (sorted l).
Proof.
  induction l as [ | x l IH ]; simpl; [ constructor | apply insert_sorted_Sorted, IH ].
Qed.

Lemma insert_sorted_perm (x : block) (l : list block) :
  Permutation (insert_sorted x l) (x :: l).
Proof.
  induction l as [ | h t IH ]; simpl; [ reflexivity | ].
  destruct (block_ltb h x); [ | reflexivity ].
  rewrite IH; apply perm_swap.
Qed.

Lemma sorted_perm (l : list block) : Permutation (sorted l) l.
Proof.
  induction l as [ | x l IH ]; simpl; [ reflexivity | ].
  rewrite insert_sorted_perm; constructor; exact IH.
Qed.

Lemma sorted_fixed (l : list block) : StronglySorted block_lt l -> sorted l = l.
Proof.
  intro Hs; induction Hs as [ | a l Hs IH Hall ]; simpl; [ reflexivity | ].
  rewrite IH; destruct l as [ | h t ]; simpl; [ reflexivity | ].
  inversion Hall as [ | h0 t0 Hah _ ]; subst.
  apply block_lt_le in Hah; unfold block_le in Hah; rewrite Hah; reflexivity.
Qed.

Lemma product_sorted (ls : list (list string)) :
  Forall (StronglySorted string_lt) ls -> StronglySorted block_lt (product ls).
Proof.
  induction ls as [ | l ls IH ]; simpl; intro HF.
  - repeat constructor.
  - inversion HF as [ | l0 ls0 Hl Hls ]; subst.
    specialize (IH Hls).
    induction Hl as [ | a l Hl IHl Hall ]; simpl; [ constructor | ].
    apply StronglySorted_app.
    + apply StronglySorted_map with (R := block_lt); [ | exact IH ].
      intros; apply block_lt_cons; assumption.
    + apply IHl; constructor; [ | assumption ].
      inversion HF as [ | l0 ls0 Hal _ ]; subst.
      inversion Hal; assumption.
    + intros x y Hx Hy.
      apply in_map_iff in Hx; destruct Hx as [t [<- _]].
      apply in_flat_map in Hy; destruct Hy as [b [Hb Hy]].
      apply in_map_iff in Hy; destruct Hy as [t' [<- _]].
      rewrite Forall_forall in Hall.
      apply block_lt_head, Hall, Hb.
Qed.

(** ** The [Ensemble] constructor *)

Lemma add_block_fold_fst (prods : list (list (string * Z))) (st : list block * odict Z) :
  fst (fold_left (fun st bd => add_block bd st) prods st)
  = fst st ++ map (map fst) prods.
Proof.
  revert st; induction prods as [ | bd prods IH ]; simpl; intro st.
  - symmetry; apply app_nil_r.
  - rewrite IH; simpl; rewrite <- app_assoc; reflexivity.
Qed.

Lemma add_block_fold_snd (prods : list (list (string * Z))) (st : list block * odict Z) :
  for_each (store (fun kx : block * Z => OK (snd kx))) (map block_entry prods) (snd st)
  = OK (snd (fold_left (fun st bd => add_block bd st) prods st)).
Proof.
  revert st; induction prods as [ | bd prods IH ]; simpl; intro st; [ reflexivity | ].
  unfold store at 1; simpl. rewrite <- IH; reflexivity.
Qed.

Lemma Ensemble_init_formatted (self : nat) (args : list axis_arg) (dd : Z)
  (fmt : list (list (string * Z))) :
  map_result (format_arg dd) args = OK fmt ->
  Ensemble_init self args dd
  = OK {| ens_id := self;
          blocks := sorted (map (map fst) (product fmt));
          degeneracy := snd (fold_left (fun st bd => add_block bd st) (product fmt)
                               ([], OrderedDict.empty)) |}.
Proof.
  intro Hf; unfold Ensemble_init; rewrite Hf; simpl.
  rewrite add_block_fold_fst; reflexivity.
Qed.

Lemma degeneracy_keys (prods : list (list (string * Z))) :
  OrderedDict.keys (snd (fold_left (fun st bd => add_block bd st) prods
                           ([], OrderedDict.empty)))
  = first_occurrences (map (map fst) prods).
Proof.
  pose proof (add_block_fold_snd prods ([], OrderedDict.empty)) as Hs.
  apply store_loop_keys in Hs; rewrite Hs.
  unfold first_occurrences; rewrite map_map; reflexivity.
Qed.

Lemma first_occurrences_NoDup (l : list block) : NoDup (first_occurrences l).
Proof.
  apply fold_add_key_NoDup; constructor.
Qed.

Lemma first_occurrences_fresh (l : list block) : NoDup l -> first_occurrences l = l.
Proof.
  intro Hnd; unfold first_occurrences; rewrite fold_add_key_fresh; auto.
Qed.

Lemma degeneracy_get (prods : list (list (string * Z))) (bd : list (string * Z)) :
  (forall x y, In x prods -> In y prods -> map fst x = map fst y -> x = y) ->
  In bd prods ->
  OrderedDict.get (map fst bd)
    (snd (fold_left (fun st bd => add_block bd st) prods ([], OrderedDict.empty)))
  = Some (fold_left Z.mul (map snd bd) 1%Z).
Proof.
  intros Hfun Hin.
  pose proof (add_block_fold_snd prods ([], OrderedDict.empty)) as Hs.
  destruct (store_loop_get _ _ _ _ Hs) with (k := map fst bd)
    (x := fold_left Z.mul (map snd bd) 1%Z) as [v [Hv Hg]].
  - intros k x x' Hx Hx'.
    apply in_map_iff in Hx; destruct Hx as [b [Hb Hbin]].
    apply in_map_iff in Hx'; destruct Hx' as [b' [Hb' Hbin']].
    unfold block_entry in Hb, Hb'; inversion Hb; inversion Hb'; subst.
    rewrite (Hfun b b'); auto.
  - apply in_map_iff; exists bd; split; [ reflexivity | exact Hin ].
  - simpl in Hv; inversion Hv; subst; exact Hg.
Qed.

Lemma format_arg_size (dd : Z) (arg : axis_arg) (ax : list (string * Z)) :
  format_arg dd arg = OK ax -> length ax = axis_size arg.
Proof.
  destruct arg as [ | elems ]; simpl; intro Hf; [ discriminate | ].
  apply map_result_length in Hf; exact Hf.
Qed.

Lemma format_args_sizes (dd : Z) (args : list axis_arg) (fmt : list (list (string * Z))) :
  map_result (format_arg dd) args = OK fmt ->
  map (@length (string * Z)) fmt = map axis_size args.
Proof.
  intro Hf; apply map_result_Forall2 in Hf.
  induction Hf as [ | arg ax args fmt Ha Hf IH ]; simpl; [ reflexivity | ].
  rewrite IH, (format_arg_size _ _ _ Ha); reflexivity.
Qed.

Lemma format_element_bare (dd : Z) (o : pyobj) (p : string * Z) :
  format_element dd (Bare o) = OK p -> py_str o = Some (fst p) /\ snd p = dd.
Proof.
  simpl; destruct (py_str o) eqn:E0; intro Hf; inversion Hf; subst; auto.
Qed.

(** ** The partition: enumeration, order and equality *)

(** C3.  For an axis specification the constructor accepts, with formatted
    axes [fmt] whose labels are pairwise distinct within each axis, the
    constructor returns an ensemble that enumerates exactly the product of
    the axis sizes as block keys, all distinct; the keys are the Cartesian
    product of the per-axis labels (the sorted [blocks] list is a permutation
    of it); the degeneracy of each block is the product of the degeneracies
    of its components; and a bare label carries [default_degeneracy]. *)
Theorem Ensemble_enumerates_product (self : nat) (args : list axis_arg) (dd : Z)
  (fmt : list (list (string * Z))) :
  map_result (format_arg dd) args = OK fmt ->
  Forall (fun ax => NoDup (map fst ax)) fmt ->
  exists e,
    Ensemble_init self args dd = OK e /\
    length (Ensemble_iter e) = fold_right Nat.mul 1 (map axis_size args) /\
    NoDup (map fst (Ensemble_iter e)) /\
    map fst (Ensemble_iter e) = product (map (map fst) fmt) /\
    Permutation (blocks e) (product (map (map fst) fmt)) /\
    (forall bd, In bd (product fmt) ->
       OrderedDict.get (map fst bd) (degeneracy e)
       = Some (fold_left Z.mul (map snd bd) 1%Z)) /\
    Forall2 (fun arg ax =>
               exists elems, arg = Iterable elems /\
                 Forall2 (fun el p => format_element dd el = OK p /\
                                      forall o, el = Bare o -> snd p = dd) elems ax)
            args fmt.
Proof.
  intros Hf Hnd.
  eexists; split; [ apply Ensemble_init_formatted, Hf | ].
  unfold Ensemble_iter, OrderedDict.items; simpl.
  set (D := snd (fold_left (fun st bd => add_block bd st) (product fmt)
                   ([], OrderedDict.empty))).
  assert (Hkeys : map fst D = product (map (map fst) fmt)).
  { change (map fst D) with (OrderedDict.keys D). unfold D.
    rewrite degeneracy_keys, product_map.
    apply first_occurrences_fresh, product_NoDup.
    apply Forall_map; exact Hnd. }
  repeat split.
  - rewrite <- (length_map fst D), Hkeys.
    rewrite (@product_length string (map (map fst) fmt)), map_map.
    rewrite <- (format_args_sizes _ _ _ Hf).
    f_equal; apply map_ext; intro ax; apply length_map.
  - rewrite Hkeys; apply product_NoDup, Forall_map; exact Hnd.
  - exact Hkeys.
  - rewrite product_map; apply sorted_perm.
  - intros bd Hbd; apply degeneracy_get; [ | exact Hbd ].
    intros x y; apply product_functional; exact Hnd.
  - apply map_result_Forall2 in Hf.
    eapply Forall2_impl; [ | exact Hf ].
    intros [ | elems ] ax Ha; simpl in Ha; [ discriminate | ].
    exists elems; split; [ reflexivity | ].
    apply map_result_Forall2 in Ha.
    eapply Forall2_impl; [ | exact Ha ].
    intros el p Hel; split; [ exact Hel | ].
    intros o ->; apply format_element_bare in Hel; tauto.
Qed.

(** C2, as the code has it.  Iterating an ensemble yields its pairs in the
    order of insertion, which is the order of the Cartesian product of the
    labels as they were supplied, each key at its first occurrence.  The
    [blocks] attribute is sorted whatever the order of the labels, and the
    iteration follows that sorted order when every axis lists its labels in
    strictly ascending order. *)
Theorem Ensemble_iter_insertion_order (self : nat) (args : list axis_arg) (dd : Z)
  (fmt : list (list (string * Z))) :
  map_result (format_arg dd) args = OK fmt ->
  exists e,
    Ensemble_init self args dd = OK e /\
    map fst (Ensemble_iter e) = first_occurrences (product (map (map fst) fmt)) /\
    Sorted block_le (blocks e) /\
    (Forall (fun ax => StronglySorted string_lt (map fst ax)) fmt ->
     map fst (Ensemble_iter e) = blocks e /\
     StronglySorted block_lt (map fst (Ensemble_iter e))).
Proof.
  intro Hf.
  eexists; split; [ apply Ensemble_init_formatted, Hf | ].
  unfold Ensemble_iter, OrderedDict.items; simpl.
  set (D := snd (fold_left (fun st bd => add_block bd st) (product fmt)
                   ([], OrderedDict.empty))).
  assert (Hkeys : map fst D = first_occurrences (product (map (map fst) fmt))).
  { change (map fst D) with (OrderedDict.keys D). unfold D.
    rewrite degeneracy_keys, product_map; reflexivity. }
  split; [ exact Hkeys | ].
  split; [ apply sorted_Sorted | ].
  intro Hs.
  assert (Hp : StronglySorted block_lt (product (map (map fst) fmt))).
  { apply product_sorted, Forall_map; exact Hs. }
  rewrite Hkeys, product_map.
  rewrite first_occurrences_fresh
    by (eapply StronglySorted_NoDup; [ apply block_lt_irrefl | exact Hp ]).
  rewrite (sorted_fixed _ Hp); auto.
Qed.

Lemma Ensemble_new_id (next : nat) (args : list axis_arg) (dd : Z) (e : Ensemble) (n : nat) :
  Ensemble_new next args dd = OK (e, n) -> ens_id e = next /\ n = S next.
Proof.
  unfold Ensemble_new, Ensemble_init; intro Hn.
  destruct (map_result (format_arg dd) args); simpl in Hn; inversion Hn; subst; auto.
Qed.

(** The keys an ensemble iterates over are distinct. *)
Lemma Ensemble_iter_NoDup (self : nat) (args : list axis_arg) (dd : Z) (e : Ensemble) :
  Ensemble_init self args dd = OK e -> NoDup (map fst (Ensemble_iter e)).
Proof.
  unfold Ensemble_init; intro Hi.
  apply bind_OK_inv in Hi; destruct Hi as [fmt [_ Hi]].
  inversion Hi; subst e; clear Hi.
  unfold Ensemble_iter, OrderedDict.items; simpl.
  match goal with
  | |- NoDup (map fst ?D) => change (map fst D) with (OrderedDict.keys D)
  end.
  rewrite degeneracy_keys; apply first_occurrences_NoDup.
Qed.

(** C1, as the code has it.  Equality of ensembles is the identity of the
    objects: an ensemble is equal to itself, and an ensemble constructed
    later is a different object that compares unequal, whatever the axes it
    was built from.  That comparison is the one [dot] makes: on arrays over
    two such ensembles it raises before it reads any block. *)
Theorem Ensemble_eq_is_identity (next m : nat) (args args' : list axis_arg) (dd dd' : Z)
  (e1 e2 : Ensemble) (n1 n2 : nat) :
  Ensemble_new next args dd = OK (e1, n1) ->
  n1 <= m ->
  Ensemble_new m args' dd' = OK (e2, n2) ->
  Ensemble_eq e1 e1 = true /\
  Ensemble_eq e1 e2 = false /\
  Ensemble_ne e1 e2 = true /\
  forall (T : Type) (N : Numeric T) (E : External T) (a b : Array T),
    ensemble a = e1 -> ensemble b = e2 ->
    dot (PyArray a) (PyArray b)
    = ([], Raise (ValueError "a and b do not share the same ensemble")).
Proof.
  intros H1 Hle H2.
  apply Ensemble_new_id in H1; apply Ensemble_new_id in H2.
  destruct H1 as [Hid1 ->], H2 as [Hid2 ->].
  assert (Hne : Ensemble_eq e1 e2 = false).
  { unfold Ensemble_eq; rewrite Hid1, Hid2; apply Nat.eqb_neq; lia. }
  repeat split.
  - unfold Ensemble_eq; apply Nat.eqb_refl.
  - exact Hne.
  - unfold Ensemble_ne; rewrite Hne; reflexivity.
  - intros T N E a b Ha Hb; unfold dot, Ensemble_ne; rewrite Ha, Hb, Hne; reflexivity.
Qed.

Lemma Ensemble_eq_is_identity_witness :
  exists e1 e2,
    Ensemble_new 0 example_axes 1 = OK (e1, 1) /\
    Ensemble_new 1 example_axes 1 = OK (e2, 2) /\
    Ensemble_eq e1 e1 = true /\ Ensemble_eq e1 e2 = false.
Proof.
  eexists; eexists.
  split; [ reflexivity | split; [ reflexivity | ] ].
  pose proof (Ensemble_eq_is_identity 0 1 example_axes example_axes 1 1 _ _ 1 2
                eq_refl (le_n 1) eq_refl) as Hid.
  split; [ apply Hid | apply Hid ].
Defined.

(** C1 fails as stated: two ensembles constructed one after the other from
    the same axes have the same ordered mapping from block keys to
    degeneracies and the same block list, and compare unequal. *)
Lemma Ensemble_eq_not_by_value :
  exists e1 e2,
    Ensemble_new 0 example_axes 1 = OK (e1, 1) /\
    Ensemble_new 1 example_axes 1 = OK (e2, 2) /\
    Ensemble_iter e1 = Ensemble_iter e2 /\
    blocks e1 = blocks e2 /\
    Ensemble_eq e1 e2 = false /\
    ~ (Ensemble_eq e1 e2 = true <-> Ensemble_iter e1 = Ensemble_iter e2).
Proof.
  eexists; eexists.
  split; [ reflexivity | split; [ reflexivity | ] ].
  split; [ reflexivity | split; [ reflexivity | split; [ reflexivity | ] ] ].
  intros [_ Hv]; specialize (Hv eq_refl); discriminate Hv.
Qed.

Lemma Ensemble_iter_insertion_order_witness :
  exists e,
    Ensemble_init 0 example_axes 1 = OK e /\
    map fst (Ensemble_iter e) = [["a"; "x"]; ["a"; "y"]; ["b"; "x"]; ["b"; "y"]] /\
    map fst (Ensemble_iter e) = blocks e.
Proof.
  destruct (Ensemble_iter_insertion_order 0 example_axes 1 example_formatted eq_refl)
    as [e [He [Hk [_ Hs]]]].
  exists e; split; [ exact He | split; [ exact Hk | ] ].
  apply Hs.
  repeat constructor.
Defined.

(** C2 fails as stated: with the labels of an axis supplied as "b", "a" the
    iteration yields the key of "b" before the key of "a", which is not the
    sorted order; only the [blocks] list is sorted. *)
Lemma Ensemble_iter_not_sorted :
  exists e,
    Ensemble_init 0 unsorted_axes 1 = OK e /\
    Ensemble_iter e = [(["b"], 1%Z); (["a"], 1%Z)] /\
    blocks e = [["a"]; ["b"]] /\
    sorted (map fst (Ensemble_iter e)) <> map fst (Ensemble_iter e) /\
    ~ Sorted block_le (map fst (Ensemble_iter e)).
Proof.
  eexists; split; [ reflexivity | ].
  split; [ reflexivity | split; [ reflexivity | split ] ].
  - discriminate.
  - intro Hs; simpl in Hs.
    inversion Hs as [ | a l _ Hhd ]; subst.
    inversion Hhd as [ | b l Hle ]; subst.
    discriminate Hle.
Qed.

Lemma Ensemble_enumerates_product_witness :
  exists e,
    Ensemble_init 0 example_axes 1 = OK e /\
    length (Ensemble_iter e) = 4 /\
    OrderedDict.get ["b"; "y"] (degeneracy e) = Some 2%Z.
Proof.
  destruct (Ensemble_enumerates_product 0 example_axes 1 example_formatted eq_refl)
    as [e [He [Hlen [_ [_ [_ [Hdeg _]]]]]]].
  - repeat constructor; simpl; intuition discriminate.
  - exists e; split; [ exact He | split; [ exact Hlen | ] ].
    apply (Hdeg [("b", 2%Z); ("y", 1%Z)]).
    simpl; auto.
Defined.

(** ** Arrays and the array containers *)

Lemma for_each_ext {X S : Type} (body body' : X -> S -> result S) (xs : list X) (acc : S) :
  (forall x a, body x a = body' x a) ->
  for_each body xs acc = for_each body' xs acc.
Proof.
  intro Hb; revert acc; induction xs as [ | x xs IH ]; simpl; intro acc; [ reflexivity | ].
  rewrite Hb; destruct (body' x acc); simpl; auto.
Qed.

Lemma np_unique_single (l : list nat) (n : nat) :
  np_unique l = [n] -> forall x, In x l -> x = n.
Proof.
  unfold np_unique; intros Hu x Hx.
  apply (nodup_In Nat.eq_dec) in Hx; rewrite Hu in Hx.
  destruct Hx as [<- | []]; reflexivity.
Qed.

Lemma np_unique_const (l : list nat) (n : nat) :
  l <> [] -> (forall x, In x l -> x = n) -> np_unique l = [n].
Proof.
  unfold np_unique; induction l as [ | a l IH ]; intros Hne Hall; [ congruence | ].
  simpl. destruct (in_dec Nat.eq_dec a l) as [Hin | Hn].
  - apply IH; [ intro Hl; subst; contradiction | intros x Hx; apply Hall; simpl; auto ].
  - destruct l as [ | b l ].
    + simpl; f_equal; apply Hall; simpl; auto.
    + exfalso; apply Hn.
      rewrite (Hall a), <- (Hall b); simpl; auto.
Qed.

Lemma values_of_get {V : Type} (d : odict V) (v : V) :
  In v (OrderedDict.values d) ->
  NoDup (OrderedDict.keys d) ->
  exists k, In k (OrderedDict.keys d) /\ OrderedDict.get k d = Some v.
Proof.
  induction d as [ | [k0 v0] d IH ]; simpl; intros Hin Hnd; [ contradiction | ].
  inversion Hnd as [ | k l Hk Hnd' ]; subst.
  destruct Hin as [<- | Hin].
  - exists k0; split; [ auto | ].
    destruct (eq_dec k0 k0); congruence.
  - destruct (IH Hin Hnd') as [k [Hkin Hg]].
    exists k; split; [ auto | ].
    destruct (eq_dec k k0) as [-> | _]; [ contradiction | exact Hg ].
Qed.

Section ArrayFacts.
Context {T : Type} `{Numeric T}.

Lemma shape_flatten (x : ndarray T) : shape (flatten x) = [flat_len x].
Proof. reflexivity. Qed.

Lemma np_ndim_np_array (dtype : option (T -> T)) (x : ndarray T) :
  np_ndim (np_array dtype x) = np_ndim x.
Proof. destruct dtype; reflexivity. Qed.

Lemma first_element (a : ndarray T) (n : nat) :
  shape a = [S n] ->
  exists r, np_getitem a (Single (BInt 0)) = OK r /\ item r [] = item a [0].
Proof.
  intro Hs; unfold np_getitem; simpl; rewrite Hs; simpl.
  unfold in_bounds, wrap_index; simpl.
  eexists; split; [ reflexivity | ]; reflexivity.
Qed.

Lemma Array_init_loop (ens : Ensemble) (src : block_data T) (dtype : option (T -> T)) :
  Array_init ens src dtype
  = (arr <- for_each (store (fun bd : block * Z =>
                               x <- read_source src (fst bd) ;;
                               OK (np_array dtype x)))
              (Ensemble_iter ens) OrderedDict.empty ;;
     match np_unique (map np_ndim (OrderedDict.values arr)) with
     | [n] => OK {| ensemble := ens; array := arr; ndim := n |}
     | _ => Raise (ValueError "not all arrays have same number of dimensions")
     end).
Proof.
  unfold Array_init; destruct src as [data | data tag]; [ reflexivity | ].
  f_equal; apply for_each_ext; intros bd acc; unfold store; simpl.
  destruct (lookup data (fst bd)); reflexivity.
Qed.

(** What a successful constructor call established. *)
Lemma Array_init_inv (ens : Ensemble) (src : block_data T) (dtype : option (T -> T))
  (c : Array T) :
  Array_init ens src dtype = OK c ->
  ensemble c = ens /\
  Ensemble_iter ens <> [] /\
  OrderedDict.keys (array c) = first_occurrences (map fst (Ensemble_iter ens)) /\
  (forall b, In b (map fst (Ensemble_iter ens)) ->
     exists x, read_source src b = OK x /\
               OrderedDict.get b (array c) = Some (np_array dtype x)) /\
  (forall b a, OrderedDict.get b (array c) = Some a -> np_ndim a = ndim c).
Proof.
  rewrite Array_init_loop; intro Hi.
  apply bind_OK_inv in Hi; destruct Hi as [arr [Hloop Hu]].
  destruct (np_unique (map np_ndim (OrderedDict.values arr))) as [ | n [ | n' l ] ] eqn:Eu;
    try discriminate.
  inversion Hu; subst c; clear Hu; simpl.
  pose proof (store_loop_keys _ _ _ _ Hloop) as Hkeys; simpl in Hkeys.
  split; [ reflexivity | ].
  split.
  { intro Hnil; rewrite Hnil in Hloop; simpl in Hloop; inversion Hloop; subst arr.
    discriminate Eu. }
  split; [ exact Hkeys | ].
  split.
  - intros b Hb. apply in_map_iff in Hb; destruct Hb as [[b' deg] [Hfst Hin]].
    simpl in Hfst; subst b'.
    destruct (store_loop_get _ _ _ _ Hloop) with (k := b) (x := deg) as [v [Hv Hg]];
      [ intros; reflexivity | exact Hin | ].
    simpl in Hv. destruct (read_source src b) as [x | e]; simpl in Hv; [ | discriminate ].
    inversion Hv; subst v; eauto.
  - intros b a Hg. apply (np_unique_single _ _ Eu).
    apply in_map.
    clear - Hg. induction arr as [ | [k0 v0] arr IH ]; simpl in *; [ discriminate | ].
    destruct (eq_dec b k0); [ inversion Hg; auto | auto ].
Qed.

(** When a constructor call succeeds. *)
Lemma Array_init_total (ens : Ensemble) (src : block_data T) (dtype : option (T -> T))
  (n : nat) :
  Ensemble_iter ens <> [] ->
  (forall b, In b (map fst (Ensemble_iter ens)) ->
     exists x, read_source src b = OK x /\ np_ndim x = n) ->
  exists c, Array_init ens src dtype = OK c /\ ndim c = n.
Proof.
  intros Hne Hall; rewrite Array_init_loop.
  destruct (store_loop_total
              (fun bd : block * Z => x <- read_source src (fst bd) ;; OK (np_array dtype x))
              (Ensemble_iter ens) OrderedDict.empty) as [arr Hloop].
  { intros [b deg] Hin. destruct (Hall b) as [x [Hx _]].
    - apply in_map_iff; exists (b, deg); auto.
    - simpl; rewrite Hx; simpl; eauto. }
  rewrite Hloop; simpl.
  pose proof (store_loop_keys _ _ _ _ Hloop) as Hkeys; simpl in Hkeys.
  rewrite (np_unique_const _ n).
  - eexists; split; reflexivity.
  - destruct (Ensemble_iter ens) as [ | [b deg] items ] eqn:Ei; [ congruence | ].
    destruct (store_loop_get _ _ _ _ Hloop) with (k := b) (x := deg) as [v [_ Hg]];
      [ intros; reflexivity | simpl; auto | ].
    intro Hnil. apply map_eq_nil in Hnil.
    unfold OrderedDict.values in Hnil; apply map_eq_nil in Hnil; subst arr.
    discriminate Hg.
  - intros m Hm. apply in_map_iff in Hm; destruct Hm as [a [<- Ha]].
    destruct (values_of_get _ _ Ha) as [k [Hk Hg]].
    { rewrite Hkeys; apply fold_add_key_NoDup; constructor. }
    rewrite Hkeys in Hk; apply fold_add_key_In in Hk; destruct Hk as [[] | Hk].
    apply in_map_iff in Hk; destruct Hk as [[b deg] [Hfst Hin]]; simpl in Hfst; subst b.
    destruct (store_loop_get _ _ _ _ Hloop) with (k := k) (x := deg) as [v [Hv Hg']];
      [ intros; reflexivity | exact Hin | ].
    destruct (Hall k) as [x [Hx Hnx]]; [ apply in_map_iff; exists (k, deg); auto | ].
    simpl in Hv; rewrite Hx in Hv; simpl in Hv; inversion Hv; subst v.
    rewrite Hg in Hg'; inversion Hg'; subst a.
    rewrite np_ndim_np_array; exact Hnx.
Qed.

Lemma EnsembleArray_init_inv (ens : Ensemble) (src : block_data T)
  (dtype : option (T -> T)) (c : EnsembleArray T) :
  EnsembleArray_init ens src dtype = OK c ->
  ensemble c = ens /\
  Ensemble_iter ens <> [] /\
  OrderedDict.keys (array c) = first_occurrences (map fst (Ensemble_iter ens)) /\
  (forall b, In b (map fst (Ensemble_iter ens)) ->
     exists x, read_source src b = OK x /\
               OrderedDict.get b (array c) = Some (np_array dtype x)) /\
  (forall b a, OrderedDict.get b (array c) = Some a -> np_ndim a = ndim c).
Proof. exact (Array_init_inv ens src dtype c). Qed.

Lemma EnsembleArray_init_total (ens : Ensemble) (src : block_data T)
  (dtype : option (T -> T)) (n : nat) :
  Ensemble_iter ens <> [] ->
  (forall b, In b (map fst (Ensemble_iter ens)) ->
     exists x, read_source src b = OK x /\ np_ndim x = n) ->
  exists c, EnsembleArray_init ens src dtype = OK c /\ ndim c = n.
Proof. exact (Array_init_total ens src dtype n). Qed.

End ArrayFacts.

(** ** The tridiagonal container *)

Section TriDiagFacts.
Context {T : Type} `{Numeric T} `{External T}.

Lemma tridiag_entry_cases (D O : EnsembleArray T) (b : block) (x y : ndarray T) :
  OrderedDict.get b (array D) = Some x ->
  OrderedDict.get b (array O) = Some y ->
  (flat_len y = flat_len x ->
     exists od, tridiag_entry D O b = OK (flatten x, od) /\
                shape od = [flat_len y - 1] /\
                forall j, item od [j] = item (flatten y) [j]) /\
  (flat_len y + 1 = flat_len x -> tridiag_entry D O b = OK (flatten x, flatten y)) /\
  (flat_len y <> flat_len x -> flat_len y + 1 <> flat_len x ->
     tridiag_entry D O b
     = Raise (ValueError "Incompatible diag/offdiag dimensions in blockm")).
Proof.
  intros Hx Hy; unfold tridiag_entry, lookup; rewrite Hx, Hy; simpl.
  change (size (shape x)) with (flat_len x); change (size (shape y)) with (flat_len y).
  repeat split.
  - intro Heq. rewrite Heq, Nat.eqb_refl.
    eexists; split; [ reflexivity | ]; simpl; split.
    + f_equal; unfold clamp_bound.
      replace (-1 <? 0)%Z with true by reflexivity; lia.
    + intro j; reflexivity.
  - intro Heq. rewrite <- Heq.
    replace (flat_len y + 1 =? flat_len y) with false by (symmetry; apply Nat.eqb_neq; lia).
    rewrite Nat.eqb_refl; reflexivity.
  - intros Hne Hne'.
    replace (flat_len x =? flat_len y) with false by (symmetry; apply Nat.eqb_neq; lia).
    replace (flat_len x =? flat_len y + 1) with false by (symmetry; apply Nat.eqb_neq; lia).
    reflexivity.
Qed.

Lemma tridiag_entry_inv (D O : EnsembleArray T) (b : block) (d od : ndarray T) :
  tridiag_entry D O b = OK (d, od) ->
  exists x y,
    OrderedDict.get b (array D) = Some x /\
    OrderedDict.get b (array O) = Some y /\
    d = flatten x /\
    (flat_len y = flat_len x \/ flat_len y + 1 = flat_len x) /\
    (flat_len y = flat_len x ->
       shape od = [flat_len y - 1] /\ forall j, item od [j] = item (flatten y) [j]) /\
    (flat_len y + 1 = flat_len x -> od = flatten y).
Proof.
  intro He.
  destruct (OrderedDict.get b (array D)) as [x | ] eqn:Hx;
    [ | unfold tridiag_entry, lookup in He; rewrite Hx in He; discriminate ].
  destruct (OrderedDict.get b (array O)) as [y | ] eqn:Hy;
    [ | unfold tridiag_entry, lookup in He; rewrite Hx, Hy in He; discriminate ].
  destruct (tridiag_entry_cases D O b x y Hx Hy) as [Heq [Hsucc Hbad]].
  exists x, y; split; [ reflexivity | split; [ reflexivity | ] ].
  destruct (Nat.eq_dec (flat_len y) (flat_len x)) as [E | E].
  - destruct (Heq E) as [od' [He' [Hs Hi]]].
    rewrite He' in He; inversion He; subst.
    split; [ reflexivity | split; [ left; exact E | split ] ].
    + intros _; split; assumption.
    + intro E'; exfalso; lia.
  - destruct (Nat.eq_dec (flat_len y + 1) (flat_len x)) as [E' | E'].
    + rewrite (Hsucc E') in He; inversion He; subst.
      split; [ reflexivity | split; [ right; exact E' | split ] ].
      * intro E''; exfalso; lia.
      * intros _; reflexivity.
    + rewrite (Hbad E E') in He; discriminate.
Qed.

Lemma tridiag_loop_split (D O : EnsembleArray T) (items : list (block * Z))
  (a b : odict (ndarray T)) :
  for_each (tridiag_block D O) items (a, b)
  = (d1 <- for_each (store (fun bd : block * Z =>
                              p <- tridiag_entry D O (fst bd) ;; OK (fst p))) items a ;;
     d2 <- for_each (store (fun bd : block * Z =>
                              p <- tridiag_entry D O (fst bd) ;; OK (snd p))) items b ;;
     OK (d1, d2)).
Proof.
  revert a b; induction items as [ | bd items IH ]; intros a b; simpl; [ reflexivity | ].
  unfold tridiag_block at 1, store at 1 3.
  destruct (tridiag_entry D O (fst bd)) as [p | e]; simpl; [ | reflexivity ].
  apply IH.
Qed.

(** What a successful constructor call established. *)
Lemma EnsembleTriDiag_init_inv (ens : Ensemble)
  (data : odict (OrderedDict.t string (ndarray T))) (dtag otag : string)
  (dtype : option (T -> T)) (t : EnsembleTriDiag T) :
  EnsembleTriDiag_init ens data dtag otag dtype = OK t ->
  exists D O,
    EnsembleArray_init ens (TaggedArrays data dtag) dtype = OK D /\
    EnsembleArray_init ens (TaggedArrays data otag) dtype = OK O /\
    td_ensemble t = ens /\
    Ensemble_iter ens <> [] /\
    forall b, In b (map fst (Ensemble_iter ens)) ->
      exists d od,
        tridiag_entry D O b = OK (d, od) /\
        OrderedDict.get b (diag t) = Some d /\
        OrderedDict.get b (offdiag t) = Some od.
Proof.
  unfold EnsembleTriDiag_init; intro Hi.
  apply bind_OK_inv in Hi; destruct Hi as [D [HD Hi]].
  apply bind_OK_inv in Hi; destruct Hi as [O [HO Hi]].
  apply bind_OK_inv in Hi; destruct Hi as [st [Hloop Hi]].
  inversion Hi; subst t; clear Hi; simpl.
  exists D, O; split; [ exact HD | split; [ exact HO | split; [ reflexivity | ] ] ].
  split; [ apply (EnsembleArray_init_inv _ _ _ _ HD) | ].
  rewrite tridiag_loop_split in Hloop.
  apply bind_OK_inv in Hloop; destruct Hloop as [d1 [H1 Hloop]].
  apply bind_OK_inv in Hloop; destruct Hloop as [d2 [H2 Hloop]].
  inversion Hloop; subst st; clear Hloop; simpl.
  intros b Hb. apply in_map_iff in Hb; destruct Hb as [[b' deg] [Hfst Hin]].
  simpl in Hfst; subst b'.
  destruct (store_loop_get _ _ _ _ H1) with (k := b) (x := deg) as [v1 [Hv1 Hg1]];
    [ intros; reflexivity | exact Hin | ].
  destruct (store_loop_get _ _ _ _ H2) with (k := b) (x := deg) as [v2 [Hv2 Hg2]];
    [ intros; reflexivity | exact Hin | ].
  simpl in Hv1, Hv2.
  destruct (tridiag_entry D O b) as [[d od] | e]; simpl in Hv1, Hv2; [ | discriminate ].
  inversion Hv1; inversion Hv2; subst v1 v2.
  exists d, od; auto.
Qed.

End TriDiagFacts.

Section TriDiagConstructor.
Context {T : Type} `{Numeric T} `{External T}.

(** C4, as the code has it.  With both intermediate array containers built,
    the constructor accepts the data when every block has flattened lengths
    [len(od) == len(d)] or [len(od) == len(d) - 1], and raises a
    [ValueError] when some block has any other combination.  After a
    successful construction every block holds the flattened diagonal; the
    off-diagonal is the flattened one without its last entry when the lengths
    were equal and unchanged otherwise; so [len(offdiag) == len(diag) - 1]
    for every block with a non-empty diagonal, while a block of length zero
    keeps an empty off-diagonal. *)
Theorem EnsembleTriDiag_init_normalizes (ens : Ensemble)
  (data : odict (OrderedDict.t string (ndarray T))) (dtag otag : string)
  (dtype : option (T -> T)) (D O : EnsembleArray T) :
  EnsembleArray_init ens (TaggedArrays data dtag) dtype = OK D ->
  EnsembleArray_init ens (TaggedArrays data otag) dtype = OK O ->
  ((forall b x y, In b (map fst (Ensemble_iter ens)) ->
      OrderedDict.get b (array D) = Some x -> OrderedDict.get b (array O) = Some y ->
      flat_len y = flat_len x \/ flat_len y + 1 = flat_len x) ->
   exists t, EnsembleTriDiag_init ens data dtag otag dtype = OK t /\ td_ensemble t = ens) /\
  (forall b x y, In b (map fst (Ensemble_iter ens)) ->
     OrderedDict.get b (array D) = Some x -> OrderedDict.get b (array O) = Some y ->
     flat_len y <> flat_len x -> flat_len y + 1 <> flat_len x ->
     exists msg, EnsembleTriDiag_init ens data dtag otag dtype = Raise (ValueError msg)) /\
  (forall t, EnsembleTriDiag_init ens data dtag otag dtype = OK t ->
     forall b, In b (map fst (Ensemble_iter ens)) ->
     exists x y d od n m,
       OrderedDict.get b (array D) = Some x /\
       OrderedDict.get b (array O) = Some y /\
       OrderedDict.get b (diag t) = Some d /\
       OrderedDict.get b (offdiag t) = Some od /\
       d = flatten x /\
       (flat_len y = flat_len x -> forall j, item od [j] = item (flatten y) [j]) /\
       (flat_len y + 1 = flat_len x -> od = flatten y) /\
       np_len d = OK n /\ np_len od = OK m /\
       (1 <= n -> Z.of_nat m = (Z.of_nat n - 1)%Z) /\
       (n = 0 -> m = 0)).
Proof.
  intros HD HO.
  pose proof (EnsembleArray_init_inv ens _ dtype D HD) as [_ [Hne [_ [HgD _]]]].
  pose proof (EnsembleArray_init_inv ens _ dtype O HO) as [_ [_ [_ [HgO _]]]].
  assert (Hget : forall b, In b (map fst (Ensemble_iter ens)) ->
            exists x y, OrderedDict.get b (array D) = Some x /\
                        OrderedDict.get b (array O) = Some y).
  { intros b Hb. destruct (HgD b Hb) as [x [_ Hx]], (HgO b Hb) as [y [_ Hy]]; eauto. }
  split; [ | split ].
  - intro Hgood. unfold EnsembleTriDiag_init; rewrite HD, HO; simpl.
    rewrite tridiag_loop_split.
    assert (Hok : forall kx : block * Z, In kx (Ensemble_iter ens) ->
              exists p, tridiag_entry D O (fst kx) = OK p).
    { intros [b deg] Hin; simpl.
      assert (Hb : In b (map fst (Ensemble_iter ens)))
        by (apply in_map_iff; exists (b, deg); auto).
      destruct (Hget b Hb) as [x [y [Hx Hy]]].
      destruct (tridiag_entry_cases D O b x y Hx Hy) as [Heq [Hsucc _]].
      destruct (Hgood b x y Hb Hx Hy) as [E | E].
      - destruct (Heq E) as [od [He _]]; eauto.
      - rewrite (Hsucc E); eauto. }
    destruct (store_loop_total
                (fun bd : block * Z => p <- tridiag_entry D O (fst bd) ;; OK (fst p))
                (Ensemble_iter ens) OrderedDict.empty) as [d1 H1].
    { intros kx Hin; destruct (Hok kx Hin) as [p Hp]; rewrite Hp; simpl; eauto. }
    destruct (store_loop_total
                (fun bd : block * Z => p <- tridiag_entry D O (fst bd) ;; OK (snd p))
                (Ensemble_iter ens) OrderedDict.empty) as [d2 H2].
    { intros kx Hin; destruct (Hok kx Hin) as [p Hp]; rewrite Hp; simpl; eauto. }
    rewrite H1, H2; simpl; eauto.
  - intros b x y Hb Hx Hy Hne1 Hne2.
    unfold EnsembleTriDiag_init; rewrite HD, HO; simpl.
    rewrite tridiag_loop_split.
    destruct (store_loop_raise
                (fun bd : block * Z => p <- tridiag_entry D O (fst bd) ;; OK (fst p))
                (Ensemble_iter ens) OrderedDict.empty
                (fun e => exists msg, e = ValueError msg)) as [e [He [msg Hmsg]]].
    + intros [b' deg] Hin; simpl.
      assert (Hb' : In b' (map fst (Ensemble_iter ens)))
        by (apply in_map_iff; exists (b', deg); auto).
      destruct (Hget b' Hb') as [x' [y' [Hx' Hy']]].
      destruct (tridiag_entry_cases D O b' x' y' Hx' Hy') as [Heq [Hsucc Hbad]].
      destruct (Nat.eq_dec (flat_len y') (flat_len x')) as [E | E].
      * destruct (Heq E) as [od [He _]]; rewrite He; simpl; eauto.
      * destruct (Nat.eq_dec (flat_len y' + 1) (flat_len x')) as [E' | E'].
        -- rewrite (Hsucc E'); simpl; eauto.
        -- rewrite (Hbad E E'); simpl; right; eauto.
    + apply in_map_iff in Hb; destruct Hb as [[b' deg] [Hfst Hin]]; simpl in Hfst; subst b'.
      exists (b, deg); split; [ exact Hin | ]; simpl.
      destruct (tridiag_entry_cases D O b x y Hx Hy) as [_ [_ Hbad]].
      rewrite (Hbad Hne1 Hne2); simpl; eauto.
    + rewrite He; simpl; subst e; eauto.
  - intros t Ht b Hb.
    destruct (EnsembleTriDiag_init_inv _ _ _ _ _ _ Ht) as [D' [O' [HD' [HO' [_ [_ Hall]]]]]].
    rewrite HD in HD'; rewrite HO in HO'; inversion HD'; inversion HO'; subst D' O'.
    destruct (Hall b Hb) as [d [od [He [Hd Hod]]]].
    destruct (tridiag_entry_inv _ _ _ _ _ He) as [x [y [Hx [Hy [Hdx [Hlen [Heq Hsucc]]]]]]].
    exists x, y, d, od, (flat_len x), (flat_len x - 1).
    split; [ exact Hx | split; [ exact Hy | split; [ exact Hd | split; [ exact Hod | ] ] ] ].
    split; [ exact Hdx | ].
    split; [ intro E; apply (Heq E) | ].
    split; [ exact Hsucc | ].
    split; [ subst d; reflexivity | ].
    split; [ | split; intros; lia ].
    destruct Hlen as [E | E].
    + destruct (Heq E) as [Hs _]; unfold np_len; rewrite Hs, E; reflexivity.
    + rewrite (Hsucc E); unfold np_len; simpl.
      change (size (shape y)) with (flat_len y); f_equal; lia.
Qed.

End TriDiagConstructor.

Lemma EnsembleTriDiag_init_normalizes_witness :
  exists t d od,
    EnsembleTriDiag_init one_block tridiag_data_3 "diag" "offdiag" None = OK t /\
    OrderedDict.get ["a"] (diag t) = Some d /\
    OrderedDict.get ["a"] (offdiag t) = Some od /\
    np_len d = OK 3 /\ np_len od = OK 2.
Proof.
  edestruct (EnsembleTriDiag_init_normalizes one_block tridiag_data_3 "diag" "offdiag" None)
    as [Hsucc [_ Hinv]]; [ reflexivity | reflexivity | ].
  destruct Hsucc as [t [Ht _]].
  { intros b x y [<- | []] Hx Hy; inversion Hx; inversion Hy; subst; left; reflexivity. }
  destruct (Hinv t Ht ["a"]) as [x [y [d [od [n [m Hall]]]]]]; [ simpl; auto | ].
  destruct Hall as [Hx [_ [Hd [Hod [Hdx [_ [_ [Hn [Hm [Hnm _]]]]]]]]]].
  inversion Hx; subst x; subst d.
  vm_compute in Hn; inversion Hn; subst n.
  exists t, (flatten (vector [1; 2; 3]%Z)), od.
  split; [ exact Ht | split; [ exact Hd | split; [ exact Hod | split; [ reflexivity | ] ] ] ].
  rewrite Hm; f_equal.
  assert (Hm3 : Z.of_nat m = (Z.of_nat 3 - 1)%Z) by (apply Hnm; lia).
  lia.
Defined.

(** C4 fails as stated: a block whose diagonal and off-diagonal are both
    empty is accepted, nothing is trimmed, and the container then holds
    [len(offdiag) = 0] with [len(diag) - 1 = -1]. *)
Lemma EnsembleTriDiag_init_empty_block :
  Ensemble_init 0 one_block_axes 1 = OK one_block /\
  exists t d od,
    EnsembleTriDiag_init one_block tridiag_data_0 "diag" "offdiag" None = OK t /\
    OrderedDict.get ["a"] (diag t) = Some d /\
    OrderedDict.get ["a"] (offdiag t) = Some od /\
    np_len d = OK 0 /\ np_len od = OK 0 /\
    Z.of_nat 0 <> (Z.of_nat 0 - 1)%Z.
Proof.
  split; [ reflexivity | ].
  eexists; eexists; eexists.
  split; [ reflexivity | ].
  split; [ reflexivity | split; [ reflexivity | ] ].
  split; [ reflexivity | split; [ reflexivity | discriminate ] ].
Qed.

Section SmallestEigenvalue.
Context {T : Type} `{Numeric T} `{External T}.

Lemma EnsembleTriDiag_blocks (ens : Ensemble)
  (data : odict (OrderedDict.t string (ndarray T))) (dtag otag : string)
  (dtype : option (T -> T)) (t : EnsembleTriDiag T) :
  EnsembleTriDiag_init ens data dtag otag dtype = OK t ->
  td_ensemble t = ens /\
  Ensemble_iter ens <> [] /\
  forall b, In b (map fst (Ensemble_iter ens)) ->
    exists d od n,
      OrderedDict.get b (diag t) = Some d /\
      OrderedDict.get b (offdiag t) = Some od /\
      shape d = [n] /\ shape od = [n - 1].
Proof.
  intro Ht.
  destruct (EnsembleTriDiag_init_inv _ _ _ _ _ _ Ht) as [D [O [_ [_ [He [Hne Hall]]]]]].
  split; [ exact He | split; [ exact Hne | ] ].
  intros b Hb. destruct (Hall b Hb) as [d [od [Hent [Hd Hod]]]].
  destruct (tridiag_entry_inv _ _ _ _ _ Hent) as [x [y [_ [_ [Hdx [Hlen [Heq Hsucc]]]]]]].
  exists d, od, (flat_len x).
  split; [ exact Hd | split; [ exact Hod | split; [ subst d; reflexivity | ] ] ].
  destruct Hlen as [E | E].
  - rewrite <- E; apply (Heq E).
  - rewrite (Hsucc E), shape_flatten; f_equal; lia.
Qed.

Lemma eig0_block_cases (t : EnsembleTriDiag T) (b : block) (d od : ndarray T) (n : nat) :
  OrderedDict.get b (diag t) = Some d ->
  OrderedDict.get b (offdiag t) = Some od ->
  shape d = [n] ->
  (n = 0 -> eig0_block t b = OK None) /\
  (n = 1 -> eig0_block t b = OK (Some (item d [0]))) /\
  (2 <= n ->
     eig0_block t b
     = (ev <- eigvalsh_tridiagonal d od (SelectIndex 0 0) ;;
        match ev with
        | x :: _ => OK (Some x)
        | [] => Raise (IndexError "index 0 is out of bounds for axis 0 with size 0")
        end)).
Proof.
  intros Hd Hod Hs; unfold eig0_block, lookup; rewrite Hd; simpl.
  unfold np_len; rewrite Hs; simpl.
  split; [ intros ->; reflexivity | split ].
  - intros ->; simpl.
    destruct (first_element d 0 Hs) as [r [Hr Hi]]; rewrite Hr; simpl; rewrite Hi; reflexivity.
  - intro Hn. destruct n as [ | [ | n ] ]; [ lia | lia | ]; simpl.
    rewrite Hod; reflexivity.
Qed.

(** C5.  On a container its constructor returned, and with the eigenvalue
    routine delivering at least the one value requested for every block of
    length at least two, [eig0] returns a scalar container over the same
    ensemble, keyed in its order, whose entry is [None] for a block of
    length zero, the sole diagonal entry for a block of length one, and
    otherwise the first value the routine returns when called on the block's
    diagonal and off-diagonal with the index range from 0 to 0. *)
Theorem eig0_per_block (ens : Ensemble)
  (data : odict (OrderedDict.t string (ndarray T))) (dtag otag : string)
  (dtype : option (T -> T)) (t : EnsembleTriDiag T) :
  EnsembleTriDiag_init ens data dtag otag dtype = OK t ->
  (forall b d od n, In b (map fst (Ensemble_iter ens)) ->
     OrderedDict.get b (diag t) = Some d -> OrderedDict.get b (offdiag t) = Some od ->
     np_len d = OK n -> 2 <= n ->
     exists x xs, eigvalsh_tridiagonal d od (SelectIndex 0 0) = OK (x :: xs)) ->
  exists sc,
    eig0 t = OK sc /\
    sc_ensemble sc = td_ensemble t /\
    OrderedDict.keys (scalar sc)
    = first_occurrences (map fst (Ensemble_iter (td_ensemble t))) /\
    forall b, In b (map fst (Ensemble_iter ens)) ->
      exists d od n,
        OrderedDict.get b (diag t) = Some d /\
        OrderedDict.get b (offdiag t) = Some od /\
        np_len d = OK n /\
        (n = 0 -> OrderedDict.get b (scalar sc) = Some None) /\
        (n = 1 -> OrderedDict.get b (scalar sc) = Some (Some (item d [0]))) /\
        (2 <= n ->
           exists x xs, eigvalsh_tridiagonal d od (SelectIndex 0 0) = OK (x :: xs) /\
                        OrderedDict.get b (scalar sc) = Some (Some x)).
Proof.
  intros Ht Hroutine.
  destruct (EnsembleTriDiag_blocks _ _ _ _ _ _ Ht) as [He [_ Hall]].
  assert (Hblock : forall b, In b (map fst (Ensemble_iter ens)) ->
            exists d od n v,
              OrderedDict.get b (diag t) = Some d /\
              OrderedDict.get b (offdiag t) = Some od /\
              np_len d = OK n /\
              eig0_block t b = OK v /\
              (n = 0 -> v = None) /\
              (n = 1 -> v = Some (item d [0])) /\
              (2 <= n ->
                 exists x xs, eigvalsh_tridiagonal d od (SelectIndex 0 0) = OK (x :: xs) /\
                              v = Some x)).
  { intros b Hb. destruct (Hall b Hb) as [d [od [n [Hd [Hod [Hs _]]]]]].
    assert (Hlen : np_len d = OK n) by (unfold np_len; rewrite Hs; reflexivity).
    destruct (eig0_block_cases t b d od n Hd Hod Hs) as [H0n [H1n H2n]].
    destruct n as [ | [ | n ] ].
    - exists d, od, 0, None; repeat split; auto; intros; lia.
    - exists d, od, 1, (Some (item d [0])); repeat split; auto; intros; lia.
    - assert (Hge : 2 <= S (S n)) by lia.
      destruct (Hroutine b d od (S (S n)) Hb Hd Hod Hlen Hge) as [x [xs Hx]].
      exists d, od, (S (S n)), (Some x).
      split; [ exact Hd | split; [ exact Hod | split; [ exact Hlen | ] ] ].
      split; [ rewrite (H2n Hge), Hx; reflexivity | ].
      split; [ intro; lia | split; [ intro; lia | ] ].
      intros _; exists x, xs; auto. }
  unfold eig0; rewrite He in *.
  destruct (store_loop_total (fun bd : block * Z => eig0_block t (fst bd))
              (Ensemble_iter ens) OrderedDict.empty) as [data_e0 Hloop].
  { intros [b deg] Hin; simpl.
    destruct (Hblock b) as [d [od [n [v [_ [_ [_ [Hv _]]]]]]]]; eauto.
    apply in_map_iff; exists (b, deg); auto. }
  rewrite Hloop; simpl.
  unfold EnsembleScalar_init.
  destruct (store_loop_total (fun bd : block * Z => dt <- lookup data_e0 (fst bd) ;; OK dt)
              (Ensemble_iter ens) OrderedDict.empty) as [sc Hsc].
  { intros [b deg] Hin; simpl.
    destruct (store_loop_get _ _ _ _ Hloop) with (k := b) (x := deg) as [v [_ Hg]];
      [ intros; reflexivity | exact Hin | ].
    unfold lookup; rewrite Hg; simpl; eauto. }
  rewrite Hsc; simpl.
  eexists; split; [ reflexivity | ]; simpl.
  split; [ reflexivity | ].
  split; [ apply (store_loop_keys _ _ _ _ Hsc) | ].
  intros b Hb.
  destruct (Hblock b Hb) as [d [od [n [v [Hd [Hod [Hlen [Hv [H0n [H1n H2n]]]]]]]]]].
  apply in_map_iff in Hb; destruct Hb as [[b' deg] [Hfst Hin]]; simpl in Hfst; subst b'.
  destruct (store_loop_get _ _ _ _ Hloop) with (k := b) (x := deg) as [v' [Hv' Hg]];
    [ intros; reflexivity | exact Hin | ].
  simpl in Hv'; rewrite Hv in Hv'; inversion Hv'; subst v'.
  destruct (store_loop_get _ _ _ _ Hsc) with (k := b) (x := deg) as [w [Hw Hgw]];
    [ intros; reflexivity | exact Hin | ].
  simpl in Hw; unfold lookup in Hw; rewrite Hg in Hw; simpl in Hw; inversion Hw; subst w.
  exists d, od, n.
  split; [ exact Hd | split; [ exact Hod | split; [ exact Hlen | ] ] ].
  split; [ intro E; rewrite <- (H0n E); exact Hgw | ].
  split; [ intro E; rewrite <- (H1n E); exact Hgw | ].
  intro E; destruct (H2n E) as [x [xs [Hx Hvx]]].
  exists x, xs; split; [ exact Hx | rewrite <- Hvx; exact Hgw ].
Qed.

End SmallestEigenvalue.

Lemma eig0_per_block_witness :
  exists t sc,
    EnsembleTriDiag_init one_block tridiag_data_diagonal "diag" "offdiag" None = OK t /\
    eig0 t = OK sc /\
    OrderedDict.get ["a"] (scalar sc) = Some (Some 1%Z).
Proof.
  eexists.
  edestruct (eig0_per_block one_block tridiag_data_diagonal "diag" "offdiag" None)
    as [sc [Hsc [_ [_ Hall]]]]; [ reflexivity | | ].
  - intros b d od n [<- | []] Hd Hod _ _.
    inversion Hd; inversion Hod; subst d od.
    eexists; eexists; reflexivity.
  - exists sc; split; [ reflexivity | split; [ exact Hsc | ] ].
    destruct (Hall ["a"]) as [d [od [n [Hd [Hod [Hn [_ [_ H2]]]]]]]]; [ simpl; auto | ].
    inversion Hd; subst d; inversion Hod; subst od.
    vm_compute in Hn; inversion Hn; subst n.
    destruct H2 as [x [xs [Hx Hg]]]; [ lia | ].
    vm_compute in Hx; inversion Hx; subst x; exact Hg.
Defined.

(** ** The dense matrix of a tridiagonal block *)

Section DenseMatrix.
Context {T : Type} `{Numeric T}.
Hypothesis add_0_l : forall x : T, add zero x = x.
Hypothesis add_0_r : forall x : T, add x zero = x.

Lemma broadcast_rev_same (r : list nat) : broadcast_rev r r = Some r.
Proof.
  induction r as [ | x r IH ]; simpl; [ reflexivity | ].
  rewrite IH, Nat.eqb_refl; reflexivity.
Qed.

Lemma np_add_same_shape (a b : ndarray T) (s : list nat) :
  shape a = s -> shape b = s ->
  np_add a b
  = OK (MkArray s (fun idx => add (item a (project s idx)) (item b (project s idx)))).
Proof.
  intros Ha Hb; unfold np_add, broadcast_shapes; rewrite Ha, Hb, broadcast_rev_same.
  simpl; rewrite rev_involutive; reflexivity.
Qed.

Lemma project_square (n i j : nat) :
  i < n -> j < n -> project [n; n] [i; j] = [i; j].
Proof.
  intros Hi Hj; unfold project; simpl.
  destruct (Nat.eqb_spec n 1) as [-> | _]; [ | reflexivity ].
  replace i with 0 by lia; replace j with 0 by lia; reflexivity.
Qed.

Lemma np_diag_main (d : ndarray T) (n : nat) :
  shape d = [n] ->
  exists m, np_diag d 0 = OK m /\ shape m = [n; n] /\
    forall i j, item m [i; j] = if i =? j then item d [i] else zero.
Proof.
  intro Hs; unfold np_diag; rewrite Hs.
  eexists; split; [ reflexivity | ]; simpl; split.
  - rewrite Nat.add_0_r; reflexivity.
  - intros i j.
    destruct (Z.eqb_spec (Z.of_nat j) (Z.of_nat i + 0)), (Nat.eqb_spec i j);
      try lia; reflexivity.
Qed.

Lemma np_diag_upper (od : ndarray T) (n : nat) :
  shape od = [n] ->
  exists m, np_diag od 1 = OK m /\ shape m = [S n; S n] /\
    forall i j, item m [i; j] = if j =? i + 1 then item od [i] else zero.
Proof.
  intro Hs; unfold np_diag; rewrite Hs.
  eexists; split; [ reflexivity | ]; simpl; split.
  - replace (n + Pos.to_nat 1) with (S n) by lia; reflexivity.
  - intros i j.
    destruct (Z.eqb_spec (Z.of_nat j) (Z.of_nat i + 1)), (Nat.eqb_spec j (i + 1));
      try lia; reflexivity.
Qed.

Lemma np_diag_lower (od : ndarray T) (n : nat) :
  shape od = [n] ->
  exists m, np_diag od (-1) = OK m /\ shape m = [S n; S n] /\
    forall i j, item m [i; j] = if i =? j + 1 then item od [j] else zero.
Proof.
  intro Hs; unfold np_diag; rewrite Hs.
  eexists; split; [ reflexivity | ]; simpl; split.
  - replace (n + Pos.to_nat 1) with (S n) by lia; reflexivity.
  - intros i j.
    destruct (Z.eqb_spec (Z.of_nat j) (Z.of_nat i + -1)), (Nat.eqb_spec i (j + 1));
      try lia; reflexivity.
Qed.

Lemma asarray_block_dense (t : EnsembleTriDiag T) (b : block) (d od : ndarray T) (n : nat) :
  OrderedDict.get b (diag t) = Some d ->
  OrderedDict.get b (offdiag t) = Some od ->
  shape d = [n] -> shape od = [n - 1] ->
  exists m, asarray_block t b = OK m /\ shape m = [n; n] /\
    forall i j, i < n -> j < n -> item m [i; j] = tridiagonal_entry d od i j.
Proof.
  intros Hd Hod Hs Hso.
  unfold asarray_block, lookup; rewrite Hd; simpl.
  unfold np_len; rewrite Hs; simpl. rewrite Hod; simpl.
  destruct n as [ | n ].
  - unfold np_diag; rewrite Hs, Hso; simpl.
    eexists; split; [ reflexivity | ]; split; [ reflexivity | ].
    intros i j Hi; lia.
  - simpl in Hso; rewrite Nat.sub_0_r in Hso.
    destruct (np_diag_main d (S n) Hs) as [m0 [E0 [S0 I0]]].
    destruct (np_diag_upper od n Hso) as [m1 [E1 [S1 I1]]].
    destruct (np_diag_lower od n Hso) as [m2 [E2 [S2 I2]]].
    rewrite E0; simpl; rewrite E1; simpl.
    rewrite (np_add_same_shape m0 m1 _ S0 S1); simpl; rewrite E2; simpl.
    erewrite (np_add_same_shape _ m2 [S n; S n]); [ | reflexivity | exact S2 ].
    eexists; split; [ reflexivity | ]; split; [ reflexivity | ].
    intros i j Hi Hj; cbn [item].
    rewrite (project_square (S n) i j Hi Hj); cbn [item].
    rewrite (project_square (S n) i j Hi Hj).
    rewrite I0, I1, I2; unfold tridiagonal_entry.
    destruct (Nat.eqb_spec i j), (Nat.eqb_spec j (i + 1)), (Nat.eqb_spec i (j + 1));
      try lia; rewrite ?add_0_l, ?add_0_r; reflexivity.
Qed.

(** C6.  With an element type whose zero is neutral for the addition, on a
    container its constructor returned, [asarray] returns a two-dimensional
    array container over the same ensemble whose matrix for every block is
    square of the side of the block's diagonal, and holds the diagonal on the
    main diagonal, the off-diagonal on the diagonals next to it on both
    sides, and zero elsewhere; a block of length zero gives a matrix of
    shape (0, 0). *)
Theorem asarray_dense (ens : Ensemble)
  (data : odict (OrderedDict.t string (ndarray T))) (dtag otag : string)
  (dtype : option (T -> T)) (t : EnsembleTriDiag T) :
  EnsembleTriDiag_init ens data dtag otag dtype = OK t ->
  exists c,
    asarray t = OK c /\
    ensemble c = td_ensemble t /\
    ndim c = 2 /\
    forall b, In b (map fst (Ensemble_iter ens)) ->
      exists d od m n,
        OrderedDict.get b (diag t) = Some d /\
        OrderedDict.get b (offdiag t) = Some od /\
        OrderedDict.get b (array c) = Some m /\
        np_len d = OK n /\
        shape m = [n; n] /\
        forall i j, i < n -> j < n ->
          item m [i; j]
          = if i =? j then item d [i]
            else if j =? i + 1 then item od [i]
            else if i =? j + 1 then item od [j]
            else zero.
Proof.
  intro Ht.
  destruct (EnsembleTriDiag_blocks _ _ _ _ _ _ Ht) as [He [Hne Hall]].
  assert (Hblock : forall b, In b (map fst (Ensemble_iter ens)) ->
            exists d od m n,
              OrderedDict.get b (diag t) = Some d /\
              OrderedDict.get b (offdiag t) = Some od /\
              asarray_block t b = OK m /\ shape d = [n] /\ shape m = [n; n] /\
              forall i j, i < n -> j < n -> item m [i; j] = tridiagonal_entry d od i j).
  { intros b Hb. destruct (Hall b Hb) as [d [od [n [Hd [Hod [Hs Hso]]]]]].
    destruct (asarray_block_dense t b d od n Hd Hod Hs Hso) as [m [Hm [Hsm Him]]].
    exists d, od, m, n; auto 10. }
  unfold asarray; rewrite He in *.
  destruct (store_loop_total (fun bd : block * Z => asarray_block t (fst bd))
              (Ensemble_iter ens) OrderedDict.empty) as [data_mats Hloop].
  { intros [b deg] Hin; simpl.
    destruct (Hblock b) as [d [od [m [n [_ [_ [Hm _]]]]]]]; eauto.
    apply in_map_iff; exists (b, deg); auto. }
  rewrite Hloop; simpl.
  assert (Hdata : forall b, In b (map fst (Ensemble_iter ens)) ->
            exists m, asarray_block t b = OK m /\
                      OrderedDict.get b data_mats = Some m).
  { intros b Hb.
    apply in_map_iff in Hb; destruct Hb as [[b' deg] [Hfst Hin]]; simpl in Hfst; subst b'.
    destruct (store_loop_get _ _ _ _ Hloop) with (k := b) (x := deg) as [m [Hm Hg]];
      [ intros; reflexivity | exact Hin | eauto ]. }
  destruct (EnsembleArray_init_total ens (Arrays data_mats) None 2 Hne) as [c [Hc Hnd]].
  { intros b Hb. destruct (Hdata b Hb) as [m [Hm Hg]].
    exists m; split; [ simpl; unfold lookup; rewrite Hg; reflexivity | ].
    destruct (Hblock b Hb) as [d [od [m' [n [_ [_ [Hm' [_ [Hsm _]]]]]]]]].
    rewrite Hm in Hm'; inversion Hm'; subst m'.
    unfold np_ndim; rewrite Hsm; reflexivity. }
  exists c; split; [ exact Hc | ].
  destruct (EnsembleArray_init_inv _ _ _ _ Hc) as [Hec [_ [_ [Hget _]]]].
  split; [ exact Hec | split; [ exact Hnd | ] ].
  intros b Hb.
  destruct (Hblock b Hb) as [d [od [m [n [Hd [Hod [Hm [Hs [Hsm Him]]]]]]]]].
  destruct (Hdata b Hb) as [m' [Hm' Hg]].
  rewrite Hm in Hm'; inversion Hm'; subst m'.
  destruct (Hget b Hb) as [x [Hx Hgc]].
  simpl in Hx; unfold lookup in Hx; rewrite Hg in Hx; inversion Hx; subst x.
  exists d, od, m, n.
  split; [ exact Hd | split; [ exact Hod | split; [ exact Hgc | ] ] ].
  split; [ unfold np_len; rewrite Hs; reflexivity | ].
  split; [ exact Hsm | exact Him ].
Qed.

End DenseMatrix.

Lemma asarray_dense_witness :
  exists t c m,
    EnsembleTriDiag_init one_block tridiag_data_3 "diag" "offdiag" None = OK t /\
    asarray t = OK c /\
    OrderedDict.get ["a"] (array c) = Some m /\
    shape m = [3; 3] /\
    item m [0; 1] = 5%Z /\ item m [1; 1] = 2%Z /\ item m [2; 0] = 0%Z.
Proof.
  eexists.
  edestruct (@asarray_dense Z Z_Numeric Z.add_0_l Z.add_0_r
               one_block tridiag_data_3 "diag" "offdiag" None)
    as [c [Hc [_ [_ Hall]]]]; [ reflexivity | ].
  destruct (Hall ["a"]) as [d [od [m [n [Hd [Hod [Hm [Hn [Hs Hi]]]]]]]]]; [ simpl; auto | ].
  inversion Hd; subst d; inversion Hod; subst od.
  vm_compute in Hn; inversion Hn; subst n.
  exists c, m; split; [ reflexivity | split; [ exact Hc | split; [ exact Hm | ] ] ].
  split; [ exact Hs | ].
  split; [ rewrite Hi by lia; reflexivity | ].
  split; [ rewrite Hi by lia; reflexivity | rewrite Hi by lia; reflexivity ].
Defined.

(** ** Indexing, [dot] and multiplication of array containers *)

Section ArrayOperations.
Context {T : Type} `{Numeric T} `{External T}.

(** C7, evaluated where the code departs from it.  A container of ndim 2
    with an empty block is constructed; indexing it with the slice [:] gives
    the empty block a one-dimensional array, [np.empty(0)], so the result of
    a container with that block alone has ndim 1, and with a second,
    non-empty block the constructor of the result raises a [ValueError].
    Both array classes behave so. *)
Theorem getitem_empty_block_dimension :
  (exists c r m,
     Array_init one_block (Arrays empty_matrix_data) None = OK c /\
     ndim c = 2 /\
     Array_getitem c (Single (BSlice None None)) = OK r /\
     EnsembleArray_getitem c (Single (BSlice None None)) = OK r /\
     OrderedDict.get ["a"] (array r) = Some m /\
     shape m = [0] /\ ndim r = 1) /\
  (exists c,
     Array_init two_blocks (Arrays matrix_data) None = OK c /\
     ndim c = 2 /\
     Array_getitem c (Single (BSlice None None))
     = Raise (ValueError "not all arrays have same number of dimensions") /\
     EnsembleArray_getitem c (Single (BSlice None None))
     = Raise (ValueError "not all arrays have same number of dimensions")).
Proof.
  split.
  - eexists; eexists; eexists.
    split; [ reflexivity | ].
    split; [ reflexivity | ].
    split; [ reflexivity | ].
    split; [ reflexivity | ].
    split; [ reflexivity | split; reflexivity ].
  - eexists.
    split; [ reflexivity | ].
    split; [ reflexivity | split; reflexivity ].
Qed.

Lemma dot_loop_trace (a b : Array T) (items : list (block * Z))
  (acc d : odict (ndarray T)) :
  for_each (store (fun bd : block * Z =>
                     x <- lookup (array a) (fst bd) ;;
                     y <- lookup (array b) (fst bd) ;;
                     np_dot x y)) items acc = OK d ->
  for_each_traced (dot_block a b) items acc = (map fst items, OK d).
Proof.
  revert acc; induction items as [ | bd items IH ]; simpl; intros acc Hd.
  - inversion Hd; reflexivity.
  - unfold store at 1 in Hd. unfold dot_block at 1.
    destruct (lookup (array a) (fst bd)) as [x | e]; simpl in Hd; [ | discriminate ].
    destruct (lookup (array b) (fst bd)) as [y | e]; simpl in Hd; [ | discriminate ].
    destruct (np_dot x y) as [z | e] eqn:Ez; simpl in Hd; [ | discriminate ].
    simpl. rewrite Ez; simpl. rewrite (IH _ Hd); reflexivity.
Qed.

(** C8, as amended.  The comparison [dot] makes is that of the code, by the
    identity of the ensemble objects and not by their mappings.  For two
    array containers, when the ensembles are not the same object [dot]
    raises the [ValueError] of the mismatch and has read no block of either
    operand.  When they are the same object, the ensemble is a non-empty
    dictionary and [numpy.dot] returns for every block a product, all of one
    number of dimensions, [dot] returns a new container over the ensemble of
    [a] that holds, in the order of the ensemble, the product of the two
    operands' arrays for every block. *)
Theorem dot_checks_partition (a b : Array T) :
  (Ensemble_ne (ensemble a) (ensemble b) = true ->
   dot (PyArray a) (PyArray b)
   = ([], Raise (ValueError "a and b do not share the same ensemble"))) /\
  (Ensemble_ne (ensemble a) (ensemble b) = false ->
   NoDup (map fst (Ensemble_iter (ensemble a))) ->
   Ensemble_iter (ensemble a) <> [] ->
   forall n,
     (forall k, In k (map fst (Ensemble_iter (ensemble a))) ->
        exists x y z, OrderedDict.get k (array a) = Some x /\
                      OrderedDict.get k (array b) = Some y /\
                      np_dot x y = OK z /\ np_ndim z = n) ->
     exists c,
       dot (PyArray a) (PyArray b) = (map fst (Ensemble_iter (ensemble a)), OK c) /\
       ensemble c = ensemble a /\
       OrderedDict.keys (array c) = map fst (Ensemble_iter (ensemble a)) /\
       forall k, In k (map fst (Ensemble_iter (ensemble a))) ->
         exists x y z, OrderedDict.get k (array a) = Some x /\
                       OrderedDict.get k (array b) = Some y /\
                       np_dot x y = OK z /\
                       OrderedDict.get k (array c) = Some z).
Proof.
  split.
  - intro Hne; unfold dot; rewrite Hne; reflexivity.
  - intros Heq Hnd Hnil n Hall; unfold dot; rewrite Heq.
    set (f := fun bd : block * Z =>
                x <- lookup (array a) (fst bd) ;;
                y <- lookup (array b) (fst bd) ;;
                np_dot x y).
    destruct (store_loop_total f (Ensemble_iter (ensemble a)) OrderedDict.empty)
      as [data Hloop].
    { intros [k deg] Hin; unfold f; simpl.
      destruct (Hall k) as [x [y [z [Hx [Hy [Hz _]]]]]];
        [ apply in_map_iff; exists (k, deg); auto | ].
      unfold lookup; rewrite Hx, Hy; simpl; eauto. }
    rewrite (dot_loop_trace a b _ _ _ Hloop).
    assert (Hdata : forall k, In k (map fst (Ensemble_iter (ensemble a))) ->
              exists x y z, OrderedDict.get k (array a) = Some x /\
                            OrderedDict.get k (array b) = Some y /\
                            np_dot x y = OK z /\ np_ndim z = n /\
                            OrderedDict.get k data = Some z).
    { intros k Hk. destruct (Hall k Hk) as [x [y [z [Hx [Hy [Hz Hn]]]]]].
      apply in_map_iff in Hk; destruct Hk as [[k' deg] [Hfst Hin]]; simpl in Hfst; subst k'.
      destruct (store_loop_get _ _ _ _ Hloop) with (k := k) (x := deg) as [v [Hv Hg]];
        [ intros; reflexivity | exact Hin | ].
      unfold f in Hv; simpl in Hv; unfold lookup in Hv; rewrite Hx, Hy in Hv; simpl in Hv.
      rewrite Hz in Hv; inversion Hv; subst v.
      exists x, y, z; auto. }
    destruct (Array_init_total (ensemble a) (Arrays data) None n Hnil) as [c [Hc _]].
    { intros k Hk. destruct (Hdata k Hk) as [x [y [z [_ [_ [_ [Hn Hg]]]]]]].
      exists z; split; [ simpl; unfold lookup; rewrite Hg; reflexivity | exact Hn ]. }
    unfold traced_bind, lift; rewrite Hc, app_nil_r.
    exists c; split; [ reflexivity | ].
    destruct (Array_init_inv _ _ _ _ Hc) as [Hec [_ [Hkeys [Hget _]]]].
    split; [ exact Hec | ].
    split; [ rewrite Hkeys; apply first_occurrences_fresh, Hnd | ].
    intros k Hk. destruct (Hdata k Hk) as [x [y [z [Hx [Hy [Hz [_ Hg]]]]]]].
    destruct (Hget k Hk) as [v [Hv Hgc]].
    simpl in Hv; unfold lookup in Hv; rewrite Hg in Hv; inversion Hv; subst v.
    exists x, y, z; auto.
Qed.

Lemma EnsembleArray_mul_container (e : EnsembleArray T) (other : pyvalue T) :
  np_isscalar other = false ->
  EnsembleArray_mul e other
  = Raise (TypeError "only multiplications with scalars are allowed").
Proof.
  intro Hs; unfold EnsembleArray_mul; rewrite Hs; reflexivity.
Qed.

(** C9, evaluated where the code departs from it.  [EnsembleArray] rejects
    every operand that is not a scalar with the [TypeError] on scalar
    multiplication.  [Array] takes the other branch, but there [other[block]]
    on an [Array] operand is [Array.__getitem__]: it indexes every array of
    the operand with the block key, a tuple of strings, and numpy raises an
    [IndexError]; the product of an [Array] with an [Array] is not
    returned. *)
Theorem Array_mul_by_container :
  (forall (e : EnsembleArray T) (other : pyvalue T),
     np_isscalar other = false ->
     EnsembleArray_mul e other
     = Raise (TypeError "only multiplications with scalars are allowed")) /\
  (exists a,
     Array_init one_block (Arrays vector_data) None = OK a /\
     Array_mul a (PyArray a)
     = Raise (IndexError "only integers, slices (`:`), ellipsis (`...`), numpy.newaxis (`None`) and integer or boolean arrays are valid indices")).
Proof.
  split.
  - exact EnsembleArray_mul_container.
  - eexists; split; reflexivity.
Qed.

End ArrayOperations.

Lemma dot_checks_partition_witness :
  Array_init one_block (Arrays Z_vector_data) None = OK Z_vectors /\
  Array_init one_block_again (Arrays Z_vector_data) None = OK Z_vectors_again /\
  dot (PyArray Z_vectors) (PyArray Z_vectors_again)
  = ([], Raise (ValueError "a and b do not share the same ensemble")) /\
  exists c z,
    dot (PyArray Z_vectors) (PyArray Z_vectors) = ([["a"]], OK c) /\
    OrderedDict.get ["a"] (array c) = Some z /\ item z [] = 14%Z.
Proof.
  split; [ reflexivity | split; [ reflexivity | split ] ].
  - apply (dot_checks_partition Z_vectors Z_vectors_again); reflexivity.
  - destruct (dot_checks_partition Z_vectors Z_vectors) as [_ Hsame].
    destruct (Hsame eq_refl) with (n := 0) as [c [Hc [_ [_ Hall]]]].
    + repeat constructor; simpl; tauto.
    + discriminate.
    + intros k [<- | []].
      eexists; eexists; eexists.
      split; [ reflexivity | split; [ reflexivity | split; reflexivity ] ].
    + destruct (Hall ["a"]) as [x [y [z [Hx [Hy [Hz Hg]]]]]]; [ simpl; auto | ].
      inversion Hx; subst x; inversion Hy; subst y.
      exists c, z; split; [ exact Hc | split; [ exact Hg | ] ].
      vm_compute in Hz; inversion Hz; reflexivity.
Defined.

(** C8 fails as stated: two ensembles constructed one after the other from
    the same axes hold the same ordered mapping from block keys to
    degeneracies and the same block list; for the array containers
    constructed over them from the same data, [dot] raises the [ValueError]
    of the mismatch, has read no block, and returns no container of
    products. *)
Lemma dot_equal_mappings_raises :
  exists e1 e2 a b,
    Ensemble_new 0 one_block_axes 1 = OK (e1, 1) /\
    Ensemble_new 1 one_block_axes 1 = OK (e2, 2) /\
    Ensemble_iter e1 = Ensemble_iter e2 /\
    blocks e1 = blocks e2 /\
    Array_init e1 (Arrays Z_vector_data) None = OK a /\
    Array_init e2 (Arrays Z_vector_data) None = OK b /\
    dot (PyArray a) (PyArray b)
    = ([], Raise (ValueError "a and b do not share the same ensemble")) /\
    ~ (exists c, snd (dot (PyArray a) (PyArray b)) = OK c).
Proof.
  eexists; eexists; eexists; eexists.
  split; [ reflexivity | split; [ reflexivity | ] ].
  split; [ reflexivity | split; [ reflexivity | ] ].
  split; [ reflexivity | split; [ reflexivity | ] ].
  split; [ reflexivity | ].
  intros [c Hc]; discriminate Hc.
Qed.

Lemma Array_mul_by_container_witness :
  np_isscalar (PyArray Z_vectors) = false /\
  EnsembleArray_mul Z_vectors (PyArray Z_vectors)
  = Raise (TypeError "only multiplications with scalars are allowed").
Proof.
  split; [ reflexivity | ].
  apply (proj1 (@Array_mul_by_container Z Z_Numeric Z_External)); reflexivity.
Defined.

(** With a scalar container as the other operand the general variant does
    return the per-block product. *)
Lemma Array_mul_by_scalar_container :
  exists s r m,
    Scalar_init one_block [(["a"], SvNum 2%Z)] None = OK s /\
    Array_mul Z_vectors (PyScalar s) = OK r /\
    OrderedDict.get ["a"] (array r) = Some m /\
    shape m = [3] /\ tolist m = [2; 4; 6]%Z.
Proof.
  eexists; eexists; eexists.
  split; [ reflexivity | split; [ reflexivity | ] ].
  split; [ reflexivity | split; reflexivity ].
Qed.

(** ** Negation of a scalar container *)

Section ScalarNegation.
Context {T : Type} `{Numeric T}.

(** C10, as the code has it.  Negation of a scalar container never returns:
    when a block holds [None] the loop raises a [TypeError] on that block
    before the name [Array] is evaluated, and when every block holds a number
    the evaluation of [Array], which scalar.py does not bind, raises the
    [NameError]. *)
Theorem Scalar_neg_never_returns (s : Scalar T) :
  (forall r, Scalar_neg s <> OK r) /\
  (Forall (fun kv : block * option T => snd kv <> None) (OrderedDict.items (scalar s)) ->
   Scalar_neg s = Raise (NameError "name 'Array' is not defined")) /\
  (Exists (fun kv : block * option T => snd kv = None) (OrderedDict.items (scalar s)) ->
   Scalar_neg s = Raise (TypeError "bad operand type for unary -: 'NoneType'")).
Proof.
  unfold Scalar_neg.
  set (loop := for_each (store (fun ba : block * option T => py_neg (snd ba)))
                 (OrderedDict.items (scalar s)) OrderedDict.empty).
  split; [ | split ].
  - intros r Hr. destruct loop as [data | e]; simpl in Hr; discriminate.
  - intro Hall.
    destruct (store_loop_total (fun ba : block * option T => py_neg (snd ba))
                (OrderedDict.items (scalar s)) OrderedDict.empty) as [data Hd].
    { intros [k v] Hin. rewrite Forall_forall in Hall. specialize (Hall _ Hin).
      simpl in *. destruct v as [x | ]; [ simpl; eauto | congruence ]. }
    unfold loop; rewrite Hd; reflexivity.
  - intro Hex.
    destruct (store_loop_raise (fun ba : block * option T => py_neg (snd ba))
                (OrderedDict.items (scalar s)) OrderedDict.empty
                (fun e => e = TypeError "bad operand type for unary -: 'NoneType'"))
      as [e [He HP]].
    + intros [k [x | ]] _; simpl; [ left; eauto | right; eauto ].
    + apply Exists_exists in Hex; destruct Hex as [[k v] [Hin Hv]]; simpl in Hv; subst v.
      exists (k, None); split; [ exact Hin | simpl; eauto ].
    + unfold loop; rewrite He, HP; reflexivity.
Qed.

End ScalarNegation.

Lemma Scalar_neg_never_returns_witness :
  exists s,
    Scalar_init one_block [(["a"], SvNum 2%Z)] None = OK s /\
    Scalar_neg s = Raise (NameError "name 'Array' is not defined").
Proof.
  eexists; split; [ reflexivity | ].
  apply Scalar_neg_never_returns.
  repeat constructor; discriminate.
Defined.

(** C10 fails as stated: on a container whose block holds [None], which the
    constructor stores as it is, negation raises a [TypeError], not a
    [NameError]. *)
Lemma Scalar_neg_None_TypeError :
  exists s : Scalar Z,
    Scalar_init one_block none_data None = OK s /\
    Scalar_neg s = Raise (TypeError "bad operand type for unary -: 'NoneType'") /\
    Scalar_neg s <> Raise (NameError "name 'Array' is not defined").
Proof.
  eexists; split; [ reflexivity | split; [ reflexivity | discriminate ] ].
Qed.

(** * Further properties *)

(** ** More on loops and dictionaries *)

Lemma map_result_app_raise {X Y : Type} (f : X -> result Y) (pre post : list X)
  (x : X) (ys : list Y) (e : exn) :
  map_result f pre = OK ys -> f x = Raise e ->
  map_result f (pre ++ x :: post) = Raise e.
Proof.
  revert ys; induction pre as [ | p pre IH ]; simpl; intros ys Hp Hx.
  - rewrite Hx; reflexivity.
  - destruct (f p) as [y | e']; simpl in *; [ | discriminate ].
    destruct (map_result f pre) as [ys' | e']; simpl in *; [ | discriminate ].
    rewrite (IH ys' eq_refl Hx); reflexivity.
Qed.

Lemma for_each_app {X S : Type} (body : X -> S -> result S) (xs ys : list X) (acc : S) :
  for_each body (xs ++ ys) acc = (acc' <- for_each body xs acc ;; for_each body ys acc').
Proof.
  revert acc; induction xs as [ | x xs IH ]; simpl; intro acc; [ reflexivity | ].
  destruct (body x acc); simpl; auto.
Qed.

Lemma get_of_In {V : Type} (d : odict V) (k : list string) (v : V) :
  NoDup (OrderedDict.keys d) -> In (k, v) d -> OrderedDict.get k d = Some v.
Proof.
  induction d as [ | [k0 v0] d IH ]; simpl; intros Hnd Hin; [ contradiction | ].
  inversion Hnd as [ | k' l Hk Hnd' ]; subst.
  destruct Hin as [Heq | Hin].
  - inversion Heq; subst. destruct (eq_dec k k); congruence.
  - destruct (eq_dec k k0) as [-> | _]; [ | auto ].
    exfalso; apply Hk. change k0 with (fst (k0, v)); apply in_map, Hin.
Qed.

Lemma In_of_get {V : Type} (d : odict V) (k : list string) (v : V) :
  OrderedDict.get k d = Some v -> In (k, v) d.
Proof.
  induction d as [ | [k0 v0] d IH ]; simpl; intro Hg; [ discriminate | ].
  destruct (eq_dec k k0) as [-> | _]; [ inversion Hg; auto | auto ].
Qed.

Lemma product_nil {A : Type} (ls : list (list A)) :
  product ls = [] <-> Exists (fun l => l = []) ls.
Proof.
  induction ls as [ | l ls IH ]; simpl.
  - split; [ discriminate | intro He; inversion He ].
  - split.
    + intro Hp. destruct l as [ | a l ]; [ left; reflexivity | ].
      right; apply IH.
      destruct (product ls) as [ | p ps ]; [ reflexivity | ].
      simpl in Hp; discriminate.
    + intro He; inversion He as [ l0 ls0 Hl | l0 ls0 Hls ]; subst.
      * reflexivity.
      * apply IH in Hls; rewrite Hls.
        clear; induction l as [ | a l IHl ]; simpl; auto.
Qed.

Lemma first_occurrences_nil (l : list (list string)) :
  first_occurrences l = [] <-> l = [].
Proof.
  split; [ | intros ->; reflexivity ].
  intro Hf; destruct l as [ | k l ]; [ reflexivity | ].
  exfalso.
  assert (Hin : In k (first_occurrences (k :: l)))
    by (unfold first_occurrences; apply fold_add_key_In; right; simpl; auto).
  rewrite Hf in Hin; contradiction.
Qed.

Lemma sorted_nil (l : list (list string)) : sorted l = [] <-> l = [].
Proof.
  split; [ | intros ->; reflexivity ].
  intro Hs; pose proof (sorted_perm l) as Hp; rewrite Hs in Hp.
  apply Permutation_nil in Hp; exact Hp.
Qed.

(** ** The ensemble on any accepted specification *)

(** X1.  For every specification the constructor accepts, repeated labels
    included, the [blocks] list holds one entry per element of the Cartesian
    product, so its length is the product of the axis sizes; it is a sorted
    permutation of that product; iteration yields every key once; and the
    keys iterated are the keys listed. *)
Theorem Ensemble_blocks_cover_product (self : nat) (args : list axis_arg) (dd : Z)
  (fmt : list (list (string * Z))) :
  map_result (format_arg dd) args = OK fmt ->
  exists e,
    Ensemble_init self args dd = OK e /\
    length (blocks e) = fold_right Nat.mul 1 (map axis_size args) /\
    Permutation (blocks e) (product (map (map fst) fmt)) /\
    Sorted block_le (blocks e) /\
    NoDup (map fst (Ensemble_iter e)) /\
    (forall k, In k (map fst (Ensemble_iter e)) <-> In k (blocks e)) /\
    length (Ensemble_iter e) <= length (blocks e).
Proof.
  intro Hf.
  eexists; split; [ apply Ensemble_init_formatted, Hf | ].
  unfold Ensemble_iter, OrderedDict.items; simpl.
  set (D := snd (fold_left (fun st bd => add_block bd st) (product fmt)
                   ([], OrderedDict.empty))).
  assert (Hkeys : map fst D = first_occurrences (product (map (map fst) fmt))).
  { change (map fst D) with (OrderedDict.keys D). unfold D.
    rewrite degeneracy_keys, product_map; reflexivity. }
  assert (Hperm : Permutation (sorted (map (map fst) (product fmt)))
                    (product (map (map fst) fmt))).
  { rewrite product_map; apply sorted_perm. }
  assert (Hin : forall k, In k (map fst D) <-> In k (sorted (map (map fst) (product fmt)))).
  { intro k; rewrite Hkeys. unfold first_occurrences; rewrite fold_add_key_In; simpl.
    split.
    - intros [[] | Hk]. apply Permutation_in with (1 := Permutation_sym Hperm), Hk.
    - intro Hk; right. apply Permutation_in with (1 := Hperm), Hk. }
  assert (Hnd : NoDup (map fst D)) by (rewrite Hkeys; apply first_occurrences_NoDup).
  split.
  { rewrite (Permutation_length Hperm).
    rewrite (@product_length string (map (map fst) fmt)), map_map.
    rewrite <- (format_args_sizes _ _ _ Hf).
    f_equal; apply map_ext; intro ax; apply length_map. }
  split; [ exact Hperm | ].
  split; [ apply sorted_Sorted | ].
  split; [ exact Hnd | ].
  split; [ exact Hin | ].
  rewrite <- (length_map fst D).
  apply NoDup_incl_length; [ exact Hnd | ].
  intros k Hk; apply Hin, Hk.
Qed.

Lemma Ensemble_blocks_cover_product_witness :
  exists e,
    Ensemble_init 0 repeated_axes 1 = OK e /\
    length (blocks e) = 3 /\
    length (Ensemble_iter e) <= length (blocks e).
Proof.
  destruct (Ensemble_blocks_cover_product 0 repeated_axes 1 repeated_formatted eq_refl)
    as [e [He [Hlen [_ [_ [_ [_ Hle]]]]]]].
  exists e; split; [ exact He | split; [ exact Hlen | exact Hle ] ].
Defined.

(** X2.  An accepted specification gives an ensemble without blocks exactly
    when one of its axes supplies no label: then the iteration and the
    [blocks] list are both empty, otherwise neither is. *)
Theorem Ensemble_empty_iff_empty_axis (self : nat) (args : list axis_arg) (dd : Z)
  (fmt : list (list (string * Z))) :
  map_result (format_arg dd) args = OK fmt ->
  exists e,
    Ensemble_init self args dd = OK e /\
    (Ensemble_iter e = [] <-> Exists (fun arg => axis_size arg = 0) args) /\
    (blocks e = [] <-> Exists (fun arg => axis_size arg = 0) args).
Proof.
  intro Hf.
  eexists; split; [ apply Ensemble_init_formatted, Hf | ].
  unfold Ensemble_iter, OrderedDict.items; simpl.
  set (D := snd (fold_left (fun st bd => add_block bd st) (product fmt)
                   ([], OrderedDict.empty))).
  assert (Hkeys : map fst D = first_occurrences (product (map (map fst) fmt))).
  { change (map fst D) with (OrderedDict.keys D). unfold D.
    rewrite degeneracy_keys, product_map; reflexivity. }
  assert (Hax : product (map (map fst) fmt) = []
                <-> Exists (fun arg => axis_size arg = 0) args).
  { rewrite product_nil.
    pose proof (format_args_sizes _ _ _ Hf) as Hsz.
    clear - Hsz. revert args Hsz.
    induction fmt as [ | ax fmt IH ]; intros [ | arg args ] Hsz; simpl in *;
      try discriminate.
    - split; intro He; inversion He.
    - inversion Hsz as [[Hlen Hrest]].
      split; intro He; inversion He as [ l0 ls0 Hl | l0 ls0 Hls ]; subst.
      + left. rewrite <- Hlen. apply map_eq_nil in Hl; subst; reflexivity.
      + right; apply (IH args Hrest), Hls.
      + left. rewrite <- Hlen in Hl. apply length_zero_iff_nil in Hl; subst; reflexivity.
      + right; apply (IH args Hrest), Hls. }
  split.
  - rewrite <- Hax, <- first_occurrences_nil, <- Hkeys.
    split; [ intros ->; reflexivity | apply map_eq_nil ].
  - rewrite <- Hax, <- product_map; apply sorted_nil.
Qed.

Lemma Ensemble_empty_iff_empty_axis_witness :
  exists e, Ensemble_init 0 empty_axes 1 = OK e /\ Ensemble_iter e = [] /\ blocks e = [].
Proof.
  destruct (Ensemble_empty_iff_empty_axis 0 empty_axes 1 empty_formatted eq_refl)
    as [e [He [Hi Hb]]].
  exists e; split; [ exact He | ].
  split; [ apply Hi | apply Hb ]; right; left; reflexivity.
Defined.

(** X3.  The constructor raises the error of the first argument that is not
    well formed: after well-formed arguments, an argument that cannot be
    iterated raises the [TypeError] on the block specifier, and an argument
    whose first ill-formed element is a tuple of a length other than two
    raises a [ValueError]. *)
Theorem Ensemble_init_first_error (self : nat) (pre post : list axis_arg) (dd : Z)
  (fpre : list (list (string * Z))) :
  map_result (format_arg dd) pre = OK fpre ->
  Ensemble_init self (pre ++ NotIterable :: post) dd
  = Raise (TypeError "block specifier not iterable") /\
  forall (els1 els2 : list element) (objs : list pyobj) (f1 : list (string * Z)),
    map_result (format_element dd) els1 = OK f1 ->
    length objs <> 2 ->
    Ensemble_init self (pre ++ Iterable (els1 ++ Tuple objs :: els2) :: post) dd
    = Raise (ValueError "Invalid tuple length specifying (block, degeneracy)").
Proof.
  intro Hpre; split.
  - unfold Ensemble_init.
    rewrite (map_result_app_raise _ pre post NotIterable fpre _ Hpre eq_refl); reflexivity.
  - intros els1 els2 objs f1 H1 Hlen.
    unfold Ensemble_init.
    rewrite (map_result_app_raise _ pre post _ fpre
               (ValueError "Invalid tuple length specifying (block, degeneracy)") Hpre);
      [ reflexivity | ].
    simpl. apply (map_result_app_raise _ els1 els2 _ f1 _ H1).
    simpl. destruct objs as [ | o0 [ | o1 [ | o2 objs ] ] ]; simpl in Hlen;
      try reflexivity; congruence.
Qed.

Lemma Ensemble_init_first_error_witness :
  Ensemble_init 0 not_iterable_axes 1
  = Raise (TypeError "block specifier not iterable") /\
  Ensemble_init 0 bad_tuple_axes 1
  = Raise (ValueError "Invalid tuple length specifying (block, degeneracy)").
Proof.
  split.
  - apply (Ensemble_init_first_error 0 [Iterable [label "a"]] [] 1 [[("a", 1%Z)]] eq_refl).
  - refine (proj2 (Ensemble_init_first_error 0 [] [] 1 [] eq_refl)
              [label "a"] [] _ [("a", 1%Z)] eq_refl _).
    simpl; discriminate.
Defined.

Lemma store_loop_last {X V : Type} (f : list string * X -> result V)
  (l1 l2 : list (list string * X)) (kx : list string * X) (acc d : odict V) :
  for_each (store f) (l1 ++ kx :: l2) acc = OK d ->
  ~ In (fst kx) (map fst l2) ->
  exists v, f kx = OK v /\ OrderedDict.get (fst kx) d = Some v.
Proof.
  intros Hd Hn. rewrite for_each_app in Hd.
  apply bind_OK_inv in Hd; destruct Hd as [acc1 [_ Hd]].
  simpl in Hd. apply bind_OK_inv in Hd; destruct Hd as [acc2 [Hs Hd]].
  unfold store in Hs. destruct (f kx) as [v | e]; simpl in Hs; [ | discriminate ].
  inversion Hs; subst acc2.
  exists v; split; [ reflexivity | ].
  rewrite (store_loop_get_other _ _ _ _ _ Hd Hn).
  apply get_set_same.
Qed.

(** X4.  When the product yields a block key more than once, the degeneracy
    the ensemble keeps for it is the one computed at its last occurrence. *)
Theorem Ensemble_last_degeneracy (self : nat) (args : list axis_arg) (dd : Z)
  (fmt : list (list (string * Z))) (l1 l2 : list (list (string * Z)))
  (bd : list (string * Z)) :
  map_result (format_arg dd) args = OK fmt ->
  product fmt = l1 ++ bd :: l2 ->
  ~ In (map fst bd) (map (map fst) l2) ->
  exists e,
    Ensemble_init self args dd = OK e /\
    OrderedDict.get (map fst bd) (degeneracy e)
    = Some (fold_left Z.mul (map snd bd) 1%Z).
Proof.
  intros Hf Hp Hn.
  eexists; split; [ apply Ensemble_init_formatted, Hf | ]; simpl.
  pose proof (add_block_fold_snd (product fmt) ([], OrderedDict.empty)) as Hs.
  rewrite Hp, map_app in Hs; simpl in Hs.
  destruct (store_loop_last _ _ _ _ _ _ Hs) as [v [Hv Hg]].
  - simpl. rewrite map_map; simpl. exact Hn.
  - simpl in Hv; inversion Hv; subst v. rewrite Hp; exact Hg.
Qed.

Lemma Ensemble_last_degeneracy_witness :
  exists e,
    Ensemble_init 0 repeated_axes 1 = OK e /\
    OrderedDict.get ["a"] (degeneracy e) = Some 2%Z.
Proof.
  apply (Ensemble_last_degeneracy 0 repeated_axes 1 repeated_formatted
           [[("a", 1%Z)]; [("b", 5%Z)]] [] [("a", 2%Z)] eq_refl eq_refl).
  simpl; tauto.
Defined.

(** ** The constructor of the array containers *)

Lemma for_each_ext_in {X S : Type} (body body' : X -> S -> result S) (xs : list X) (acc : S) :
  (forall x a, In x xs -> body x a = body' x a) ->
  for_each body xs acc = for_each body' xs acc.
Proof.
  revert acc; induction xs as [ | x xs IH ]; simpl; intros acc Hb; [ reflexivity | ].
  rewrite (Hb x acc (or_introl eq_refl)).
  destruct (body' x acc); simpl; auto.
Qed.

Lemma get_In_values {V : Type} (d : odict V) (k : list string) (v : V) :
  OrderedDict.get k d = Some v -> In v (OrderedDict.values d).
Proof.
  intro Hg; apply In_of_get in Hg.
  change v with (snd (k, v)); apply in_map, Hg.
Qed.

Section ArrayConstructor.
Context {T : Type} `{Numeric T}.

Lemma read_source_KeyError (src : block_data T) (b : list string) (e : exn) :
  read_source src b = Raise e -> exists msg, e = KeyError msg.
Proof.
  destruct src as [data | data tag]; simpl; unfold lookup, key_error.
  - destruct (OrderedDict.get b data); intro Hr; inversion Hr; eauto.
  - destruct (OrderedDict.get b data) as [m | ]; simpl;
      [ | intro Hr; inversion Hr; eauto ].
    unfold lookup_tag; destruct (OrderedDict.get tag m); intro Hr; inversion Hr; eauto.
Qed.

(** X5.  When the data has no entry for a block of the ensemble, or with a
    tag no such tag in the block's entry, the constructor raises a
    [KeyError]. *)
Theorem Array_init_missing_entry (ens : Ensemble) (dtype : option (T -> T))
  (b : list string) :
  In b (map fst (Ensemble_iter ens)) ->
  (forall data : odict (ndarray T),
     OrderedDict.get b data = None ->
     exists msg, Array_init ens (Arrays data) dtype = Raise (KeyError msg)) /\
  (forall (data : odict (OrderedDict.t string (ndarray T))) (tag : string),
     OrderedDict.get b data = None \/
     (exists m, OrderedDict.get b data = Some m /\ OrderedDict.get tag m = None) ->
     exists msg, Array_init ens (TaggedArrays data tag) dtype = Raise (KeyError msg)).
Proof.
  intro Hb.
  assert (Hgen : forall src : block_data T,
            (exists e, read_source src b = Raise e) ->
            exists msg, Array_init ens src dtype = Raise (KeyError msg)).
  { intros src [e0 He0]. rewrite Array_init_loop.
    destruct (store_loop_raise
                (fun bd : list string * Z =>
                   x <- read_source src (fst bd) ;; OK (np_array dtype x))
                (Ensemble_iter ens) OrderedDict.empty
                (fun e => exists msg, e = KeyError msg)) as [e [He [msg Hmsg]]].
    - intros [k deg] _; simpl.
      destruct (read_source src k) as [x | e] eqn:Er; simpl; [ left; eauto | ].
      right; exists e; split; [ reflexivity | apply (read_source_KeyError _ _ _ Er) ].
    - apply in_map_iff in Hb; destruct Hb as [[k deg] [Hfst Hin]]; simpl in Hfst; subst k.
      exists (b, deg); split; [ exact Hin | ]; simpl; rewrite He0; simpl; eauto.
    - rewrite He; simpl; subst e; eauto. }
  split.
  - intros data Hg; apply Hgen; simpl; unfold lookup; rewrite Hg; eauto.
  - intros data tag [Hg | [m [Hg Ht]]]; apply Hgen; simpl; unfold lookup; rewrite Hg; simpl.
    + eauto.
    + unfold lookup_tag; rewrite Ht; eauto.
Qed.

(** X7.  When every block can be read and two blocks hold arrays of
    different numbers of dimensions, the constructor raises the [ValueError]
    on the dimensions. *)
Theorem Array_init_mixed_ndim (ens : Ensemble) (src : block_data T)
  (dtype : option (T -> T)) (b1 b2 : list string) (x1 x2 : ndarray T) :
  (forall b, In b (map fst (Ensemble_iter ens)) -> exists x, read_source src b = OK x) ->
  In b1 (map fst (Ensemble_iter ens)) -> In b2 (map fst (Ensemble_iter ens)) ->
  read_source src b1 = OK x1 -> read_source src b2 = OK x2 ->
  np_ndim x1 <> np_ndim x2 ->
  Array_init ens src dtype
  = Raise (ValueError "not all arrays have same number of dimensions").
Proof.
  intros Hall H1 H2 Hx1 Hx2 Hne. rewrite Array_init_loop.
  set (f := fun bd : list string * Z =>
              x <- read_source src (fst bd) ;; OK (np_array dtype x)).
  destruct (store_loop_total f (Ensemble_iter ens) OrderedDict.empty) as [arr Hloop].
  { intros [k deg] Hin; unfold f; simpl.
    destruct (Hall k) as [x Hx]; [ apply in_map_iff; exists (k, deg); auto | ].
    rewrite Hx; simpl; eauto. }
  rewrite Hloop; simpl.
  assert (Hin : forall b x, In b (map fst (Ensemble_iter ens)) -> read_source src b = OK x ->
            In (np_ndim x) (np_unique (map np_ndim (OrderedDict.values arr)))).
  { intros b x Hb Hx.
    apply in_map_iff in Hb; destruct Hb as [[k deg] [Hfst Hin]]; simpl in Hfst; subst k.
    destruct (store_loop_get _ _ _ _ Hloop) with (k := b) (x := deg) as [v [Hv Hg]];
      [ intros; reflexivity | exact Hin | ].
    unfold f in Hv; simpl in Hv; rewrite Hx in Hv; simpl in Hv; inversion Hv; subst v.
    unfold np_unique; apply nodup_In.
    rewrite <- (np_ndim_np_array dtype x).
    apply in_map, (get_In_values _ _ _ Hg). }
  pose proof (Hin b1 x1 H1 Hx1) as Hi1; pose proof (Hin b2 x2 H2 Hx2) as Hi2.
  destruct (np_unique (map np_ndim (OrderedDict.values arr))) as [ | n [ | n' l ] ];
    [ contradiction | | reflexivity ].
  destruct Hi1 as [E1 | []], Hi2 as [E2 | []]; congruence.
Qed.

(** X8.  The constructor reads the data at the blocks of the ensemble only:
    two sources that agree there give the same result, whatever else they
    hold. *)
Theorem Array_init_reads_ensemble_blocks (ens : Ensemble) (src src' : block_data T)
  (dtype : option (T -> T)) :
  (forall b, In b (map fst (Ensemble_iter ens)) -> read_source src b = read_source src' b) ->
  Array_init ens src dtype = Array_init ens src' dtype.
Proof.
  intro Hagree; rewrite !Array_init_loop.
  rewrite (for_each_ext_in
             (store (fun bd : list string * Z =>
                       x <- read_source src (fst bd) ;; OK (np_array dtype x)))
             (store (fun bd : list string * Z =>
                       x <- read_source src' (fst bd) ;; OK (np_array dtype x)))).
  - reflexivity.
  - intros [k deg] acc Hin; unfold store; simpl.
    rewrite (Hagree k); [ reflexivity | ].
    apply in_map_iff; exists (k, deg); auto.
Qed.

(** X9.  A container the constructor returned refers to the ensemble it was
    given and holds exactly one array per block key of that ensemble, in the
    order of the ensemble: the array read from the data for that key, cast to
    the dtype; and all its arrays have the number of dimensions the container
    records. *)
Theorem Array_init_invariant (ens : Ensemble) (src : block_data T)
  (dtype : option (T -> T)) (c : Array T) :
  Array_init ens src dtype = OK c ->
  ensemble c = ens /\
  NoDup (OrderedDict.keys (array c)) /\
  OrderedDict.keys (array c) = first_occurrences (map fst (Ensemble_iter ens)) /\
  (forall b, In b (OrderedDict.keys (array c)) <-> In b (map fst (Ensemble_iter ens))) /\
  (forall b a, OrderedDict.get b (array c) = Some a ->
     np_ndim a = ndim c /\
     exists x, read_source src b = OK x /\ a = np_array dtype x).
Proof.
  intro Hc.
  destruct (Array_init_inv _ _ _ _ Hc) as [He [_ [Hkeys [Hget Hnd]]]].
  assert (Hiff : forall b, In b (OrderedDict.keys (array c))
                           <-> In b (map fst (Ensemble_iter ens))).
  { intro b; rewrite Hkeys; unfold first_occurrences; rewrite fold_add_key_In; simpl; tauto. }
  split; [ exact He | ].
  split; [ rewrite Hkeys; apply first_occurrences_NoDup | ].
  split; [ exact Hkeys | ].
  split; [ exact Hiff | ].
  intros b a Hg; split; [ apply (Hnd b a Hg) | ].
  assert (Hb : In b (map fst (Ensemble_iter ens))).
  { apply Hiff. destruct (in_dec eq_dec b (OrderedDict.keys (array c))) as [Hin | Hn]; auto.
    apply get_None_keys in Hn; congruence. }
  destruct (Hget b Hb) as [x [Hx Hgx]].
  exists x; split; [ exact Hx | congruence ].
Qed.

End ArrayConstructor.

Lemma Array_init_missing_entry_witness :
  exists msg,
    Array_init one_block (Arrays (@nil (list string * ndarray Z))) None
    = Raise (KeyError msg).
Proof.
  destruct (Array_init_missing_entry (T := Z) one_block None ["a"] (or_introl eq_refl))
    as [Hplain _].
  apply (Hplain [] eq_refl).
Defined.

Lemma Array_init_mixed_ndim_witness :
  Array_init two_blocks (Arrays Z_mixed_data) None
  = Raise (ValueError "not all arrays have same number of dimensions").
Proof.
  apply (Array_init_mixed_ndim (T := Z) two_blocks (Arrays Z_mixed_data) None
           ["a"] ["b"] (vector [1; 2]%Z) (MkArray [1; 2] (fun _ => 0%Z))).
  - intros b [<- | [<- | []]]; eexists; reflexivity.
  - simpl; auto.
  - simpl; auto.
  - reflexivity.
  - reflexivity.
  - discriminate.
Defined.

Lemma Array_init_reads_ensemble_blocks_witness :
  Array_init one_block (Arrays Z_vector_data) None
  = Array_init one_block (Arrays Z_vector_data_more) None.
Proof.
  apply (Array_init_reads_ensemble_blocks (T := Z)).
  intros b [<- | []]; reflexivity.
Defined.

Lemma Array_init_invariant_witness :
  ensemble Z_vectors = one_block /\
  OrderedDict.keys (array Z_vectors) = [["a"]] /\
  NoDup (OrderedDict.keys (array Z_vectors)).
Proof.
  destruct (Array_init_invariant (T := Z) one_block (Arrays Z_vector_data) None Z_vectors
              eq_refl) as [He [Hnd [Hkeys _]]].
  split; [ exact He | split; [ exact Hkeys | exact Hnd ] ].
Defined.

(** ** Ensembles without blocks *)

Section WithoutBlocks.
Context {T : Type} `{Numeric T}.

(** X6.  Over an ensemble without blocks no array container and no
    tridiagonal container can be constructed, whatever the data: the test on
    the numbers of dimensions finds none and raises its [ValueError].  A
    scalar container, which has no such test, is constructed and is empty. *)
Theorem no_array_container_without_blocks (ens : Ensemble) :
  Ensemble_iter ens = [] ->
  (forall (src : block_data T) (dtype : option (T -> T)),
     Array_init ens src dtype
     = Raise (ValueError "not all arrays have same number of dimensions")) /\
  (forall (data : odict (OrderedDict.t string (ndarray T))) (dtag otag : string)
          (dtype : option (T -> T)),
     EnsembleTriDiag_init ens data dtag otag dtype
     = Raise (ValueError "not all arrays have same number of dimensions")) /\
  (forall (data : odict (@scalar_value T)) (dtype : option (T -> T)),
     Scalar_init ens data dtype = OK {| sc_ensemble := ens; scalar := [] |}).
Proof.
  intro Hnil.
  assert (Harr : forall (src : block_data T) (dtype : option (T -> T)),
            Array_init ens src dtype
            = Raise (ValueError "not all arrays have same number of dimensions")).
  { intros src dtype; rewrite Array_init_loop, Hnil; reflexivity. }
  split; [ exact Harr | split ].
  - intros data dtag otag dtype; unfold EnsembleTriDiag_init, EnsembleArray_init.
    rewrite Harr; reflexivity.
  - intros data dtype; unfold Scalar_init; rewrite Hnil; reflexivity.
Qed.

End WithoutBlocks.

Lemma no_array_container_without_blocks_witness :
  Ensemble_init 0 empty_axes 1 = OK no_blocks /\
  Array_init no_blocks (Arrays Z_vector_data) None
  = Raise (ValueError "not all arrays have same number of dimensions").
Proof.
  split; [ reflexivity | ].
  apply (no_array_container_without_blocks (T := Z) no_blocks eq_refl).
Defined.

(** ** Operations that rebuild a container block by block *)

Section BlockwiseOperations.
Context {T : Type} `{Numeric T}.

(** A loop over the items of a constructed container followed by the
    constructor call on what it stored. *)
Lemma items_loop_Array_init (ens : Ensemble) (src : block_data T)
  (dtype : option (T -> T)) (a : Array T)
  (f : list string * ndarray T -> result (ndarray T)) (n : nat) :
  Array_init ens src dtype = OK a ->
  (forall k x, OrderedDict.get k (array a) = Some x ->
     exists m, f (k, x) = OK m /\ np_ndim m = n) ->
  exists data r,
    for_each (store f) (OrderedDict.items (array a)) OrderedDict.empty = OK data /\
    Array_init (ensemble a) (Arrays data) None = OK r /\
    ensemble r = ensemble a /\
    ndim r = n /\
    OrderedDict.keys (array r) = OrderedDict.keys (array a) /\
    forall k x, OrderedDict.get k (array a) = Some x ->
      exists m, f (k, x) = OK m /\ OrderedDict.get k (array r) = Some m.
Proof.
  intros Ha Hf.
  destruct (Array_init_inv _ _ _ _ Ha) as [He [Hne [Hkeys [Hget _]]]].
  assert (Hnd : NoDup (OrderedDict.keys (array a)))
    by (rewrite Hkeys; apply first_occurrences_NoDup).
  destruct (store_loop_total f (OrderedDict.items (array a)) OrderedDict.empty)
    as [data Hloop].
  { intros [k x] Hin. destruct (Hf k x (get_of_In _ _ _ Hnd Hin)) as [m [Hm _]]; eauto. }
  assert (Hdata : forall k x, OrderedDict.get k (array a) = Some x ->
            exists m, f (k, x) = OK m /\ np_ndim m = n /\ OrderedDict.get k data = Some m).
  { intros k x Hg.
    destruct (store_loop_get _ _ _ _ Hloop) with (k := k) (x := x) as [v [Hv Hgv]].
    - intros k0 x0 x0' Hin Hin'.
      apply (get_of_In _ _ _ Hnd) in Hin; apply (get_of_In _ _ _ Hnd) in Hin'; congruence.
    - apply In_of_get, Hg.
    - destruct (Hf k x Hg) as [m [Hm Hn]].
      rewrite Hm in Hv; inversion Hv; subst v; eauto. }
  rewrite He in *.
  destruct (Array_init_total ens (Arrays data) None n Hne) as [r [Hr Hnr]].
  { intros b Hb. destruct (Hget b Hb) as [x [_ Hg]].
    destruct (Hdata b _ Hg) as [m [_ [Hn Hgd]]].
    exists m; split; [ simpl; unfold lookup; rewrite Hgd; reflexivity | exact Hn ]. }
  exists data, r.
  destruct (Array_init_inv _ _ _ _ Hr) as [Her [_ [Hkr [Hgr _]]]].
  split; [ exact Hloop | split; [ exact Hr | split; [ exact Her | split; [ exact Hnr | ] ] ] ].
  split; [ congruence | ].
  intros k x Hg.
  destruct (Hdata k x Hg) as [m [Hm [_ Hgd]]].
  exists m; split; [ exact Hm | ].
  assert (Hk : In k (map fst (Ensemble_iter ens))).
  { assert (Hin : In k (OrderedDict.keys (array a))).
    { destruct (in_dec eq_dec k (OrderedDict.keys (array a))) as [Hin | Hn]; auto.
      apply get_None_keys in Hn; congruence. }
    rewrite Hkeys in Hin; unfold first_occurrences in Hin.
    apply fold_add_key_In in Hin; simpl in Hin; tauto. }
  destruct (Hgr k Hk) as [y [Hy Hgy]].
  simpl in Hy; unfold lookup in Hy; rewrite Hgd in Hy; inversion Hy; subst y.
  exact Hgy.
Qed.

Lemma tolist_flatten (x : ndarray T) : tolist (flatten x) = tolist x.
Proof.
  unfold tolist, flatten, flat_len; simpl.
  rewrite Nat.mul_1_r. apply map_ext; intro i.
  change (fst (Nat.divmod i 0 0 0)) with (i / 1).
  rewrite Nat.div_1_r; reflexivity.
Qed.

(** X10.  [flatten] of a constructed container returns a container of one
    dimension over the same ensemble and keys; every block has one axis as
    long as the number of elements of the block it comes from, with the same
    elements in row-major order. *)
Theorem Array_flatten_blocks (ens : Ensemble) (src : block_data T)
  (dtype : option (T -> T)) (a : Array T) :
  Array_init ens src dtype = OK a ->
  exists r,
    Array_flatten a = OK r /\
    ensemble r = ensemble a /\
    ndim r = 1 /\
    OrderedDict.keys (array r) = OrderedDict.keys (array a) /\
    forall k x, OrderedDict.get k (array a) = Some x ->
      exists m, OrderedDict.get k (array r) = Some m /\
                shape m = [size (shape x)] /\
                tolist m = tolist x.
Proof.
  intro Ha.
  destruct (items_loop_Array_init ens src dtype a
              (fun ba => OK (flatten (snd ba))) 1 Ha)
    as [data [r [Hloop [Hr [He [Hn [Hk Hall]]]]]]].
  { intros k x _; eexists; split; reflexivity. }
  exists r. unfold Array_flatten; rewrite Hloop; simpl.
  split; [ exact Hr | split; [ exact He | split; [ exact Hn | split; [ exact Hk | ] ] ] ].
  intros k x Hg. destruct (Hall k x Hg) as [m [Hm Hgm]].
  simpl in Hm; inversion Hm; subst m.
  exists (flatten x); split; [ exact Hgm | split; [ reflexivity | apply tolist_flatten ] ].
Qed.

Lemma clamp_bound_empty (b : Z) : clamp_bound 0 b = 0.
Proof.
  unfold clamp_bound; destruct (Z.ltb_spec b 0); lia.
Qed.

Lemma slice_range_empty (start stop : option Z) : snd (slice_range 0 start stop) = 0.
Proof.
  unfold slice_range; destruct start, stop; simpl snd;
    rewrite ?clamp_bound_empty; reflexivity.
Qed.

(** X11.  Indexing a constructed container of one dimension with a slice
    never raises: the result is a container of one dimension over the same
    ensemble and keys, every block holds the slice of the block it comes
    from, and an empty block stays empty. *)
Theorem Array_getitem_slice_1d (ens : Ensemble) (src : block_data T)
  (dtype : option (T -> T)) (a : Array T) (start stop : option Z) :
  Array_init ens src dtype = OK a ->
  ndim a = 1 ->
  exists r,
    Array_getitem a (Single (BSlice start stop)) = OK r /\
    ensemble r = ensemble a /\
    ndim r = 1 /\
    OrderedDict.keys (array r) = OrderedDict.keys (array a) /\
    forall k x, OrderedDict.get k (array a) = Some x ->
      exists m n, shape x = [n] /\
                  OrderedDict.get k (array r) = Some m /\
                  shape m = [snd (slice_range n start stop)] /\
                  (0 < n -> forall j, item m [j] = item x [fst (slice_range n start stop) + j]).
Proof.
  intros Ha Hnd.
  destruct (Array_init_inv _ _ _ _ Ha) as [_ [_ [_ [_ Hdim]]]].
  set (f := fun ba : list string * ndarray T =>
              n <- np_len (snd ba) ;;
              if 0 <? n then np_getitem (snd ba) (Single (BSlice start stop))
              else OK (np_empty (ndim a * 0))).
  assert (Hf : forall k x, OrderedDict.get k (array a) = Some x ->
            exists m n, shape x = [n] /\ f (k, x) = OK m /\
                        shape m = [snd (slice_range n start stop)] /\
                        (0 < n -> forall j,
                           item m [j] = item x [fst (slice_range n start stop) + j])).
  { intros k x Hg. pose proof (Hdim k x Hg) as Hx. rewrite Hnd in Hx.
    unfold np_ndim in Hx. destruct (shape x) as [ | n [ | n' s ] ] eqn:Es;
      simpl in Hx; try discriminate.
    assert (Hfx : f (k, x)
                  = if 0 <? n then np_getitem x (Single (BSlice start stop))
                    else OK (np_empty (ndim a * 0)))
      by (unfold f, np_len; simpl; rewrite Es; reflexivity).
    destruct n as [ | n ].
    - exists (np_empty (ndim a * 0)), 0; rewrite Hfx.
      split; [ reflexivity | split; [ reflexivity | ] ].
      split; [ rewrite Hnd, slice_range_empty; reflexivity | intro; lia ].
    - assert (Hgi : np_getitem x (Single (BSlice start stop))
                    = OK (MkArray [snd (slice_range (S n) start stop)]
                            (fun idx => item x (index_map [BSlice start stop] [S n] idx))))
        by (unfold np_getitem; simpl; rewrite Es; reflexivity).
      eexists; exists (S n); rewrite Hfx, Hgi.
      split; [ reflexivity | split; [ reflexivity | ] ].
      split; [ reflexivity | intros _ j; reflexivity ]. }
  destruct (items_loop_Array_init ens src dtype a f 1 Ha)
    as [data [r [Hloop [Hr [He [Hn [Hk Hall]]]]]]].
  { intros k x Hg. destruct (Hf k x Hg) as [m [n [_ [Hm [Hs _]]]]].
    exists m; split; [ exact Hm | unfold np_ndim; rewrite Hs; reflexivity ]. }
  exists r. unfold Array_getitem. fold f. rewrite Hloop; simpl.
  split; [ exact Hr | split; [ exact He | split; [ exact Hn | split; [ exact Hk | ] ] ] ].
  intros k x Hg.
  destruct (Hf k x Hg) as [m [n [Hx [Hm [Hs Hi]]]]].
  destruct (Hall k x Hg) as [m' [Hm' Hgm]].
  rewrite Hm in Hm'; inversion Hm'; subst m'.
  exists m, n; auto.
Qed.

(** X12.  [transpose] accepts only an [Array] and raises a [TypeError] on any
    other operand.  On a constructed container it returns a container over
    the same ensemble and keys with the same number of dimensions, in which
    every block has the shape of the original reversed and holds at every
    index the element the original holds at the reversed index; and
    transposing that result gives back, block by block, an array of the
    shape and elements of the original. *)
Theorem transpose_involutive (ens : Ensemble) (src : block_data T)
  (dtype : option (T -> T)) (a : Array T) :
  Array_init ens src dtype = OK a ->
  (forall v : pyvalue T, (forall c, v <> PyArray c) ->
     transpose v = Raise (TypeError "input needs to be an ensemble.Array")) /\
  exists r1 r2,
    transpose (PyArray a) = OK r1 /\
    transpose (PyArray r1) = OK r2 /\
    ensemble r1 = ensemble a /\ ensemble r2 = ensemble a /\
    ndim r1 = ndim a /\ ndim r2 = ndim a /\
    OrderedDict.keys (array r1) = OrderedDict.keys (array a) /\
    OrderedDict.keys (array r2) = OrderedDict.keys (array a) /\
    forall k x, OrderedDict.get k (array a) = Some x ->
      exists y z,
        OrderedDict.get k (array r1) = Some y /\ shape y = rev (shape x) /\
        (forall idx, item y idx = item x (rev idx)) /\
        OrderedDict.get k (array r2) = Some z /\ shape z = shape x /\
        forall idx, item z idx = item x idx.
Proof.
  intro Ha. split.
  { intros v Hv; destruct v; try reflexivity. exfalso; apply (Hv c); reflexivity. }
  destruct (Array_init_inv _ _ _ _ Ha) as [_ [_ [_ [_ Hdim]]]].
  destruct (items_loop_Array_init ens src dtype a
              (fun ba => OK (np_transpose (snd ba))) (ndim a) Ha)
    as [d1 [r1 [Hl1 [Hr1 [He1 [Hn1 [Hk1 Hall1]]]]]]].
  { intros k x Hg; eexists; split; [ reflexivity | ].
    unfold np_ndim, np_transpose; simpl; rewrite length_rev; apply (Hdim k x Hg). }
  destruct (Array_init_inv _ _ _ _ Hr1) as [_ [_ [_ [_ Hdim1]]]].
  destruct (items_loop_Array_init (ensemble a) (Arrays d1) None r1
              (fun ba => OK (np_transpose (snd ba))) (ndim a) Hr1)
    as [d2 [r2 [Hl2 [Hr2 [He2 [Hn2 [Hk2 Hall2]]]]]]].
  { intros k x Hg; eexists; split; [ reflexivity | ].
    unfold np_ndim, np_transpose; simpl; rewrite length_rev.
    rewrite <- Hn1; apply (Hdim1 k x Hg). }
  exists r1, r2. unfold transpose; rewrite Hl1; simpl.
  split; [ exact Hr1 | ]. rewrite Hl2; simpl.
  split; [ exact Hr2 | split; [ congruence | split; [ congruence | ] ] ].
  split; [ exact Hn1 | split; [ exact Hn2 | ] ].
  split; [ congruence | split; [ congruence | ] ].
  intros k x Hg.
  destruct (Hall1 k x Hg) as [y [Hy Hgy]]; simpl in Hy; inversion Hy; subst y.
  destruct (Hall2 k _ Hgy) as [z [Hz Hgz]]; simpl in Hz; inversion Hz; subst z.
  exists (np_transpose x), (np_transpose (np_transpose x)).
  split; [ exact Hgy | split; [ reflexivity | split; [ intro idx; reflexivity | ] ] ].
  split; [ exact Hgz | split ].
  - simpl; apply rev_involutive.
  - intro idx; simpl; rewrite rev_involutive; reflexivity.
Qed.

End BlockwiseOperations.

Lemma Array_flatten_blocks_witness :
  exists a r m,
    Array_init one_block (Arrays Z_matrix_data) None = OK a /\
    ndim a = 2 /\
    Array_flatten a = OK r /\
    ndim r = 1 /\
    OrderedDict.get ["a"] (array r) = Some m /\
    shape m = [6] /\ tolist m = [0; 1; 2; 3; 4; 5]%Z.
Proof.
  eexists.
  edestruct (Array_flatten_blocks (T := Z) one_block (Arrays Z_matrix_data) None)
    as [r [Hr [_ [Hn [_ Hall]]]]]; [ reflexivity | ].
  destruct (Hall ["a"] Z_matrix eq_refl) as [m [Hg [Hs Ht]]].
  exists r, m.
  split; [ reflexivity | split; [ reflexivity | split; [ exact Hr | split; [ exact Hn | ] ] ] ].
  split; [ exact Hg | split; [ exact Hs | rewrite Ht; reflexivity ] ].
Defined.

Lemma Array_getitem_slice_1d_witness :
  exists a r m1 m2,
    Array_init two_blocks (Arrays Z_ragged_data) None = OK a /\
    Array_getitem a (Single (BSlice (Some 1%Z) None)) = OK r /\
    OrderedDict.get ["a"] (array r) = Some m1 /\ shape m1 = [2] /\ item m1 [0] = 2%Z /\
    OrderedDict.get ["b"] (array r) = Some m2 /\ shape m2 = [0].
Proof.
  eexists.
  edestruct (Array_getitem_slice_1d (T := Z) two_blocks (Arrays Z_ragged_data) None)
    with (start := Some 1%Z) (stop := @None Z)
    as [r [Hr [_ [_ [_ Hall]]]]]; [ reflexivity | reflexivity | ].
  destruct (Hall ["a"] (vector [1; 2; 3]%Z) eq_refl) as [m1 [n1 [Hx1 [Hg1 [Hs1 Hi1]]]]].
  destruct (Hall ["b"] (vector []) eq_refl) as [m2 [n2 [Hx2 [Hg2 [Hs2 _]]]]].
  inversion Hx1; subst n1; inversion Hx2; subst n2.
  exists r, m1, m2.
  split; [ reflexivity | split; [ exact Hr | ] ].
  split; [ exact Hg1 | split; [ exact Hs1 | ] ].
  split; [ rewrite Hi1 by (simpl; lia); reflexivity | ].
  split; [ exact Hg2 | exact Hs2 ].
Defined.

Lemma transpose_involutive_witness :
  exists a r1 r2 y z,
    Array_init one_block (Arrays Z_matrix_data) None = OK a /\
    transpose (PyArray a) = OK r1 /\
    transpose (PyArray r1) = OK r2 /\
    ensemble r1 = one_block /\
    OrderedDict.keys (array r1) = [["a"]] /\
    OrderedDict.get ["a"] (array r1) = Some y /\ shape y = [3; 2] /\
    item y [2; 1] = 5%Z /\ item y [1; 0] = 1%Z /\
    OrderedDict.get ["a"] (array r2) = Some z /\ shape z = [2; 3] /\
    item z [1; 2] = 5%Z.
Proof.
  eexists.
  edestruct (transpose_involutive (T := Z) one_block (Arrays Z_matrix_data) None)
    as [_ [r1 [r2 [H1 [H2 [He1 [_ [_ [_ [Hk1 [_ Hall]]]]]]]]]]]; [ reflexivity | ].
  destruct (Hall ["a"] Z_matrix eq_refl) as [y [z [Hy [Hsy [Hiy [Hz [Hsz Hi]]]]]]].
  exists r1, r2, y, z.
  split; [ reflexivity | split; [ exact H1 | split; [ exact H2 | ] ] ].
  split; [ exact He1 | split; [ exact Hk1 | ] ].
  split; [ exact Hy | split; [ exact Hsy | ] ].
  split; [ rewrite Hiy; reflexivity | split; [ rewrite Hiy; reflexivity | ] ].
  split; [ exact Hz | split; [ exact Hsz | ] ].
  rewrite Hi; reflexivity.
Defined.

(** ** The checks of [einsum] *)

Lemma nodup_two (l : list nat) (x y : nat) :
  In x l -> In y l -> x <> y -> 1 < length (nodup Nat.eq_dec l).
Proof.
  intros Hx Hy Hne.
  assert (Hincl : incl [x; y] (nodup Nat.eq_dec l)).
  { intros z [<- | [<- | []]]; apply nodup_In; assumption. }
  apply NoDup_incl_length in Hincl; [ simpl in Hincl; lia | ].
  constructor; [ simpl; intuition | constructor; [ simpl; tauto | constructor ] ].
Qed.

Section EinsumChecks.
Context {T : Type} `{Numeric T} `{ExternalEinsum T}.

Lemma check_Array_all (arrays : list (Array T)) :
  map_result check_Array (map PyArray arrays) = OK arrays.
Proof.
  induction arrays as [ | a arrays IH ]; simpl; [ reflexivity | ].
  rewrite IH; reflexivity.
Qed.

(** X13.  [einsum] makes its checks in this order: no operand at all raises
    the [ValueError] that asks for one; otherwise the first operand that is
    not an [Array] raises a [TypeError], whatever the ensembles of the others;
    and operands that are all arrays, two of them over ensembles that compare
    unequal, raise the [ValueError] of the mismatch. *)
Theorem einsum_checks (subscripts : string) (optimize : bool) :
  einsum subscripts [] optimize = Raise (ValueError "need at least one operand") /\
  (forall (pre : list (Array T)) (o : pyvalue T) (post : list (pyvalue T)),
     (forall c, o <> PyArray c) ->
     einsum subscripts (map PyArray pre ++ o :: post) optimize
     = Raise (TypeError "operands need to be ensemble.Array")) /\
  (forall (arrays : list (Array T)) (a b : Array T),
     In a arrays -> In b arrays ->
     Ensemble_ne (ensemble a) (ensemble b) = true ->
     einsum subscripts (map PyArray arrays) optimize
     = Raise (ValueError "operands do not share the same ensemble")).
Proof.
  split; [ reflexivity | split ].
  - intros pre o post Ho. unfold einsum.
    replace (length (map PyArray pre ++ o :: post) =? 0) with false
      by (symmetry; apply Nat.eqb_neq; rewrite length_app; simpl; lia).
    rewrite (map_result_app_raise check_Array (map PyArray pre) post o pre
               (TypeError "operands need to be ensemble.Array") (check_Array_all pre));
      [ reflexivity | ].
    destruct o; try reflexivity. exfalso; apply (Ho c); reflexivity.
  - intros arrays a b Ha Hb Hne. unfold einsum.
    replace (length (map PyArray arrays) =? 0) with false
      by (symmetry; apply Nat.eqb_neq; rewrite length_map;
          destruct arrays; [ contradiction | simpl; lia ]).
    rewrite check_Array_all; simpl.
    replace (1 <? distinct_ensembles (map ensemble arrays)) with true; [ reflexivity | ].
    symmetry; apply Nat.ltb_lt. unfold distinct_ensembles.
    apply nodup_two with (x := ens_id (ensemble a)) (y := ens_id (ensemble b)).
    + rewrite map_map; apply (in_map (fun c => ens_id (ensemble c))), Ha.
    + rewrite map_map; apply (in_map (fun c => ens_id (ensemble c))), Hb.
    + unfold Ensemble_ne, Ensemble_eq in Hne.
      apply Bool.negb_true_iff, Nat.eqb_neq in Hne; exact Hne.
Qed.

End EinsumChecks.

Lemma einsum_checks_witness :
  einsum "i,i->" [PyArray Z_vectors; PyNum 2%Z] false
  = Raise (TypeError "operands need to be ensemble.Array") /\
  einsum "i,i->" [PyArray Z_vectors; PyArray Z_vectors_again] false
  = Raise (ValueError "operands do not share the same ensemble").
Proof.
  destruct (einsum_checks (T := Z) "i,i->" false) as [_ [Htype Hens]].
  split.
  - apply (Htype [Z_vectors] (PyNum 2%Z) []); intros c Hc; discriminate Hc.
  - apply (Hens [Z_vectors; Z_vectors_again] Z_vectors Z_vectors_again);
      [ simpl; auto | simpl; auto | reflexivity ].
Defined.

(** ** The scalar containers *)

Section ScalarContainers.
Context {T : Type} `{Numeric T}.

Lemma Scalar_init_loop (ens : Ensemble) (data : odict (@scalar_value T))
  (dtype : option (T -> T)) :
  Scalar_init ens data dtype
  = (sc <- for_each (store (fun bd : list string * Z =>
                              dt <- lookup data (fst bd) ;; scalar_entry dtype dt))
             (Ensemble_iter ens) OrderedDict.empty ;;
     OK {| sc_ensemble := ens; scalar := sc |}).
Proof.
  unfold Scalar_init; f_equal.
  apply for_each_ext; intros bd acc; unfold store; simpl.
  destruct (lookup data (fst bd)) as [[ | x | a ] | e]; simpl; try reflexivity.
  - destruct dtype; reflexivity.
  - destruct (np_item a); simpl; [ destruct dtype; reflexivity | reflexivity ].
Qed.

Lemma Scalar_init_inv (ens : Ensemble) (data : odict (@scalar_value T))
  (dtype : option (T -> T)) (s : Scalar T) :
  Scalar_init ens data dtype = OK s ->
  sc_ensemble s = ens /\
  OrderedDict.keys (scalar s) = first_occurrences (map fst (Ensemble_iter ens)) /\
  forall b, In b (map fst (Ensemble_iter ens)) ->
    exists dt v, OrderedDict.get b data = Some dt /\
                 scalar_entry dtype dt = OK v /\
                 OrderedDict.get b (scalar s) = Some v.
Proof.
  rewrite Scalar_init_loop; intro Hs.
  apply bind_OK_inv in Hs; destruct Hs as [sc [Hloop Hs]]; inversion Hs; subst s; simpl.
  split; [ reflexivity | ].
  split; [ apply (store_loop_keys _ _ _ _ Hloop) | ].
  intros b Hb.
  apply in_map_iff in Hb; destruct Hb as [[k deg] [Hfst Hin]]; simpl in Hfst; subst k.
  destruct (store_loop_get _ _ _ _ Hloop) with (k := b) (x := deg) as [v [Hv Hg]];
    [ intros; reflexivity | exact Hin | ].
  simpl in Hv; unfold lookup in Hv.
  destruct (OrderedDict.get b data) as [dt | ]; simpl in Hv; [ | discriminate ].
  exists dt, v; auto.
Qed.

Lemma Scalar_init_total (ens : Ensemble) (data : odict (@scalar_value T))
  (dtype : option (T -> T)) :
  (forall b, In b (map fst (Ensemble_iter ens)) ->
     exists dt v, OrderedDict.get b data = Some dt /\ scalar_entry dtype dt = OK v) ->
  exists s, Scalar_init ens data dtype = OK s.
Proof.
  intro Hall; rewrite Scalar_init_loop.
  destruct (store_loop_total
              (fun bd : list string * Z =>
                 dt <- lookup data (fst bd) ;; scalar_entry dtype dt)
              (Ensemble_iter ens) OrderedDict.empty) as [sc Hloop].
  { intros [k deg] Hin; simpl.
    destruct (Hall k) as [dt [v [Hg Hv]]]; [ apply in_map_iff; exists (k, deg); auto | ].
    unfold lookup; rewrite Hg; simpl; eauto. }
  rewrite Hloop; simpl; eauto.
Qed.

(** X14.  A scalar container the constructor returned refers to the ensemble
    it was given and is keyed in its order; for every block it holds [None]
    where the data holds [None], the number (after the dtype) where the data
    holds a number, and the single element where the data holds an array,
    which then has exactly one element.  When every block has an entry and
    some block holds an array of another size, the constructor raises a
    [ValueError]. *)
Theorem Scalar_init_values (ens : Ensemble) (data : odict (@scalar_value T))
  (dtype : option (T -> T)) :
  (forall s, Scalar_init ens data dtype = OK s ->
     sc_ensemble s = ens /\
     OrderedDict.keys (scalar s) = first_occurrences (map fst (Ensemble_iter ens)) /\
     forall b, In b (map fst (Ensemble_iter ens)) ->
       (OrderedDict.get b data = Some SvNone ->
        OrderedDict.get b (scalar s) = Some None) /\
       (forall x, OrderedDict.get b data = Some (SvNum x) ->
        OrderedDict.get b (scalar s) = Some (Some (cast_to dtype x))) /\
       (forall a, OrderedDict.get b data = Some (SvArray a) ->
        size (shape a) = 1 /\
        OrderedDict.get b (scalar s)
        = Some (Some (cast_to dtype (item a (unravel (shape a) 0)))))) /\
  ((forall b, In b (map fst (Ensemble_iter ens)) -> OrderedDict.get b data <> None) ->
   forall b a, In b (map fst (Ensemble_iter ens)) ->
     OrderedDict.get b data = Some (SvArray a) -> size (shape a) <> 1 ->
     exists msg, Scalar_init ens data dtype = Raise (ValueError msg)).
Proof.
  split.
  - intros s Hs. destruct (Scalar_init_inv _ _ _ _ Hs) as [He [Hk Hall]].
    split; [ exact He | split; [ exact Hk | ] ].
    intros b Hb. destruct (Hall b Hb) as [dt [v [Hg [Hv Hgs]]]].
    split; [ | split ].
    + intro Hd; rewrite Hd in Hg; inversion Hg; subst dt.
      simpl in Hv; inversion Hv; subst v; exact Hgs.
    + intros x Hd; rewrite Hd in Hg; inversion Hg; subst dt.
      simpl in Hv; inversion Hv; subst v; exact Hgs.
    + intros a Hd; rewrite Hd in Hg; inversion Hg; subst dt.
      simpl in Hv; unfold np_item in Hv.
      destruct (Nat.eqb_spec (size (shape a)) 1) as [E | E]; simpl in Hv; [ | discriminate ].
      inversion Hv; subst v; auto.
  - intros Hpresent b a Hb Hg Hsz. rewrite Scalar_init_loop.
    destruct (store_loop_raise
                (fun bd : list string * Z =>
                   dt <- lookup data (fst bd) ;; scalar_entry dtype dt)
                (Ensemble_iter ens) OrderedDict.empty
                (fun e => exists msg, e = ValueError msg)) as [e [He [msg Hmsg]]].
    + intros [k deg] Hin; simpl.
      assert (Hk : In k (map fst (Ensemble_iter ens)))
        by (apply in_map_iff; exists (k, deg); auto).
      specialize (Hpresent k Hk). unfold lookup.
      destruct (OrderedDict.get k data) as [[ | x | a' ] | ]; simpl;
        [ left; eauto | left; eauto | | congruence ].
      unfold np_item; destruct (size (shape a') =? 1); simpl; [ left; eauto | right; eauto ].
    + apply in_map_iff in Hb; destruct Hb as [[k deg] [Hfst Hin]]; simpl in Hfst; subst k.
      exists (b, deg); split; [ exact Hin | ]; simpl; unfold lookup; rewrite Hg; simpl.
      unfold np_item.
      replace (size (shape a) =? 1) with false by (symmetry; apply Nat.eqb_neq, Hsz).
      simpl; eauto.
    + rewrite He; simpl; subst e; eauto.
Qed.

(** A loop over the items of a constructed scalar container that stores a
    number for every block, followed by the constructor call. *)
Lemma items_loop_Scalar_init (ens : Ensemble) (data0 : odict (@scalar_value T))
  (dtype : option (T -> T)) (s : Scalar T)
  (f : list string * option T -> result (@scalar_value T)) :
  Scalar_init ens data0 dtype = OK s ->
  (forall k v, OrderedDict.get k (scalar s) = Some v -> exists z, f (k, v) = OK (SvNum z)) ->
  exists data r,
    for_each (store f) (OrderedDict.items (scalar s)) OrderedDict.empty = OK data /\
    Scalar_init (sc_ensemble s) data None = OK r /\
    sc_ensemble r = sc_ensemble s /\
    OrderedDict.keys (scalar r) = OrderedDict.keys (scalar s) /\
    forall k v, OrderedDict.get k (scalar s) = Some v ->
      exists z, f (k, v) = OK (SvNum z) /\ OrderedDict.get k (scalar r) = Some (Some z).
Proof.
  intros Hs Hf.
  destruct (Scalar_init_inv _ _ _ _ Hs) as [He [Hkeys Hget]].
  assert (Hnd : NoDup (OrderedDict.keys (scalar s)))
    by (rewrite Hkeys; apply first_occurrences_NoDup).
  destruct (store_loop_total f (OrderedDict.items (scalar s)) OrderedDict.empty)
    as [data Hloop].
  { intros [k v] Hin. destruct (Hf k v (get_of_In _ _ _ Hnd Hin)) as [z Hz]; eauto. }
  assert (Hdata : forall k v, OrderedDict.get k (scalar s) = Some v ->
            exists z, f (k, v) = OK (SvNum z) /\ OrderedDict.get k data = Some (SvNum z)).
  { intros k v Hg.
    destruct (store_loop_get _ _ _ _ Hloop) with (k := k) (x := v) as [w [Hw Hgw]].
    - intros k0 x0 x0' Hin Hin'.
      apply (get_of_In _ _ _ Hnd) in Hin; apply (get_of_In _ _ _ Hnd) in Hin'; congruence.
    - apply In_of_get, Hg.
    - destruct (Hf k v Hg) as [z Hz].
      rewrite Hz in Hw; inversion Hw; subst w; eauto. }
  rewrite He in *.
  destruct (Scalar_init_total ens data None) as [r Hr].
  { intros b Hb. destruct (Hget b Hb) as [dt [v [_ [_ Hg]]]].
    destruct (Hdata b v Hg) as [z [_ Hgd]].
    exists (SvNum z), (Some z); auto. }
  exists data, r.
  destruct (Scalar_init_inv _ _ _ _ Hr) as [Her [Hkr Hgr]].
  split; [ exact Hloop | split; [ exact Hr | split; [ exact Her | split; [ congruence | ] ] ] ].
  intros k v Hg.
  destruct (Hdata k v Hg) as [z [Hz Hgd]].
  exists z; split; [ exact Hz | ].
  assert (Hk : In k (map fst (Ensemble_iter ens))).
  { assert (Hin : In k (OrderedDict.keys (scalar s))).
    { destruct (in_dec eq_dec k (OrderedDict.keys (scalar s))) as [Hin | Hn]; auto.
      apply get_None_keys in Hn; congruence. }
    rewrite Hkeys in Hin; unfold first_occurrences in Hin.
    apply fold_add_key_In in Hin; simpl in Hin; tauto. }
  destruct (Hgr k Hk) as [dt [w [Hgdt [Hw Hgw]]]].
  rewrite Hgd in Hgdt; inversion Hgdt; subst dt.
  simpl in Hw; inversion Hw; subst w; exact Hgw.
Qed.

(** X15.  Adding a plain number to a constructed scalar container adds it to
    the value of every block and returns a container over the same ensemble
    and keys, provided no block holds [None]; when a block holds [None] the
    addition raises a [TypeError]. *)
Theorem Scalar_add_number (ens : Ensemble) (data0 : odict (@scalar_value T))
  (dtype : option (T -> T)) (s : Scalar T) (y : T) :
  Scalar_init ens data0 dtype = OK s ->
  ((forall k v, OrderedDict.get k (scalar s) = Some v -> v <> None) ->
   exists r,
     Scalar_add s (PyNum y) = OK r /\
     sc_ensemble r = sc_ensemble s /\
     OrderedDict.keys (scalar r) = OrderedDict.keys (scalar s) /\
     forall k x, OrderedDict.get k (scalar s) = Some (Some x) ->
       OrderedDict.get k (scalar r) = Some (Some (add x y))) /\
  (forall k, OrderedDict.get k (scalar s) = Some None ->
   Scalar_add s (PyNum y) = Raise (TypeError "unsupported operand type(s) for +")).
Proof.
  intro Hs; split.
  - intro Hnum.
    destruct (items_loop_Scalar_init ens data0 dtype s
                (fun ba => py_add (snd ba) (PyNum y)) Hs)
      as [data [r [Hloop [Hr [He [Hk Hall]]]]]].
    { intros k [x | ] Hg; simpl; [ eauto | exfalso; apply (Hnum k None Hg); reflexivity ]. }
    exists r. unfold Scalar_add; simpl; rewrite Hloop; simpl.
    split; [ exact Hr | split; [ exact He | split; [ exact Hk | ] ] ].
    intros k x Hg. destruct (Hall k _ Hg) as [z [Hz Hgz]].
    simpl in Hz; inversion Hz; subst z; exact Hgz.
  - intros k Hg. unfold Scalar_add; simpl.
    destruct (store_loop_raise (fun ba : list string * option T => py_add (snd ba) (PyNum y))
                (OrderedDict.items (scalar s)) OrderedDict.empty
                (fun e => e = TypeError "unsupported operand type(s) for +"))
      as [e [He HP]].
    + intros [k0 [x | ]] _; simpl; [ left; eauto | right; eauto ].
    + exists (k, None); split; [ apply In_of_get, Hg | simpl; eauto ].
    + rewrite He, HP; reflexivity.
Qed.

(** X16.  Adding a scalar container to a constructed scalar container pairs
    the values by block key: when both hold a number for every key of the
    first, the result holds the sum of the two numbers of each key, whatever
    the order and the further keys of the second. *)
Theorem Scalar_add_container (ens : Ensemble) (data0 : odict (@scalar_value T))
  (dtype : option (T -> T)) (s other : Scalar T) :
  Scalar_init ens data0 dtype = OK s ->
  (forall k v, OrderedDict.get k (scalar s) = Some v ->
     exists x y, v = Some x /\ OrderedDict.get k (scalar other) = Some (Some y)) ->
  exists r,
    Scalar_add s (PyScalar other) = OK r /\
    sc_ensemble r = sc_ensemble s /\
    OrderedDict.keys (scalar r) = OrderedDict.keys (scalar s) /\
    forall k x y, OrderedDict.get k (scalar s) = Some (Some x) ->
      OrderedDict.get k (scalar other) = Some (Some y) ->
      OrderedDict.get k (scalar r) = Some (Some (add x y)).
Proof.
  intros Hs Hboth.
  set (f := fun ba : list string * option T =>
              v <- py_getitem (PyScalar other) (fst ba) ;; py_add (snd ba) v).
  assert (Hf : forall k x y, OrderedDict.get k (scalar other) = Some (Some y) ->
            f (k, Some x) = OK (SvNum (add x y))).
  { intros k x y Hy; unfold f; simpl; unfold lookup; rewrite Hy; reflexivity. }
  destruct (items_loop_Scalar_init ens data0 dtype s f Hs)
    as [data [r [Hloop [Hr [He [Hk Hall]]]]]].
  { intros k v Hg. destruct (Hboth k v Hg) as [x [y [-> Hy]]].
    rewrite (Hf k x y Hy); eauto. }
  exists r.
  change (Scalar_add s (PyScalar other))
    with (data <- for_each (store f) (OrderedDict.items (scalar s)) OrderedDict.empty ;;
          Scalar_init (sc_ensemble s) data None).
  rewrite Hloop; simpl.
  split; [ exact Hr | split; [ exact He | split; [ exact Hk | ] ] ].
  intros k x y Hg Hy. destruct (Hall k _ Hg) as [z [Hz Hgz]].
  rewrite (Hf k x y Hy) in Hz; inversion Hz; subst z; exact Hgz.
Qed.

End ScalarContainers.

Lemma Scalar_init_values_witness :
  exists s,
    Scalar_init two_blocks Z_scalar_data_None None = OK s /\
    OrderedDict.get ["a"] (scalar s) = Some (Some 4%Z) /\
    OrderedDict.get ["b"] (scalar s) = Some None.
Proof.
  eexists; split; [ reflexivity | ].
  destruct (Scalar_init_values (T := Z) two_blocks Z_scalar_data_None None) as [Hok _].
  destruct (Hok _ eq_refl) as [_ [_ Hall]].
  split.
  - apply (proj1 (proj2 (Hall ["a"] (or_introl eq_refl))) 4%Z); reflexivity.
  - apply (proj1 (Hall ["b"] (or_intror (or_introl eq_refl)))); reflexivity.
Defined.

Lemma Scalar_add_number_witness :
  exists s r,
    Scalar_init two_blocks Z_scalar_data None = OK s /\
    Scalar_add s (PyNum 10%Z) = OK r /\
    OrderedDict.get ["a"] (scalar r) = Some (Some 14%Z) /\
    OrderedDict.get ["b"] (scalar r) = Some (Some 11%Z).
Proof.
  eexists.
  edestruct (Scalar_add_number (T := Z) two_blocks Z_scalar_data None) with (y := 10%Z)
    as [Hnum _]; [ reflexivity | ].
  destruct Hnum as [r [Hr [_ [_ Hall]]]].
  - intros k v Hg; simpl in Hg.
    destruct (eq_dec k ["a"]); [ inversion Hg; discriminate | ].
    destruct (eq_dec k ["b"]); [ inversion Hg; discriminate | discriminate ].
  - exists r; split; [ reflexivity | split; [ exact Hr | ] ].
    split; [ apply (Hall ["a"] 4%Z eq_refl) | apply (Hall ["b"] 1%Z eq_refl) ].
Defined.

Lemma Scalar_add_container_witness :
  exists s r,
    Scalar_init two_blocks Z_scalar_data None = OK s /\
    Scalar_add s (PyScalar {| sc_ensemble := two_blocks;
                              scalar := [(["b"], Some 10%Z); (["a"], Some 20%Z)] |}) = OK r /\
    OrderedDict.get ["a"] (scalar r) = Some (Some 24%Z) /\
    OrderedDict.get ["b"] (scalar r) = Some (Some 11%Z).
Proof.
  eexists.
  edestruct (Scalar_add_container (T := Z) two_blocks Z_scalar_data None)
    with (other := {| sc_ensemble := two_blocks;
                      scalar := [(["b"], Some 10%Z); (["a"], Some 20%Z)] |})
    as [r [Hr [_ [_ Hall]]]]; [ reflexivity | | ].
  - intros k v Hg; simpl in Hg.
    destruct (eq_dec k ["a"]) as [-> | ]; [ inversion Hg; eexists; eexists; split; reflexivity | ].
    destruct (eq_dec k ["b"]) as [-> | ]; [ inversion Hg; eexists; eexists; split; reflexivity | ].
    discriminate.
  - exists r; split; [ reflexivity | split; [ exact Hr | ] ].
    split; [ apply (Hall ["a"] 4%Z 20%Z); reflexivity
           | apply (Hall ["b"] 1%Z 10%Z); reflexivity ].
Defined.

(** ** Minimum and maximum of a scalar container *)

Section MinMax.
Context {T : Type} `{Ordered T}.
Hypothesis ltb_irrefl : forall x : T, ltb x x = false.
Hypothesis ltb_trans : forall x y z : T, ltb x y = true -> ltb y z = true -> ltb x z = true.

Lemma fold_min_spec (l seen : list T) (m0 : T) :
  In m0 seen -> (forall y, In y seen -> ltb y m0 = false) ->
  In (fold_left (fun m y => if ltb y m then y else m) l m0) (seen ++ l) /\
  forall y, In y (seen ++ l) ->
    ltb y (fold_left (fun m y => if ltb y m then y else m) l m0) = false.
Proof.
  revert seen m0; induction l as [ | y' l IH ]; simpl; intros seen m0 Hin Hmin.
  - rewrite app_nil_r; auto.
  - replace (seen ++ y' :: l) with ((seen ++ [y']) ++ l)
      by (rewrite <- app_assoc; reflexivity).
    apply IH.
    + destruct (ltb y' m0); apply in_or_app; simpl; auto.
    + intros y Hy. apply in_app_or in Hy.
      destruct (ltb y' m0) eqn:E.
      * destruct Hy as [Hy | [<- | []]]; [ | apply ltb_irrefl ].
        destruct (ltb y y') eqn:E'; [ | reflexivity ].
        rewrite <- (Hmin y Hy); symmetry; apply (ltb_trans _ _ _ E' E).
      * destruct Hy as [Hy | [<- | []]]; [ apply Hmin, Hy | exact E ].
Qed.

Lemma fold_max_spec (l seen : list T) (m0 : T) :
  In m0 seen -> (forall y, In y seen -> ltb m0 y = false) ->
  In (fold_left (fun m y => if ltb m y then y else m) l m0) (seen ++ l) /\
  forall y, In y (seen ++ l) ->
    ltb (fold_left (fun m y => if ltb m y then y else m) l m0) y = false.
Proof.
  revert seen m0; induction l as [ | y' l IH ]; simpl; intros seen m0 Hin Hmax.
  - rewrite app_nil_r; auto.
  - replace (seen ++ y' :: l) with ((seen ++ [y']) ++ l)
      by (rewrite <- app_assoc; reflexivity).
    apply IH.
    + destruct (ltb m0 y'); apply in_or_app; simpl; auto.
    + intros y Hy. apply in_app_or in Hy.
      destruct (ltb m0 y') eqn:E.
      * destruct Hy as [Hy | [<- | []]]; [ | apply ltb_irrefl ].
        destruct (ltb y' y) eqn:E'; [ | reflexivity ].
        rewrite <- (Hmax y Hy); symmetry; apply (ltb_trans _ _ _ E E').
      * destruct Hy as [Hy | [<- | []]]; [ apply Hmax, Hy | exact E ].
Qed.

Lemma not_None_In (l : list (option T)) (x : T) : In x (not_None l) <-> In (Some x) l.
Proof.
  induction l as [ | [y | ] l IH ]; simpl; [ tauto | | ].
  - rewrite IH; split; intros [Heq | Hin]; auto; left; congruence.
  - rewrite IH; split; [ auto | intros [Heq | Hin]; [ discriminate | auto ] ].
Qed.

(** X17.  With a strict order on the values that is irreflexive and
    transitive, [min] and [max] of a scalar container raise a [ValueError]
    when no block holds a number, and otherwise return a number held by some
    block such that no number of the container is smaller than the minimum
    and none is larger than the maximum; blocks holding [None] are passed
    over. *)
Theorem Scalar_min_max (s : Scalar T) :
  ((forall x, ~ In (Some x) (OrderedDict.values (scalar s))) ->
   Scalar_min s = Raise (ValueError "min() arg is an empty sequence") /\
   Scalar_max s = Raise (ValueError "max() arg is an empty sequence")) /\
  (forall x0, In (Some x0) (OrderedDict.values (scalar s)) ->
   exists lo hi,
     Scalar_min s = OK lo /\ Scalar_max s = OK hi /\
     In (Some lo) (OrderedDict.values (scalar s)) /\
     In (Some hi) (OrderedDict.values (scalar s)) /\
     forall y, In (Some y) (OrderedDict.values (scalar s)) ->
       ltb y lo = false /\ ltb hi y = false).
Proof.
  unfold Scalar_min, Scalar_max.
  set (vs := not_None (OrderedDict.values (scalar s))).
  split.
  - intro Hnone. assert (Hvs : vs = []).
    { destruct vs as [ | x l ] eqn:E; [ reflexivity | ].
      exfalso; apply (Hnone x), not_None_In. fold vs; rewrite E; simpl; auto. }
    rewrite Hvs; split; reflexivity.
  - intros x0 Hx0. apply not_None_In in Hx0; fold vs in Hx0.
    destruct vs as [ | x l ] eqn:E; [ contradiction | ]; simpl.
    destruct (fold_min_spec l [x] x) as [Hin Hmin];
      [ simpl; auto | intros y [<- | []]; apply ltb_irrefl | ].
    destruct (fold_max_spec l [x] x) as [Hin' Hmax];
      [ simpl; auto | intros y [<- | []]; apply ltb_irrefl | ].
    simpl in Hin, Hmin, Hin', Hmax.
    eexists; eexists; split; [ reflexivity | split; [ reflexivity | ] ].
    split; [ apply not_None_In; fold vs; rewrite E; exact Hin | ].
    split; [ apply not_None_In; fold vs; rewrite E; exact Hin' | ].
    intros y Hy. apply not_None_In in Hy; fold vs in Hy; rewrite E in Hy.
    split; [ apply Hmin, Hy | apply Hmax, Hy ].
Qed.

End MinMax.

Lemma Scalar_min_max_witness :
  exists s,
    Scalar_init two_blocks Z_scalar_data_None None = OK s /\
    Scalar_min s = OK 4%Z /\ Scalar_max s = OK 4%Z.
Proof.
  eexists; split; [ reflexivity | ].
  assert (Htrans : forall x y z : Z,
            ltb x y = true -> ltb y z = true -> ltb x z = true).
  { intros x y z Hxy Hyz; apply Z.ltb_lt; apply Z.ltb_lt in Hxy, Hyz; lia. }
  match goal with
  | |- Scalar_min ?s = _ /\ _ =>
      destruct (@Scalar_min_max Z Z_Ordered Z.ltb_irrefl Htrans s) as [_ Hsome]
  end.
  destruct (Hsome 4%Z) as [lo [hi [Hlo [Hhi _]]]]; [ simpl; auto | ].
  rewrite Hlo, Hhi.
  vm_compute in Hlo; vm_compute in Hhi.
  inversion Hlo; inversion Hhi; split; reflexivity.
Defined.

(** ** More on the tridiagonal container *)

Lemma combine_keys_values {V : Type} (d : odict V) :
  combine (OrderedDict.keys d) (OrderedDict.values d) = d.
Proof.
  induction d as [ | [k v] d IH ]; simpl; [ reflexivity | ].
  f_equal; exact IH.
Qed.

Lemma combine_aligned {V W : Type} (d : odict V) (d' : odict W) :
  OrderedDict.keys d = OrderedDict.keys d' ->
  map (fun p => fst (fst p)) (combine d (OrderedDict.values d')) = OrderedDict.keys d /\
  forall k v w, In (k, v, w) (combine d (OrderedDict.values d')) ->
    In (k, v) d /\ In (k, w) d'.
Proof.
  revert d'; induction d as [ | [k0 v0] d IH ]; intros [ | [k0' w0] d' ] Hk;
    simpl in *; try discriminate.
  - split; [ reflexivity | intros k v w [] ].
  - inversion Hk as [[Hk0 Hrest]]; subst k0'.
    destruct (IH d' Hrest) as [Hmap Hin].
    split; [ f_equal; exact Hmap | ].
    intros k v w [Heq | Hc].
    + inversion Heq; subst; auto.
    + destruct (Hin k v w Hc); auto.
Qed.

Section TriDiagFurther.
Context {T : Type} `{Numeric T} `{External T}.

Lemma ensemble_loop_Array_init (ens : Ensemble) (f : list string -> result (ndarray T))
  (n : nat) :
  Ensemble_iter ens <> [] ->
  (forall b, In b (map fst (Ensemble_iter ens)) -> exists m, f b = OK m /\ np_ndim m = n) ->
  exists data c,
    for_each (store (fun bd : list string * Z => f (fst bd)))
      (Ensemble_iter ens) OrderedDict.empty = OK data /\
    EnsembleArray_init ens (Arrays data) None = OK c /\
    ensemble c = ens /\ ndim c = n /\
    forall b, In b (map fst (Ensemble_iter ens)) ->
      exists m, f b = OK m /\ OrderedDict.get b (array c) = Some m.
Proof.
  intros Hne Hf.
  destruct (store_loop_total (fun bd : list string * Z => f (fst bd))
              (Ensemble_iter ens) OrderedDict.empty) as [data Hloop].
  { intros [b deg] Hin; simpl.
    destruct (Hf b) as [m [Hm _]]; [ apply in_map_iff; exists (b, deg); auto | eauto ]. }
  assert (Hdata : forall b, In b (map fst (Ensemble_iter ens)) ->
            exists m, f b = OK m /\ np_ndim m = n /\ OrderedDict.get b data = Some m).
  { intros b Hb. destruct (Hf b Hb) as [m [Hm Hn]].
    apply in_map_iff in Hb; destruct Hb as [[b' deg] [Hfst Hin]]; simpl in Hfst; subst b'.
    destruct (store_loop_get _ _ _ _ Hloop) with (k := b) (x := deg) as [v [Hv Hg]];
      [ intros; reflexivity | exact Hin | ].
    simpl in Hv; rewrite Hm in Hv; inversion Hv; subst v; eauto. }
  destruct (EnsembleArray_init_total ens (Arrays data) None n Hne) as [c [Hc Hnc]].
  { intros b Hb. destruct (Hdata b Hb) as [m [_ [Hn Hg]]].
    exists m; split; [ simpl; unfold lookup; rewrite Hg; reflexivity | exact Hn ]. }
  exists data, c.
  destruct (EnsembleArray_init_inv _ _ _ _ Hc) as [Hec [_ [_ [Hget _]]]].
  split; [ exact Hloop | split; [ exact Hc | split; [ exact Hec | split; [ exact Hnc | ] ] ] ].
  intros b Hb. destruct (Hdata b Hb) as [m [Hm [_ Hg]]].
  destruct (Hget b Hb) as [x [Hx Hgc]].
  simpl in Hx; unfold lookup in Hx; rewrite Hg in Hx; inversion Hx; subst x.
  exists m; auto.
Qed.

Lemma ensemble_loop_Scalar_init (ens : Ensemble) (f : list string -> result (option T)) :
  (forall b, In b (map fst (Ensemble_iter ens)) -> exists v, f b = OK v) ->
  exists data sc,
    for_each (store (fun bd : list string * Z => f (fst bd)))
      (Ensemble_iter ens) OrderedDict.empty = OK data /\
    EnsembleScalar_init ens data None None = OK sc /\
    sc_ensemble sc = ens /\
    forall b, In b (map fst (Ensemble_iter ens)) ->
      exists v, f b = OK v /\ OrderedDict.get b (scalar sc) = Some v.
Proof.
  intro Hf.
  destruct (store_loop_total (fun bd : list string * Z => f (fst bd))
              (Ensemble_iter ens) OrderedDict.empty) as [data Hloop].
  { intros [b deg] Hin; simpl. apply Hf, in_map_iff; exists (b, deg); auto. }
  assert (Hdata : forall b, In b (map fst (Ensemble_iter ens)) ->
            exists v, f b = OK v /\ OrderedDict.get b data = Some v).
  { intros b Hb.
    apply in_map_iff in Hb; destruct Hb as [[b' deg] [Hfst Hin]]; simpl in Hfst; subst b'.
    destruct (store_loop_get _ _ _ _ Hloop) with (k := b) (x := deg) as [v [Hv Hg]];
      [ intros; reflexivity | exact Hin | eauto ]. }
  unfold EnsembleScalar_init.
  destruct (store_loop_total (fun bd : list string * Z => dt <- lookup data (fst bd) ;; OK dt)
              (Ensemble_iter ens) OrderedDict.empty) as [sc Hsc].
  { intros [b deg] Hin; simpl.
    destruct (Hdata b) as [v [_ Hg]]; [ apply in_map_iff; exists (b, deg); auto | ].
    unfold lookup; rewrite Hg; simpl; eauto. }
  exists data; eexists. rewrite Hsc; simpl.
  split; [ exact Hloop | split; [ reflexivity | split; [ reflexivity | ] ] ].
  intros b Hb. destruct (Hdata b Hb) as [v [Hv Hg]].
  apply in_map_iff in Hb; destruct Hb as [[b' deg] [Hfst Hin]]; simpl in Hfst; subst b'.
  destruct (store_loop_get _ _ _ _ Hsc) with (k := b) (x := deg) as [w [Hw Hgw]];
    [ intros; reflexivity | exact Hin | ].
  simpl in Hw; unfold lookup in Hw; rewrite Hg in Hw; simpl in Hw; inversion Hw; subst w.
  exists v; auto.
Qed.

Lemma EnsembleTriDiag_init_keys (ens : Ensemble)
  (data : odict (OrderedDict.t string (ndarray T))) (dtag otag : string)
  (dtype : option (T -> T)) (t : EnsembleTriDiag T) :
  EnsembleTriDiag_init ens data dtag otag dtype = OK t ->
  OrderedDict.keys (diag t) = first_occurrences (map fst (Ensemble_iter ens)) /\
  OrderedDict.keys (offdiag t) = first_occurrences (map fst (Ensemble_iter ens)).
Proof.
  unfold EnsembleTriDiag_init; intro Hi.
  apply bind_OK_inv in Hi; destruct Hi as [D [_ Hi]].
  apply bind_OK_inv in Hi; destruct Hi as [O [_ Hi]].
  apply bind_OK_inv in Hi; destruct Hi as [st [Hloop Hi]].
  inversion Hi; subst t; clear Hi; simpl.
  rewrite tridiag_loop_split in Hloop.
  apply bind_OK_inv in Hloop; destruct Hloop as [d1 [H1 Hloop]].
  apply bind_OK_inv in Hloop; destruct Hloop as [d2 [H2 Hloop]].
  inversion Hloop; subst st; simpl.
  split; [ apply (store_loop_keys _ _ _ _ H1) | apply (store_loop_keys _ _ _ _ H2) ].
Qed.

(** X18.  Iterating a constructed tridiagonal container yields one triple
    per block key in the order of the ensemble, and every triple holds the
    diagonal and the off-diagonal stored under its own key: the two
    dictionaries are filled in the same order, so the [zip] never pairs the
    entries of different blocks. *)
Theorem EnsembleTriDiag_iter_aligned (ens : Ensemble)
  (data : odict (OrderedDict.t string (ndarray T))) (dtag otag : string)
  (dtype : option (T -> T)) (t : EnsembleTriDiag T) :
  EnsembleTriDiag_init ens data dtag otag dtype = OK t ->
  map (fun p => fst (fst p)) (EnsembleTriDiag_iter t)
  = first_occurrences (map fst (Ensemble_iter ens)) /\
  forall k d od, In (k, d, od) (EnsembleTriDiag_iter t) ->
    OrderedDict.get k (diag t) = Some d /\ OrderedDict.get k (offdiag t) = Some od.
Proof.
  intro Ht. destruct (EnsembleTriDiag_init_keys _ _ _ _ _ _ Ht) as [Hkd Hko].
  unfold EnsembleTriDiag_iter; rewrite combine_keys_values.
  destruct (combine_aligned (diag t) (offdiag t)) as [Hmap Hin]; [ congruence | ].
  split; [ rewrite Hmap; exact Hkd | ].
  intros k d od Hi. destruct (Hin k d od Hi) as [Hd Ho].
  split; apply get_of_In; try assumption.
  - rewrite Hkd; apply first_occurrences_NoDup.
  - rewrite Hko; apply first_occurrences_NoDup.
Qed.

Lemma eigvals_block_cases (t : EnsembleTriDiag T) (b : list string) (d od : ndarray T)
  (n : nat) :
  OrderedDict.get b (diag t) = Some d ->
  OrderedDict.get b (offdiag t) = Some od ->
  shape d = [n] ->
  (n = 0 -> eigvals_block t b = OK (np_empty 0)) /\
  (n = 1 -> eigvals_block t b = OK d) /\
  (2 <= n ->
     eigvals_block t b = (ev <- eigvalsh_tridiagonal d od SelectAll ;; OK (vector ev))).
Proof.
  intros Hd Hod Hs; unfold eigvals_block, lookup; rewrite Hd; simpl.
  unfold np_len; rewrite Hs; simpl.
  split; [ intros ->; reflexivity | split ].
  - intros ->; reflexivity.
  - intro Hn. destruct n as [ | [ | n ] ]; [ lia | lia | ]; simpl.
    rewrite Hod; reflexivity.
Qed.

(** X19.  On a constructed tridiagonal container, with an eigenvalue routine
    that returns at least one value for every block of length two or more and
    whose value for the index range from 0 to 0 is the first of all its
    values, [eigvals] returns a container of one dimension whose block is
    empty for a block of length zero, the diagonal itself for a block of
    length one and the values of the routine otherwise; and for every
    non-empty block the entry of [eig0] is the first element of that
    block. *)
Theorem eigvals_and_eig0 (ens : Ensemble)
  (data : odict (OrderedDict.t string (ndarray T))) (dtag otag : string)
  (dtype : option (T -> T)) (t : EnsembleTriDiag T) :
  EnsembleTriDiag_init ens data dtag otag dtype = OK t ->
  (forall b d od n, In b (map fst (Ensemble_iter ens)) ->
     OrderedDict.get b (diag t) = Some d -> OrderedDict.get b (offdiag t) = Some od ->
     np_len d = OK n -> 2 <= n ->
     exists x evs, eigvalsh_tridiagonal d od SelectAll = OK (x :: evs) /\
                   eigvalsh_tridiagonal d od (SelectIndex 0 0) = OK [x]) ->
  exists c sc,
    eigvals t = OK c /\ eig0 t = OK sc /\
    ensemble c = td_ensemble t /\ ndim c = 1 /\
    forall b, In b (map fst (Ensemble_iter ens)) ->
      exists d od n m,
        OrderedDict.get b (diag t) = Some d /\
        OrderedDict.get b (offdiag t) = Some od /\
        np_len d = OK n /\
        OrderedDict.get b (array c) = Some m /\
        (n = 0 -> shape m = [0] /\ OrderedDict.get b (scalar sc) = Some None) /\
        (n = 1 -> m = d) /\
        (2 <= n -> exists evs, eigvalsh_tridiagonal d od SelectAll = OK evs /\
                               m = vector evs) /\
        (1 <= n -> OrderedDict.get b (scalar sc) = Some (Some (item m [0]))).
Proof.
  intros Ht Hroutine.
  destruct (EnsembleTriDiag_blocks _ _ _ _ _ _ Ht) as [He [Hne Hall]].
  assert (Hblock : forall b, In b (map fst (Ensemble_iter ens)) ->
            exists d od n m v,
              OrderedDict.get b (diag t) = Some d /\
              OrderedDict.get b (offdiag t) = Some od /\
              np_len d = OK n /\
              eigvals_block t b = OK m /\ np_ndim m = 1 /\
              eig0_block t b = OK v /\
              (n = 0 -> shape m = [0] /\ v = None) /\
              (n = 1 -> m = d) /\
              (2 <= n -> exists evs, eigvalsh_tridiagonal d od SelectAll = OK evs /\
                                     m = vector evs) /\
              (1 <= n -> v = Some (item m [0]))).
  { intros b Hb. destruct (Hall b Hb) as [d [od [n [Hd [Hod [Hs _]]]]]].
    assert (Hlen : np_len d = OK n) by (unfold np_len; rewrite Hs; reflexivity).
    destruct (eigvals_block_cases t b d od n Hd Hod Hs) as [V0 [V1 V2]].
    destruct (eig0_block_cases t b d od n Hd Hod Hs) as [E0 [E1 E2]].
    destruct n as [ | [ | n ] ].
    - exists d, od, 0, (np_empty 0), None.
      split; [ exact Hd | split; [ exact Hod | split; [ exact Hlen | ] ] ].
      split; [ auto | split; [ reflexivity | split; [ auto | ] ] ].
      split; [ intros _; split; reflexivity | ].
      split; [ intro; lia | split; intro; lia ].
    - exists d, od, 1, d, (Some (item d [0])).
      split; [ exact Hd | split; [ exact Hod | split; [ exact Hlen | ] ] ].
      split; [ auto | split; [ unfold np_ndim; rewrite Hs; reflexivity | ] ].
      split; [ auto | split; [ intro; lia | split; [ auto | split; [ intro; lia | auto ] ] ] ].
    - assert (Hge : 2 <= S (S n)) by lia.
      destruct (Hroutine b d od (S (S n)) Hb Hd Hod Hlen Hge) as [x [evs [Hall' Hfirst]]].
      exists d, od, (S (S n)), (vector (x :: evs)), (Some x).
      split; [ exact Hd | split; [ exact Hod | split; [ exact Hlen | ] ] ].
      split; [ rewrite (V2 Hge), Hall'; reflexivity | split; [ reflexivity | ] ].
      split; [ rewrite (E2 Hge), Hfirst; reflexivity | ].
      split; [ intro; lia | split; [ intro; lia | ] ].
      split; [ intros _; exists (x :: evs); auto | intros _; reflexivity ]. }
  rewrite <- He in Hne, Hblock.
  destruct (ensemble_loop_Array_init (td_ensemble t) (eigvals_block t) 1 Hne)
    as [dv [c [Hlv [Hc [Hec [Hnc Hgc]]]]]].
  { intros b Hb. destruct (Hblock b Hb)
      as [d [od [n [m [v [_ [_ [_ [Hm [Hnd _]]]]]]]]]]; eauto. }
  destruct (ensemble_loop_Scalar_init (td_ensemble t) (eig0_block t))
    as [ds [sc [Hls [Hsc [_ Hgs]]]]].
  { intros b Hb. destruct (Hblock b Hb)
      as [d [od [n [m [v [_ [_ [_ [_ [_ [Hv _]]]]]]]]]]]; eauto. }
  exists c, sc. unfold eigvals, eig0; rewrite Hlv, Hls; simpl.
  split; [ exact Hc | split; [ exact Hsc | split; [ exact Hec | split; [ exact Hnc | ] ] ] ].
  rewrite <- He. intros b Hb.
  destruct (Hblock b Hb)
    as [d [od [n [m [v [Hd [Hod [Hlen [Hm [_ [Hv [H0n [H1n [H2n Hpos]]]]]]]]]]]]]].
  destruct (Hgc b Hb) as [m' [Hm' Hgm]]; rewrite Hm in Hm'; inversion Hm'; subst m'.
  destruct (Hgs b Hb) as [v' [Hv' Hgv]]; rewrite Hv in Hv'; inversion Hv'; subst v'.
  exists d, od, n, m.
  split; [ exact Hd | split; [ exact Hod | split; [ exact Hlen | split; [ exact Hgm | ] ] ] ].
  split; [ intro E; destruct (H0n E) as [Hs0 Hv0]; rewrite <- Hv0; auto | ].
  split; [ exact H1n | split; [ exact H2n | ] ].
  intro E; rewrite <- (Hpos E); exact Hgv.
Qed.

End TriDiagFurther.

Lemma EnsembleTriDiag_iter_aligned_witness :
  exists t,
    EnsembleTriDiag_init one_block tridiag_data_3 "diag" "offdiag" None = OK t /\
    map (fun p => fst (fst p)) (EnsembleTriDiag_iter t) = [["a"]] /\
    forall k d od, In (k, d, od) (EnsembleTriDiag_iter t) ->
      OrderedDict.get k (diag t) = Some d /\ OrderedDict.get k (offdiag t) = Some od.
Proof.
  eexists; split; [ reflexivity | ].
  exact (EnsembleTriDiag_iter_aligned (T := Z) one_block tridiag_data_3
           "diag" "offdiag" None _ eq_refl).
Defined.

Lemma eigvals_and_eig0_witness :
  exists t c sc m,
    EnsembleTriDiag_init one_block tridiag_data_diagonal "diag" "offdiag" None = OK t /\
    eigvals t = OK c /\ eig0 t = OK sc /\
    OrderedDict.get ["a"] (array c) = Some m /\
    tolist m = [1; 2; 3]%Z /\
    OrderedDict.get ["a"] (scalar sc) = Some (Some 1%Z).
Proof.
  eexists.
  edestruct (eigvals_and_eig0 (T := Z) one_block tridiag_data_diagonal "diag" "offdiag" None)
    as [c [sc [Hc [Hsc [_ [_ Hall]]]]]]; [ reflexivity | | ].
  - intros b d od n [<- | []] Hd Hod _ _.
    inversion Hd; inversion Hod; subst d od.
    eexists; eexists; split; reflexivity.
  - destruct (Hall ["a"]) as [d [od [n [m [Hd [Hod [Hn [Hm [_ [_ [H2 Hpos]]]]]]]]]]];
      [ simpl; auto | ].
    inversion Hd; subst d; inversion Hod; subst od.
    vm_compute in Hn; inversion Hn; subst n.
    exists c, sc, m.
    split; [ reflexivity | split; [ exact Hc | split; [ exact Hsc | split; [ exact Hm | ] ] ] ].
    destruct H2 as [evs [Hevs Hv]]; [ lia | ].
    vm_compute in Hevs; inversion Hevs; subst evs.
    split; [ rewrite Hv; reflexivity | ].
    rewrite Hpos by lia; rewrite Hv; reflexivity.
Defined.

(** ** Symmetry of the dense matrices *)

Section DenseSymmetry.
Context {T : Type} `{Numeric T} `{External T}.
Hypothesis add_0_l : forall x : T, add zero x = x.
Hypothesis add_0_r : forall x : T, add x zero = x.

Lemma tridiagonal_entry_sym (d od : ndarray T) (i j : nat) :
  tridiagonal_entry d od i j = tridiagonal_entry d od j i.
Proof.
  unfold tridiagonal_entry.
  destruct (Nat.eqb_spec i j), (Nat.eqb_spec j i), (Nat.eqb_spec j (i + 1)),
    (Nat.eqb_spec i (j + 1)); try lia; subst; reflexivity.
Qed.

(** X20.  On a constructed tridiagonal container, over elements for which
    adding zero changes nothing, [asarray] returns a container of ndim 2
    over the same ensemble in which the matrix of every block is square, of
    the length of the block's diagonal, and symmetric. *)
Theorem asarray_symmetric (ens : Ensemble)
  (data : odict (OrderedDict.t string (ndarray T))) (dtag otag : string)
  (dtype : option (T -> T)) (t : EnsembleTriDiag T) :
  EnsembleTriDiag_init ens data dtag otag dtype = OK t ->
  exists c,
    asarray t = OK c /\ ensemble c = ens /\ ndim c = 2 /\
    forall b, In b (map fst (Ensemble_iter ens)) ->
      exists d m n,
        OrderedDict.get b (diag t) = Some d /\
        np_len d = OK n /\
        OrderedDict.get b (array c) = Some m /\
        shape m = [n; n] /\
        forall i j, i < n -> j < n -> item m [i; j] = item m [j; i].
Proof.
  intro Ht.
  destruct (EnsembleTriDiag_blocks _ _ _ _ _ _ Ht) as [He [Hne Hall]].
  assert (Hblock : forall b, In b (map fst (Ensemble_iter ens)) ->
            exists d m n, OrderedDict.get b (diag t) = Some d /\ np_len d = OK n /\
              asarray_block t b = OK m /\ shape m = [n; n] /\
              forall i j, i < n -> j < n -> item m [i; j] = item m [j; i]).
  { intros b Hb. destruct (Hall b Hb) as [d [od [n [Hd [Hod [Hs Hso]]]]]].
    destruct (asarray_block_dense add_0_l add_0_r t b d od n Hd Hod Hs Hso)
      as [m [Hm [Hsm Hi]]].
    exists d, m, n; split; [ exact Hd | ].
    split; [ unfold np_len; rewrite Hs; reflexivity | ].
    split; [ exact Hm | split; [ exact Hsm | ] ].
    intros i j Hlt Hlt'. rewrite (Hi i j Hlt Hlt'), (Hi j i Hlt' Hlt).
    apply tridiagonal_entry_sym. }
  rewrite <- He in Hne, Hblock.
  destruct (ensemble_loop_Array_init (td_ensemble t) (asarray_block t) 2 Hne)
    as [dm [c [Hl [Hc [Hec [Hnc Hgc]]]]]].
  { intros b Hb. destruct (Hblock b Hb) as [d [m [n [_ [_ [Hm [Hsm _]]]]]]].
    exists m; split; [ exact Hm | unfold np_ndim; rewrite Hsm; reflexivity ]. }
  exists c. unfold asarray; rewrite Hl; simpl.
  split; [ exact Hc | split; [ congruence | split; [ exact Hnc | ] ] ].
  rewrite <- He. intros b Hb.
  destruct (Hblock b Hb) as [d [m [n [Hd [Hn [Hm [Hsm Hsym]]]]]]].
  destruct (Hgc b Hb) as [m' [Hm' Hg]]; rewrite Hm in Hm'; inversion Hm'; subst m'.
  exists d, m, n; auto.
Qed.

End DenseSymmetry.

Lemma asarray_symmetric_witness :
  exists t c m,
    EnsembleTriDiag_init one_block tridiag_data_3 "diag" "offdiag" None = OK t /\
    asarray t = OK c /\
    OrderedDict.get ["a"] (array c) = Some m /\
    shape m = [3; 3] /\
    item m [0; 1] = item m [1; 0].
Proof.
  eexists.
  edestruct (@asarray_symmetric Z Z_Numeric Z.add_0_l Z.add_0_r
               one_block tridiag_data_3 "diag" "offdiag" None)
    as [c [Hc [_ [_ Hall]]]]; [ reflexivity | ].
  destruct (Hall ["a"]) as [d [m [n [Hd [Hn [Hm [Hs Hsym]]]]]]]; [ simpl; auto | ].
  inversion Hd; subst d.
  vm_compute in Hn; inversion Hn; subst n.
  exists c, m; split; [ reflexivity | split; [ exact Hc | split; [ exact Hm | ] ] ].
  split; [ exact Hs | apply (Hsym 0 1); lia ].
Defined.
